(** * Odds-to-outcome probability engine of the sports-betting frontend

    A shallow embedding of the two TypeScript modules that make up the
    engine:

    - [marketGenerator] ([generateMissingMarkets], [oddsToProbabilities]),
    - [oddsConverter]  ([oddsToScoreProbabilities],
      [oddsToScoreProbabilitiesWithTotals]).

    The functions are pure and work on JavaScript [number]s.  They are
    translated once, over an interface [JSNumber] of the arithmetic they use,
    and the interface is implemented twice:

    - [Float_JSNumber]: IEEE 754 binary64 with the JavaScript meaning of
      [<], [>], truthiness, [Math.min] and [Math.max].  This is the arithmetic
      the program runs on; the definitions evaluate under it.
    - [R_JSNumber]: the real numbers, i.e. the arithmetic "modulo
      floating-point error" in which the specification phrases sums and
      equalities of probabilities.  Rocq's real division is total
      ([x / 0 = 0]) where JavaScript yields an infinity or NaN, so a
      theorem over the reals whose truth depends on a quotient carries the
      hypotheses under which its divisor does not vanish. *)

From Stdlib Require Import ZArith List Bool String.
From Stdlib Require Import Reals Lra Lia.
From Stdlib Require Import PrimFloat Uint63.
Import ListNotations.

Set Implicit Arguments.
Set Warnings "-inexact-float".

(** ** JavaScript numbers *)

Declare Scope js_scope.
Delimit Scope js_scope with js.

Class JSNumber (num : Type) : Type := {
  (** an integer literal *)
  int : Z -> num;
  js_add : num -> num -> num;
  js_sub : num -> num -> num;
  js_mul : num -> num -> num;
  js_div : num -> num -> num;
  (** [a < b] *)
  js_lt : num -> num -> bool;
  (** ToBoolean on a number: false on [0], [-0] and [NaN].  An optional
      number [x?: number] is an [option]; [undefined] is falsy, so
      [x ? a : b] reads [match x with Some v => if truthy v then a else b
      | None => b end]. *)
  truthy : num -> bool;
  Math_min : num -> num -> num;
  Math_max : num -> num -> num
}.

Infix "+" := js_add : js_scope.
Infix "-" := js_sub : js_scope.
Infix "*" := js_mul : js_scope.
Infix "/" := js_div : js_scope.
Infix "<?" := js_lt : js_scope.

(** [a > b] is evaluated as [b < a]. *)
Definition js_gt {num} `{JSNumber num} (a b : num) : bool := js_lt b a.
Infix ">?" := js_gt : js_scope.

(** A decimal literal: [dec m d] with [d] a power of ten is the literal
    [m/d]; [dec 35 100] is [0.35], [dec 25 10] is [2.5].  Both integers are
    exact and the division is correctly rounded, so under binary64 this is
    the double the literal denotes (see [float_literals]). *)
Definition dec {num} `{JSNumber num} (m d : Z) : num :=
  (int m / int d)%js.

(** *** Binary64 *)

Definition float_of_Z (z : Z) : float :=
  match z with
  | Z0 => PrimFloat.zero
  | Zpos _ => PrimFloat.of_uint63 (Uint63.of_Z z)
  | Zneg p => PrimFloat.opp (PrimFloat.of_uint63 (Uint63.of_Z (Zpos p)))
  end.

Definition float_truthy (x : float) : bool :=
  negb (PrimFloat.is_zero x || PrimFloat.is_nan x).

(** [Math.min]: NaN if either argument is NaN, and [-0] is below [+0]. *)
Definition float_min (a b : float) : float :=
  if PrimFloat.is_nan a || PrimFloat.is_nan b then PrimFloat.nan
  else if PrimFloat.ltb a b then a
  else if PrimFloat.ltb b a then b
  else if PrimFloat.get_sign a then a else b.

(** [Math.max]: NaN if either argument is NaN, and [+0] is above [-0]. *)
Definition float_max (a b : float) : float :=
  if PrimFloat.is_nan a || PrimFloat.is_nan b then PrimFloat.nan
  else if PrimFloat.ltb a b then b
  else if PrimFloat.ltb b a then a
  else if PrimFloat.get_sign a then b else a.

#[export] Instance Float_JSNumber : JSNumber float := {
  int := float_of_Z;
  js_add := PrimFloat.add;
  js_sub := PrimFloat.sub;
  js_mul := PrimFloat.mul;
  js_div := PrimFloat.div;
  js_lt := PrimFloat.ltb;
  truthy := float_truthy;
  Math_min := float_min;
  Math_max := float_max
}.

(** *** Real numbers *)

Definition R_lt (a b : R) : bool := if Rlt_dec a b then true else false.

Definition R_truthy (x : R) : bool := if Req_dec_T x 0 then false else true.

#[export] Instance R_JSNumber : JSNumber R := {
  int := IZR;
  js_add := Rplus;
  js_sub := Rminus;
  js_mul := Rmult;
  js_div := Rdiv;
  js_lt := R_lt;
  truthy := R_truthy;
  Math_min := Rmin;
  Math_max := Rmax
}.

(** ** Data model *)

(** [MatchMarkets.h2h]: the win market; [draw] is optional. *)
Record H2H (num : Type) : Type := {
  home : num;
  draw : option num;
  away : num
}.

Record Totals (num : Type) : Type := {
  point : num;
  over : num;
  under : num
}.

Record BothTeamsToScore (num : Type) : Type := {
  yes : num;
  no : num
}.

Record ScoreOdds (num : Type) : Type := {
  score : string;
  odds : num
}.

Record CorrectScore (num : Type) : Type := {
  scores : list (ScoreOdds num)
}.

Record MatchMarkets (num : Type) : Type := {
  h2h : option (H2H num);
  totals : option (Totals num);
  bothTeamsToScore : option (BothTeamsToScore num);
  correctScore : option (CorrectScore num)
}.

(** The parameter type of [generateMissingMarkets]:
    [{ h2h?: ..., totals?: ... }]. *)
Module Match.

Record t (num : Type) : Type := {
  h2h : option (H2H num);
  totals : option (Totals num)
}.

End Match.

(** Width subtyping: a [MatchMarkets] object passed where the parameter type
    of [generateMissingMarkets] is expected; only [h2h] and [totals] are ever
    read from it. *)
Definition asMatch {num} (m : MatchMarkets num) : Match.t num :=
  {| Match.h2h := h2h m; Match.totals := totals m |}.

Record ScoreProbability (num : Type) : Type := {
  home_score : num;
  away_score : num;
  probability : num
}.

(** An element of the literal tables [homeWinScores], [drawScores] and
    [awayWinScores]: [{ home, away, weight }]. *)
Record WeightedScore (num : Type) : Type := {
  w_home : num;
  w_away : num;
  weight : num
}.

(** An element of the local table [commonScores]: [{ score, prob }]. *)
Record ScoreProb (num : Type) : Type := {
  cs_score : string;
  cs_prob : num
}.

(** [{ ...sp, probability: p }] *)
Definition with_probability {num} (sp : ScoreProbability num) (p : num)
  : ScoreProbability num :=
  {| home_score := home_score sp;
     away_score := away_score sp;
     probability := p |}.

(** ** The engine *)

Section Engine.

Context {num : Type} `{JSNumber num}.

Local Open Scope string_scope.
Local Open Scope list_scope.
Local Open Scope js_scope.

(** [list.reduce((sum, sp) => sum + sp.probability, 0)] *)
Definition sumProbability (l : list (ScoreProbability num)) : num :=
  fold_left (fun sum sp => sum + probability sp) l (int 0).

(** The renormalisation that closes each conditioning block:
<<
  const totalAdjusted = scoreProbabilities.reduce(
    (sum, sp) => sum + sp.probability, 0)
  scoreProbabilities = scoreProbabilities.map(sp => ({
    ...sp, probability: sp.probability / totalAdjusted }))
>>
    The division is not guarded. *)
Definition renormalize (scoreProbabilities : list (ScoreProbability num))
  : list (ScoreProbability num) :=
  let totalAdjusted := sumProbability scoreProbabilities in
  map (fun sp => with_probability sp (probability sp / totalAdjusted))
      scoreProbabilities.

(** *** oddsConverter *)

Definition homeWinScores : list (WeightedScore num) :=
  [ {| w_home := int 1; w_away := int 0; weight := dec 35 100 |};
    {| w_home := int 2; w_away := int 0; weight := dec 20 100 |};
    {| w_home := int 2; w_away := int 1; weight := dec 18 100 |};
    {| w_home := int 3; w_away := int 0; weight := dec 10 100 |};
    {| w_home := int 3; w_away := int 1; weight := dec 10 100 |};
    {| w_home := int 4; w_away := int 0; weight := dec 4 100 |};
    {| w_home := int 3; w_away := int 2; weight := dec 3 100 |} ].

Definition drawScores : list (WeightedScore num) :=
  [ {| w_home := int 0; w_away := int 0; weight := dec 30 100 |};
    {| w_home := int 1; w_away := int 1; weight := dec 40 100 |};
    {| w_home := int 2; w_away := int 2; weight := dec 20 100 |};
    {| w_home := int 3; w_away := int 3; weight := dec 10 100 |} ].

Definition awayWinScores : list (WeightedScore num) :=
  [ {| w_home := int 0; w_away := int 1; weight := dec 35 100 |};
    {| w_home := int 0; w_away := int 2; weight := dec 20 100 |};
    {| w_home := int 1; w_away := int 2; weight := dec 18 100 |};
    {| w_home := int 0; w_away := int 3; weight := dec 10 100 |};
    {| w_home := int 1; w_away := int 3; weight := dec 10 100 |};
    {| w_home := int 0; w_away := int 4; weight := dec 4 100 |};
    {| w_home := int 2; w_away := int 3; weight := dec 3 100 |} ].

(** [for (const score of table) scoreProbabilities.push({ home_score:
    score.home, away_score: score.away, probability: norm * score.weight })] *)
Definition pushScores (norm : num) (table : list (WeightedScore num))
    (scoreProbabilities : list (ScoreProbability num))
  : list (ScoreProbability num) :=
  fold_left
    (fun acc score =>
       acc ++ [ {| home_score := w_home score;
                   away_score := w_away score;
                   probability := norm * weight score |} ])
    table scoreProbabilities.

Definition oddsToScoreProbabilities
    (homeOdds : num) (drawOdds : option num) (awayOdds : num)
  : list (ScoreProbability num) :=
  let homeProb := int 1 / homeOdds in
  let drawProb :=
    match drawOdds with
    | Some d => if truthy d then int 1 / d else int 0
    | None => int 0
    end in
  let awayProb := int 1 / awayOdds in
  let total := homeProb + drawProb + awayProb in
  let normHome := homeProb / total in
  let normDraw := drawProb / total in
  let normAway := awayProb / total in
  let scoreProbabilities := [] in
  let scoreProbabilities := pushScores normHome homeWinScores scoreProbabilities in
  let scoreProbabilities := pushScores normDraw drawScores scoreProbabilities in
  let scoreProbabilities := pushScores normAway awayWinScores scoreProbabilities in
  scoreProbabilities.

Definition oddsToScoreProbabilitiesWithTotals
    (homeOdds : num) (drawOdds : option num) (awayOdds : num)
    (totalsPoint overOdds underOdds : option num)
  : list (ScoreProbability num) :=
  let scoreProbabilities := oddsToScoreProbabilities homeOdds drawOdds awayOdds in
  match totalsPoint, overOdds, underOdds with
  | Some totalsPoint, Some overOdds, Some underOdds =>
      if truthy totalsPoint && truthy overOdds && truthy underOdds then
        let overProb := int 1 / overOdds in
        let underProb := int 1 / underOdds in
        let totalProb := overProb + underProb in
        let normOver := overProb / totalProb in
        let normUnder := underProb / totalProb in
        let scoreProbabilities :=
          map (fun sp =>
                 let totalGoals := home_score sp + away_score sp in
                 if totalGoals >? totalsPoint then
                   with_probability sp
                     (probability sp * (dec 5 10 + normOver * dec 5 10))
                 else if totalGoals <? totalsPoint then
                   with_probability sp
                     (probability sp * (dec 5 10 + normUnder * dec 5 10))
                 else sp)
              scoreProbabilities in
        renormalize scoreProbabilities
      else scoreProbabilities
  | _, _, _ => scoreProbabilities
  end.

(** *** marketGenerator *)

(** The local table [commonScores] of [generateMissingMarkets], as a
    function of the three implied probabilities it is built from. *)
Definition commonScores (homeProb awayProb drawProb : num)
  : list (ScoreProb num) :=
  [ {| cs_score := "0-0"; cs_prob := drawProb * dec 2 10 |};
    {| cs_score := "1-0"; cs_prob := homeProb * dec 15 100 |};
    {| cs_score := "0-1"; cs_prob := awayProb * dec 15 100 |};
    {| cs_score := "1-1"; cs_prob := drawProb * dec 3 10 |};
    {| cs_score := "2-0"; cs_prob := homeProb * dec 12 100 |};
    {| cs_score := "0-2"; cs_prob := awayProb * dec 12 100 |};
    {| cs_score := "2-1"; cs_prob := homeProb * dec 18 100 |};
    {| cs_score := "1-2"; cs_prob := awayProb * dec 18 100 |};
    {| cs_score := "2-2"; cs_prob := drawProb * dec 2 10 |};
    {| cs_score := "3-0"; cs_prob := homeProb * dec 8 100 |};
    {| cs_score := "0-3"; cs_prob := awayProb * dec 8 100 |};
    {| cs_score := "3-1"; cs_prob := homeProb * dec 1 10 |};
    {| cs_score := "1-3"; cs_prob := awayProb * dec 1 10 |};
    {| cs_score := "3-2"; cs_prob := (homeProb + awayProb) * dec 5 100 |};
    {| cs_score := "4-0"; cs_prob := homeProb * dec 3 100 |};
    {| cs_score := "0-4"; cs_prob := awayProb * dec 3 100 |} ].

Definition generateMissingMarkets (match_ : Match.t num) : MatchMarkets num :=
  let markets :=
    {| h2h := Match.h2h match_;
       totals := Match.totals match_;
       bothTeamsToScore := None;
       correctScore := None |} in
  (* Generate Both Teams To Score odds *)
  let markets :=
    match bothTeamsToScore markets with
    | None =>
        let homeProb :=
          match Match.h2h match_ with
          | Some w => int 1 / home w
          | None => dec 33 100
          end in
        let awayProb :=
          match Match.h2h match_ with
          | Some w => int 1 / away w
          | None => dec 33 100
          end in
        let teamBalance :=
          Math_min homeProb awayProb / Math_max homeProb awayProb in
        let avgWinProb := (homeProb + awayProb) / int 2 in
        let bttsProb :=
          dec 4 10 + (teamBalance * dec 3 10) + (avgWinProb * dec 2 10) in
        let margin := dec 105 100 in
        {| h2h := h2h markets;
           totals := totals markets;
           bothTeamsToScore :=
             Some {| yes := (int 1 / bttsProb) * margin;
                     no := (int 1 / (int 1 - bttsProb)) * margin |};
           correctScore := correctScore markets |}
    | Some _ => markets
    end in
  (* Generate Over/Under markets if missing *)
  let markets :=
    match Match.totals match_ with
    | Some _ => markets
    | None =>
        match Match.h2h match_ with
        | Some w =>
            let homeProb := int 1 / home w in
            let awayProb := int 1 / away w in
            let drawProb :=
              match draw w with
              | Some d => if truthy d then int 1 / d else dec 34 100
              | None => dec 34 100
              end in
            let attackRating := (homeProb + awayProb) / int 2 in
            let over25Prob :=
              dec 3 10 + (attackRating * dec 4 10) - (drawProb * dec 2 10) in
            let margin := dec 105 100 in
            {| h2h := h2h markets;
               totals :=
                 Some {| point := dec 25 10;
                         over := (int 1 / over25Prob) * margin;
                         under := (int 1 / (int 1 - over25Prob)) * margin |};
               bothTeamsToScore := bothTeamsToScore markets;
               correctScore := correctScore markets |}
        | None => markets
        end
    end in
  (* Generate correct score odds (common scores only) *)
  let markets :=
    match correctScore markets, Match.h2h match_ with
    | None, Some w =>
        let homeProb := int 1 / home w in
        let awayProb := int 1 / away w in
        let drawProb :=
          match draw w with
          | Some d => if truthy d then int 1 / d else dec 34 100
          | None => dec 34 100
          end in
        let commonScores := commonScores homeProb awayProb drawProb in
        let totalProb :=
          fold_left (fun sum s => sum + cs_prob s) commonScores (int 0) in
        let margin := dec 11 10 in
        {| h2h := h2h markets;
           totals := totals markets;
           bothTeamsToScore := bothTeamsToScore markets;
           correctScore :=
             Some {| scores :=
                       map (fun s =>
                              {| score := cs_score s;
                                 odds := (int 1 / (cs_prob s / totalProb)) * margin |})
                           commonScores |} |}
    | _, _ => markets
    end in
  markets.

(** The first statement of the over/under block of [oddsToProbabilities]
    ([if (markets.totals) { ... }]): the reweighting [map], before the
    renormalisation. *)
Definition adjustTotals (t : Totals num)
    (scoreProbabilities : list (ScoreProbability num))
  : list (ScoreProbability num) :=
  let overProb := int 1 / over t in
  let underProb := int 1 / under t in
  let totalProb := overProb + underProb in
  let normOver := overProb / totalProb in
  map (fun sp =>
         let totalGoals := home_score sp + away_score sp in
         if totalGoals >? point t then
           with_probability sp
             (probability sp * (dec 5 10 + normOver * dec 5 10))
         else if totalGoals <? point t then
           with_probability sp
             (probability sp * (dec 5 10 + (int 1 - normOver) * dec 5 10))
         else sp)
      scoreProbabilities.

(** The first statement of the both-teams-to-score block of
    [oddsToProbabilities] ([if (markets.bothTeamsToScore) { ... }]). *)
Definition adjustBTTS (b : BothTeamsToScore num)
    (scoreProbabilities : list (ScoreProbability num))
  : list (ScoreProbability num) :=
  let bttsYesProb := int 1 / yes b in
  let bttsNoProb := int 1 / no b in
  let totalBTTS := bttsYesProb + bttsNoProb in
  let normBTTSYes := bttsYesProb / totalBTTS in
  map (fun sp =>
         let bothScored :=
           (home_score sp >? int 0) && (away_score sp >? int 0) in
         if bothScored then
           with_probability sp
             (probability sp * (dec 5 10 + normBTTSYes * dec 5 10))
         else
           with_probability sp
             (probability sp * (dec 5 10 + (int 1 - normBTTSYes) * dec 5 10)))
      scoreProbabilities.

Definition oddsToProbabilities (markets : MatchMarkets num)
  : list (ScoreProbability num) :=
  let scoreProbabilities := [] in
  match h2h markets with
  | Some w =>
      let homeProb := int 1 / home w in
      let drawProb :=
        match draw w with
        | Some d => if truthy d then int 1 / d else int 0
        | None => int 0
        end in
      let awayProb := int 1 / away w in
      let total := homeProb + drawProb + awayProb in
      let normHome := homeProb / total in
      let normDraw := drawProb / total in
      let normAway := awayProb / total in
      let scoreProbabilities := pushScores normHome homeWinScores scoreProbabilities in
      let scoreProbabilities := pushScores normDraw drawScores scoreProbabilities in
      let scoreProbabilities := pushScores normAway awayWinScores scoreProbabilities in
      (* Adjust based on Over/Under if available *)
      let scoreProbabilities :=
        match totals markets with
        | Some t => renormalize (adjustTotals t scoreProbabilities)
        | None => scoreProbabilities
        end in
      (* Adjust based on Both Teams To Score if available *)
      let scoreProbabilities :=
        match bothTeamsToScore markets with
        | Some b => renormalize (adjustBTTS b scoreProbabilities)
        | None => scoreProbabilities
        end in
      scoreProbabilities
  | None => scoreProbabilities
  end.

End Engine.

(** ** Reference definitions, after the specification

    What the specification says the engine computes, over the reals.  These
    follow the words of the specification, not the code, and the theorems
    below compare the two; the one exception is the correct-score catalogue,
    which records the weights the code uses. *)

Section Reference.

Local Open Scope R_scope.

(** [impliedProbability(odds) = 1/odds] *)
Definition impliedProbability (odds : R) : R := 1 / odds.

(** [applyMargin(probability, marginFactor) = (1/probability) × marginFactor] *)
Definition applyMargin (p marginFactor : R) : R := (1 / p) * marginFactor.

(** A win market as the data model has it: home and away odds above 1, and
    draw odds, when there are any, above 1. *)
Definition valid_h2h (w : H2H R) : Prop :=
  1 < home w /\ 1 < away w /\
  match draw w with Some d => 1 < d | None => True end.

(** Decimal odds of a binary market: positive. *)
Definition valid_totals (t : Totals R) : Prop := 0 < over t /\ 0 < under t.

Definition valid_btts (b : BothTeamsToScore R) : Prop := 0 < yes b /\ 0 < no b.

Inductive OutcomeClass : Type := HomeWin | Draw | AwayWin.

(** The implied probability of an outcome class; [drawDefault] stands in
    when the market has no draw odds. *)
Definition impliedOf (drawDefault : R) (w : H2H R) (c : OutcomeClass) : R :=
  match c with
  | HomeWin => impliedProbability (home w)
  | Draw =>
      match draw w with
      | Some d => impliedProbability d
      | None => drawDefault
      end
  | AwayWin => impliedProbability (away w)
  end.

(** Step 1 of the distributor: the implied probabilities normalised to sum
    to 1 (a missing draw counts 0). *)
Definition normalizedOf (w : H2H R) (c : OutcomeClass) : R :=
  impliedOf 0 w c
  / (impliedOf 0 w HomeWin + impliedOf 0 w Draw + impliedOf 0 w AwayWin).

(** The catalogues of representative scorelines and their weights:
    [scoreline h a wt] is the scoreline [h-a] with weight [wt]. *)
Definition scoreline (h a : Z) (wt : R) : Z * Z * R := (h, a, wt).

Definition homeWinCatalogue : list (Z * Z * R) :=
  [ scoreline 1 0 0.35; scoreline 2 0 0.20; scoreline 2 1 0.18;
    scoreline 3 0 0.10; scoreline 3 1 0.10; scoreline 4 0 0.04;
    scoreline 3 2 0.03 ].

Definition drawCatalogue : list (Z * Z * R) :=
  [ scoreline 0 0 0.30; scoreline 1 1 0.40; scoreline 2 2 0.20;
    scoreline 3 3 0.10 ].

(** "Mirror of home-win with scores swapped". *)
Definition awayWinCatalogue : list (Z * Z * R) :=
  map (fun e => let '(h, a, wt) := e in (a, h, wt)) homeWinCatalogue.

(** "Each scoreline's probability = classNormalizedProbability ×
    catalogueWeight". *)
Definition distribute (mass : R) (catalogue : list (Z * Z * R))
  : list (ScoreProbability R) :=
  map (fun e =>
         let '(h, a, wt) := e in
         {| home_score := IZR h; away_score := IZR a;
            probability := mass * wt |})
      catalogue.

Definition baseDistribution (w : H2H R) : list (ScoreProbability R) :=
  distribute (normalizedOf w HomeWin) homeWinCatalogue
  ++ distribute (normalizedOf w Draw) drawCatalogue
  ++ distribute (normalizedOf w AwayWin) awayWinCatalogue.

(** The total probability of a score distribution. *)
Fixpoint totalProbability (l : list (ScoreProbability R)) : R :=
  match l with
  | [] => 0
  | sp :: l' => probability sp + totalProbability l'
  end.

(** A conditioning step scales every entry by a factor that may depend on
    the scoreline ([reweight]) and then divides by the new total
    ([rescale]).  Both keep the scoreline and write the new probability. *)
Definition reweight (factor : ScoreProbability R -> R)
    (l : list (ScoreProbability R)) : list (ScoreProbability R) :=
  map (fun sp =>
         {| home_score := home_score sp;
            away_score := away_score sp;
            probability := probability sp * factor sp |})
      l.

Definition rescale (l : list (ScoreProbability R))
  : list (ScoreProbability R) :=
  map (fun sp =>
         {| home_score := home_score sp;
            away_score := away_score sp;
            probability := probability sp / totalProbability l |})
      l.

Definition totalGoals (sp : ScoreProbability R) : R :=
  home_score sp + away_score sp.

(** The margin-normalised over probability. *)
Definition normOverOf (t : Totals R) : R :=
  impliedProbability (over t)
  / (impliedProbability (over t) + impliedProbability (under t)).

(** Step 2: "if its total goals exceed the totals point, multiply its
    probability by 0.5 + 0.5·normOver; if below, by 0.5 + 0.5·(1−normOver);
    if exactly equal to the point, leave unchanged". *)
Definition totalsFactor (t : Totals R) (sp : ScoreProbability R) : R :=
  if Rlt_dec (point t) (totalGoals sp) then 0.5 + 0.5 * normOverOf t
  else if Rlt_dec (totalGoals sp) (point t) then 0.5 + 0.5 * (1 - normOverOf t)
  else 1.

Definition conditionOnTotals (t : Totals R) (l : list (ScoreProbability R))
  : list (ScoreProbability R) :=
  rescale (reweight (totalsFactor t) l).

Definition normYesOf (b : BothTeamsToScore R) : R :=
  impliedProbability (yes b)
  / (impliedProbability (yes b) + impliedProbability (no b)).

(** Step 3: "where both home_score>0 and away_score>0, multiply probability
    by 0.5+0.5·normYes; otherwise by 0.5+0.5·(1−normYes)". *)
Definition bttsFactor (b : BothTeamsToScore R) (sp : ScoreProbability R) : R :=
  if Rlt_dec 0 (home_score sp) then
    if Rlt_dec 0 (away_score sp) then 0.5 + 0.5 * normYesOf b
    else 0.5 + 0.5 * (1 - normYesOf b)
  else 0.5 + 0.5 * (1 - normYesOf b).

Definition conditionOnBTTS (b : BothTeamsToScore R)
    (l : list (ScoreProbability R)) : list (ScoreProbability R) :=
  rescale (reweight (bttsFactor b) l).

(** The correct-score catalogue of the normaliser as the code weights it:
    fifteen scorelines carry one outcome class each; ["3-2"] carries the
    home and the away class together. *)
Inductive ScoreSource : Type :=
| OneClass (c : OutcomeClass)
| HomePlusAway.

Definition priced (label : string) (s : ScoreSource) (wt : R)
  : string * ScoreSource * R := (label, s, wt).

Definition correctScoreCatalogue : list (string * ScoreSource * R) :=
  [ priced "0-0" (OneClass Draw) 0.2;     priced "1-0" (OneClass HomeWin) 0.15;
    priced "0-1" (OneClass AwayWin) 0.15; priced "1-1" (OneClass Draw) 0.3;
    priced "2-0" (OneClass HomeWin) 0.12; priced "0-2" (OneClass AwayWin) 0.12;
    priced "2-1" (OneClass HomeWin) 0.18; priced "1-2" (OneClass AwayWin) 0.18;
    priced "2-2" (OneClass Draw) 0.2;     priced "3-0" (OneClass HomeWin) 0.08;
    priced "0-3" (OneClass AwayWin) 0.08; priced "3-1" (OneClass HomeWin) 0.1;
    priced "1-3" (OneClass AwayWin) 0.1;  priced "3-2" HomePlusAway 0.05;
    priced "4-0" (OneClass HomeWin) 0.03; priced "0-4" (OneClass AwayWin) 0.03 ].

Definition sourceProbability (w : H2H R) (s : ScoreSource) : R :=
  match s with
  | OneClass c => impliedOf 0.34 w c
  | HomePlusAway => impliedOf 0.34 w HomeWin + impliedOf 0.34 w AwayWin
  end.

(** The pre-normalisation probability of each catalogued scoreline. *)
Definition preNormalization (w : H2H R) : list (string * R) :=
  map (fun e => let '(label, s, wt) := e in (label, sourceProbability w s * wt))
      correctScoreCatalogue.

Definition sumR (l : list R) : R := fold_right Rplus 0 l.

(** The pre-normalisation probability the code gives a scoreline label of
    [commonScores], if it is catalogued. *)
Definition preNormalizationOf (w : H2H R) (label : string) : option R :=
  let homeProb := 1 / home w in
  let awayProb := 1 / away w in
  let drawProb :=
    match draw w with
    | Some d => if R_truthy d then 1 / d else 0.34
    | None => 0.34
    end in
  option_map (@cs_prob R)
    (find (fun s => String.eqb (cs_score s) label)
          (commonScores homeProb awayProb drawProb)).

(** The claim that a scoreline is priced from a single outcome class with a
    fixed weight: one class and one weight serve every win market. *)
Definition singleClassTimesWeight (label : string) : Prop :=
  exists (c : OutcomeClass) (wt : R),
    forall w : H2H R, valid_h2h w ->
      preNormalizationOf w label = Some (impliedOf 0.34 w c * wt).

(** Scores and probabilities of the four entries that follow the seven
    home-win entries. *)
Definition drawEntries (l : list (ScoreProbability R)) : list (R * R * R) :=
  map (fun sp => (home_score sp, away_score sp, probability sp))
      (firstn 4 (skipn 7 l)).

(** The draw catalogue with no mass on it. *)
Definition zeroDraws : list (R * R * R) :=
  [ (0, 0, 0); (1, 1, 0); (2, 2, 0); (3, 3, 0) ].

End Reference.

(** ** Sample markets *)

Section Samples.

Local Open Scope R_scope.

(** The win market of the specification's worked scenario. *)
Definition h2h_2_3_4 : H2H R := {| home := 2; draw := Some 3; away := 4 |}.

Definition h2h_2_4 : H2H R := {| home := 2; draw := None; away := 4 |}.

Definition h2h_2_4_4 : H2H R := {| home := 2; draw := Some 4; away := 4 |}.

Definition h2h_4_4_2 : H2H R := {| home := 4; draw := Some 4; away := 2 |}.

Definition h2h_2_2_4 : H2H R := {| home := 2; draw := Some 2; away := 4 |}.

(** An argument of [generateMissingMarkets] with only a win market. *)
Definition matchOf (w : H2H R) : Match.t R :=
  {| Match.h2h := Some w; Match.totals := None |}.

Definition winOnly (w : H2H R) : MatchMarkets R :=
  {| h2h := Some w; totals := None;
     bothTeamsToScore := None; correctScore := None |}.

Definition winAndTotals (w : H2H R) (t : Totals R) : MatchMarkets R :=
  {| h2h := Some w; totals := Some t;
     bothTeamsToScore := None; correctScore := None |}.

(** Balanced over/under odds at an integer point. *)
Definition neutral_at_2 : Totals R := {| point := 2; over := 2; under := 2 |}.

(** Balanced over/under odds at point 6, the total goals of 3-3 alone. *)
Definition neutral_at_6 : Totals R := {| point := 6; over := 2; under := 2 |}.

(** Balanced over/under odds at the usual half-integer point. *)
Definition neutral_at_2_5 : Totals R := {| point := 2.5; over := 1.9; under := 1.9 |}.

Definition totals_2_5 : Totals R := {| point := 2.5; over := 1.5; under := 2 |}.

End Samples.

Section FloatSamples.

Local Open Scope float_scope.

Definition f_h2h_2_3_4 : H2H float := {| home := 2; draw := Some 3; away := 4 |}.

Definition f_totals_2_5 : Totals float := {| point := 2.5; over := 1.5; under := 2 |}.

Definition f_winAndTotals (w : H2H float) (t : Totals float) : MatchMarkets float :=
  {| h2h := Some w; totals := Some t;
     bothTeamsToScore := None; correctScore := None |}.

(** A zero-sum probability list: the two draws 0-0 and 1-1, each with
    probability 0. *)
Definition f_zero_sum : list (ScoreProbability float) :=
  [ {| home_score := 0; away_score := 0; probability := 0 |};
    {| home_score := 1; away_score := 1; probability := 0 |} ].

(** Odds outside the data model: a two-way market with an over price of 1
    and a negative under price at point 0, for which every reweighted entry
    is 0. *)
Definition f_h2h_2_2 : H2H float := {| home := 2; draw := None; away := 2 |}.

Definition f_totals_zero_sum : Totals float :=
  {| point := 0; over := 1; under := -0.5 |}.

(** Balanced over/under odds at an integer point. *)
Definition f_neutral_at_2 : Totals float := {| point := 2; over := 2; under := 2 |}.

(** The win market of the specification's synthesis scenario. *)
Definition f_h2h_180_340_450 : H2H float :=
  {| home := 1.8; draw := Some 3.4; away := 4.5 |}.

Definition f_winOnly (w : H2H float) : MatchMarkets float :=
  {| h2h := Some w; totals := None;
     bothTeamsToScore := None; correctScore := None |}.

End FloatSamples.

(** ** Further reference definitions *)

Section Scorelines.

Context {num : Type} `{JSNumber num}.

(** The scorelines of a distribution, in order. *)
Definition scoresOf (l : list (ScoreProbability num)) : list (num * num) :=
  map (fun sp => (home_score sp, away_score sp)) l.

(** The 18 scorelines of the three tables, in insertion order. *)
Definition catalogueScores : list (num * num) :=
  map (fun s => (w_home s, w_away s))
      (homeWinScores ++ drawScores ++ awayWinScores).

(** [sp.home_score > 0 && sp.away_score > 0] *)
Definition bothScored (sp : ScoreProbability num) : bool :=
  js_gt (home_score sp) (int 0) && js_gt (away_score sp) (int 0).

(** [sp.home_score + sp.away_score > point] *)
Definition abovePoint (p : num) (sp : ScoreProbability num) : bool :=
  js_gt (js_add (home_score sp) (away_score sp)) p.

End Scorelines.

Section Masses.

Local Open Scope R_scope.

(** The probability a distribution gives to the scorelines selected by
    [p]. *)
Definition massWhere (p : ScoreProbability R -> bool)
    (l : list (ScoreProbability R)) : R :=
  totalProbability (filter p l).

(** The heuristic both-teams-to-score probability of the normaliser for a
    win market, or for none. *)
Definition bttsProbabilityOf (w : option (H2H R)) : R :=
  let homeImpliedProb :=
    match w with Some w => impliedProbability (home w) | None => 0.33 end in
  let awayImpliedProb :=
    match w with Some w => impliedProbability (away w) | None => 0.33 end in
  let balance :=
    Rmin homeImpliedProb awayImpliedProb / Rmax homeImpliedProb awayImpliedProb in
  0.4 + 0.3 * balance + 0.2 * ((homeImpliedProb + awayImpliedProb) / 2).

(** The heuristic over-2.5 probability of the normaliser. *)
Definition over25ProbabilityOf (w : H2H R) : R :=
  let attackRating := (impliedOf 0.34 w HomeWin + impliedOf 0.34 w AwayWin) / 2 in
  0.3 + 0.4 * attackRating - 0.2 * impliedOf 0.34 w Draw.

Definition valid_h2h_opt (w : option (H2H R)) : Prop :=
  match w with Some w => valid_h2h w | None => True end.

Definition valid_totals_opt (t : option (Totals R)) : Prop :=
  match t with Some t => valid_totals t | None => True end.

Definition valid_btts_opt (b : option (BothTeamsToScore R)) : Prop :=
  match b with Some b => valid_btts b | None => True end.

Definition markets (w : H2H R) (t : option (Totals R))
    (b : option (BothTeamsToScore R)) : MatchMarkets R :=
  {| h2h := Some w; totals := t; bothTeamsToScore := b; correctScore := None |}.

(** Sample both-teams-to-score odds. *)
Definition btts_yes_favoured : BothTeamsToScore R := {| yes := 1.6; no := 2.3 |}.

Definition btts_neutral : BothTeamsToScore R := {| yes := 1.9; no := 1.9 |}.

Definition totals_over_favoured : Totals R :=
  {| point := 2.5; over := 1.6; under := 2.3 |}.

(** A totals market at point 0. *)
Definition totals_at_0 : Totals R :=
  {| point := 0; over := 1.5; under := 2 |}.

End Masses.

(** ** The market translator ([marketGenerator], continued) *)

Section Translator.

Local Open Scope string_scope.

(** What [names[marketType] || marketType] evaluates to.  [names] is an
    object literal, so besides its four own keys a lookup also finds the
    members every object inherits from [Object.prototype]; those are
    functions or objects, not strings, and being truthy they are what the
    function returns for such a key. *)
Inductive DisplayName : Type :=
| Name (s : string)
| InheritedMember (key : string).

Definition names : list (string * string) :=
  [ ("1X2", "1X2");
    ("over_under", "Over/Under");
    ("both_teams_to_score", "Both Teams To Score");
    ("correct_score", "Correct Score") ].

Definition Object_prototype_keys : list string :=
  [ "constructor"; "hasOwnProperty"; "isPrototypeOf"; "propertyIsEnumerable";
    "toLocaleString"; "toString"; "valueOf"; "__proto__";
    "__defineGetter__"; "__defineSetter__"; "__lookupGetter__";
    "__lookupSetter__" ].

(** An own property of an object literal. *)
Fixpoint own (o : list (string * string)) (key : string) : option string :=
  match o with
  | [] => None
  | (k, v) :: o' => if String.eqb k key then Some v else own o' key
  end.

Definition getMarketDisplayName (marketType : string) : DisplayName :=
  match own names marketType with
  | Some v => if String.eqb v EmptyString then Name marketType else Name v
  | None =>
      if existsb (String.eqb marketType) Object_prototype_keys
      then InheritedMember marketType
      else Name marketType
  end.

(** The object [{ market, outcome }] returned by [convertMarketToAPI]. *)
Record APIMarket : Type := {
  market : string;
  outcome : string
}.

Context {num : Type}.

(** [Number::toString], as applied when a number is interpolated into a
    template literal. *)
Variable Number_toString : num -> string.

(** An optional number inside a template literal: [undefined] prints as
    ["undefined"]. *)
Definition interpolate (x : option num) : string :=
  match x with
  | Some v => Number_toString v
  | None => "undefined"
  end.

Definition convertMarketToAPI (market_ side : string) (point : option num)
  : APIMarket :=
  if String.eqb market_ "h2h" then
    {| market := "1X2";
       outcome := if String.eqb side "home" then "1"
                  else if String.eqb side "draw" then "X" else "2" |}
  else if String.eqb market_ "totals" then
    {| market := "over_under";
       outcome := side ++ "_" ++ interpolate point |}
  else if String.eqb market_ "btts" then
    {| market := "both_teams_to_score";
       outcome := if String.eqb side "yes" then "yes" else "no" |}
  else if String.eqb market_ "correct_score" then
    {| market := "correct_score"; outcome := side |}
  else {| market := market_; outcome := side |}.

End Translator.

(** ** The bet slip ([App]) *)

(** ['h2h' | 'spreads' | 'totals'] *)
Module Market.

Inductive t : Type := h2h | spreads | totals.

Definition to_string (m : t) : string :=
  match m with
  | h2h => "h2h"
  | spreads => "spreads"
  | totals => "totals"
  end.

End Market.

(** ['home' | 'away' | 'draw' | 'over' | 'under'] *)
Module Side.

Inductive t : Type := home | away | draw | over | under.

Definition to_string (s : t) : string :=
  match s with
  | home => "home"
  | away => "away"
  | draw => "draw"
  | over => "over"
  | under => "under"
  end.

End Side.

Module Selection.

Record t (num : Type) : Type := {
  id : string;
  matchId : string;
  match_ : string;
  selection : string;
  odds : num;
  market : Market.t;
  side : Side.t;
  point : option num
}.

End Selection.

Module PendingBet.

Record t (num : Type) : Type := {
  id : string;
  selections : list (Selection.t num);
  stake : num;
  potentialWin : num;
  (** the time value of [new Date()] *)
  placedAt : num
}.

End PendingBet.

(** [SpreadOdds] of [App]. *)
Module SpreadOdds.

Record t (num : Type) : Type := {
  point : num;
  home : num;
  away : num
}.

End SpreadOdds.

(** [Match] of [App]; its [MarketOdds] and [TotalsOdds] have the shapes of
    [H2H] and [Totals]. *)
Module AppMatch.

Record t (num : Type) : Type := {
  id : string;
  league : string;
  homeTeam : string;
  awayTeam : string;
  time : string;
  h2h : option (H2H num);
  spread : option (SpreadOdds.t num);
  totals : option (Totals num)
}.

End AppMatch.

(** The shape of the odds provider's events, as [fetchOdds] reads them. *)
Module Outcome.

Record t (num : Type) : Type := {
  name : string;
  price : option num;
  point : option num
}.

End Outcome.

Module OddsMarket.

Record t (num : Type) : Type := {
  key : string;
  outcomes : option (list (Outcome.t num))
}.

End OddsMarket.

Module Bookmaker.

Record t (num : Type) : Type := {
  key : string;
  title : string;
  markets : option (list (OddsMarket.t num))
}.

End Bookmaker.

Module OddsEvent.

Record t (num : Type) : Type := {
  id : string;
  sport_title : string;
  home_team : string;
  away_team : string;
  commence_time : string;
  bookmakers : option (list (Bookmaker.t num))
}.

End OddsEvent.

Section OddsAdapter.

Context {num : Type} `{JSNumber num}.

Local Open Scope string_scope.

(** [markets.find(m => m.key === key)] *)
Definition findMarket (key : string) (markets : list (OddsMarket.t num))
  : option (OddsMarket.t num) :=
  find (fun m => String.eqb (OddsMarket.key m) key) markets.

(** [outcomes?.find(o => o.name === name)] *)
Definition findOutcome (name : string)
    (outcomes : option (list (Outcome.t num))) : option (Outcome.t num) :=
  match outcomes with
  | Some os => find (fun o => String.eqb (Outcome.name o) name) os
  | None => None
  end.

(** [outcomes?.length >= 2] *)
Definition atLeastTwo (outcomes : option (list (Outcome.t num))) : bool :=
  match outcomes with
  | Some os => Nat.leb 2 (List.length os)
  | None => false
  end.

(** [outcomes[0]?.point !== undefined] *)
Definition firstPointDefined (outcomes : option (list (Outcome.t num)))
  : bool :=
  match outcomes with
  | Some (o :: _) =>
      match Outcome.point o with Some _ => true | None => false end
  | _ => false
  end.

(** The score that the loop of [selectBestBookmaker] gives a bookmaker. *)
Definition bookmakerScore (bookmaker : Bookmaker.t num) : Z :=
  let score := 0%Z in
  let markets :=
    match Bookmaker.markets bookmaker with Some ms => ms | None => [] end in
  let h2h := findMarket "h2h" markets in
  let spreads := findMarket "spreads" markets in
  let totals := findMarket "totals" markets in
  let score :=
    match h2h with
    | Some m => if atLeastTwo (OddsMarket.outcomes m) then (score + 1)%Z else score
    | None => score
    end in
  let score :=
    match spreads with
    | Some m =>
        if atLeastTwo (OddsMarket.outcomes m)
           && firstPointDefined (OddsMarket.outcomes m)
        then (score + 1)%Z else score
    | None => score
    end in
  let score :=
    match totals with
    | Some m =>
        if atLeastTwo (OddsMarket.outcomes m)
           && firstPointDefined (OddsMarket.outcomes m)
        then (score + 1)%Z else score
    | None => score
    end in
  score.

(** [selectBestBookmaker]: [None] is [null]. *)
Definition selectBestBookmaker (bookmakers : list (Bookmaker.t num))
  : option (Bookmaker.t num) :=
  fst (fold_left
         (fun best bookmaker =>
            let '(bestBookmaker, bestScore) := best in
            let score := bookmakerScore bookmaker in
            if Z.gtb score bestScore then (Some bookmaker, score)
            else (bestBookmaker, bestScore))
         bookmakers (None, (-1)%Z)).

(** What the loop of [selectBestBookmaker] holds after a prefix of the
    list. *)
Definition bestSoFar (prefix : list (Bookmaker.t num))
    (best : option (Bookmaker.t num) * Z) : Prop :=
  match fst best with
  | None => prefix = [] /\ snd best = (-1)%Z
  | Some b =>
      snd best = bookmakerScore b
      /\ exists before after,
           prefix = (before ++ b :: after)%list
           /\ Forall (fun x => (bookmakerScore x < bookmakerScore b)%Z) before
           /\ Forall (fun x => (bookmakerScore x <= bookmakerScore b)%Z) after
  end.

(** [price || 2.0] *)
Definition priceOr2 (price : option num) : num :=
  match price with
  | Some p => if truthy p then p else int 2
  | None => int 2
  end.

(** The function that [fetchOdds] maps over the provider's events.
    [formatTime] is the locale formatting of the commence time. *)
Definition transformEvent (formatTime : string -> string)
    (event : OddsEvent.t num) : AppMatch.t num :=
  let bookmaker :=
    selectBestBookmaker
      match OddsEvent.bookmakers event with Some bs => bs | None => [] end in
  let marketsOfBest :=
    match bookmaker with
    | Some b => Bookmaker.markets b
    | None => None
    end in
  let findBest key :=
    match marketsOfBest with
    | Some ms => findMarket key ms
    | None => None
    end in
  let h2hMarket := findBest "h2h" in
  let spreadsMarket := findBest "spreads" in
  let totalsMarket := findBest "totals" in
  let timeStr := formatTime (OddsEvent.commence_time event) in
  let match_h2h :=
    match h2hMarket with
    | Some m =>
        let homeOutcome :=
          findOutcome (OddsEvent.home_team event) (OddsMarket.outcomes m) in
        let awayOutcome :=
          findOutcome (OddsEvent.away_team event) (OddsMarket.outcomes m) in
        let drawOutcome := findOutcome "Draw" (OddsMarket.outcomes m) in
        match homeOutcome, awayOutcome with
        | Some ho, Some ao =>
            Some {| home := priceOr2 (Outcome.price ho);
                    draw := match drawOutcome with
                            | Some dr => Outcome.price dr
                            | None => None
                            end;
                    away := priceOr2 (Outcome.price ao) |}
        | _, _ => None
        end
    | None => None
    end in
  let match_spread :=
    match spreadsMarket with
    | Some m =>
        if atLeastTwo (OddsMarket.outcomes m) then
          let homeOutcome :=
            findOutcome (OddsEvent.home_team event) (OddsMarket.outcomes m) in
          let awayOutcome :=
            findOutcome (OddsEvent.away_team event) (OddsMarket.outcomes m) in
          match homeOutcome, awayOutcome with
          | Some ho, Some ao =>
              match Outcome.point ho with
              | Some pt =>
                  Some {| SpreadOdds.point := pt;
                          SpreadOdds.home := priceOr2 (Outcome.price ho);
                          SpreadOdds.away := priceOr2 (Outcome.price ao) |}
              | None => None
              end
          | _, _ => None
          end
        else None
    | None => None
    end in
  let match_totals :=
    match totalsMarket with
    | Some m =>
        if atLeastTwo (OddsMarket.outcomes m) then
          let overOutcome := findOutcome "Over" (OddsMarket.outcomes m) in
          let underOutcome := findOutcome "Under" (OddsMarket.outcomes m) in
          match overOutcome, underOutcome with
          | Some oo, Some uo =>
              match Outcome.point oo with
              | Some pt =>
                  Some {| point := pt;
                          over := priceOr2 (Outcome.price oo);
                          under := priceOr2 (Outcome.price uo) |}
              | None => None
              end
          | _, _ => None
          end
        else None
    | None => None
    end in
  {| AppMatch.id := OddsEvent.id event;
     AppMatch.league := OddsEvent.sport_title event;
     AppMatch.homeTeam := OddsEvent.home_team event;
     AppMatch.awayTeam := OddsEvent.away_team event;
     AppMatch.time := timeStr;
     AppMatch.h2h := match_h2h;
     AppMatch.spread := match_spread;
     AppMatch.totals := match_totals |}.





(** The score distribution that [runSimulation] computes for a match of the
    slip; [None] when the match has no win market and is skipped. *)
Definition scoreProbabilitiesOf (match_ : AppMatch.t num)
  : option (list (ScoreProbability num)) :=
  match AppMatch.h2h match_ with
  | None => None
  | Some w =>
      Some (oddsToScoreProbabilitiesWithTotals
              (home w) (draw w) (away w)
              (option_map (@point num) (AppMatch.totals match_))
              (option_map (@over num) (AppMatch.totals match_))
              (option_map (@under num) (AppMatch.totals match_)))
  end.



End OddsAdapter.

(** Comparisons and negation on numbers, as the bet slip uses them. *)
Class JSCompare (num : Type) : Type := {
  (** [a <= b] *)
  js_le : num -> num -> bool;
  (** [a >= b] *)
  js_ge : num -> num -> bool;
  (** [-a] *)
  js_neg : num -> num
}.

#[export] Instance Float_JSCompare : JSCompare float := {
  js_le := PrimFloat.leb;
  js_ge := fun a b => PrimFloat.leb b a;
  js_neg := PrimFloat.opp
}.

Definition R_le (a b : R) : bool := if Rle_dec a b then true else false.

#[export] Instance R_JSCompare : JSCompare R := {
  js_le := R_le;
  js_ge := fun a b => R_le b a;
  js_neg := Ropp
}.

(** The state of [App] that the bet-slip handlers read and set. *)
Record AppState (num : Type) : Type := {
  balance : num;
  betSlip : list (Selection.t num);
  stake : num;
  pendingBets : list (PendingBet.t num);
  isSimulating : bool
}.

Section BetSlip.

Context {num : Type} `{JSNumber num} `{JSCompare num}.

Local Open Scope string_scope.

Variable Number_toString : num -> string.

(** [x.toFixed(1)] *)
Variable Number_toFixed1 : num -> string.

(** The selection text of [addToBetSlip]; [None] stands for the [TypeError]
    of [undefined.toFixed]. *)
Definition selectionText (match_ : AppMatch.t num) (market : Market.t)
    (side : Side.t) (point : option num) : option string :=
  match market with
  | Market.h2h =>
      Some match side with
           | Side.home => AppMatch.homeTeam match_
           | Side.draw => "Draw"
           | _ => AppMatch.awayTeam match_
           end
  | Market.spreads =>
      let team :=
        match side with
        | Side.home => AppMatch.homeTeam match_
        | _ => AppMatch.awayTeam match_
        end in
      match side, point with
      | Side.home, None =>
          (* displayPoint is undefined *)
          None
      | Side.home, Some p =>
          let sign := if js_ge p (int 0) then "+" else EmptyString in
          Some (team ++ " " ++ sign ++ Number_toFixed1 p)
      | _, None =>
          (* -undefined is NaN: NaN >= 0 is false, NaN.toFixed(1) is "NaN" *)
          Some (team ++ " " ++ EmptyString ++ "NaN")
      | _, Some p =>
          let displayPoint := js_neg p in
          let sign := if js_ge displayPoint (int 0) then "+" else EmptyString in
          Some (team ++ " " ++ sign ++ Number_toFixed1 displayPoint)
      end
  | Market.totals =>
      Some (match side with Side.over => "Over" | _ => "Under" end
            ++ " " ++ interpolate Number_toString point)
  end.

(** [`${match.id}-${market}-${side}-${point || 0}`] *)
Definition selectionId (match_ : AppMatch.t num) (market : Market.t)
    (side : Side.t) (point : option num) : string :=
  AppMatch.id match_ ++ "-" ++ Market.to_string market ++ "-"
  ++ Side.to_string side ++ "-"
  ++ match point with
     | Some p => if truthy p then Number_toString p
                 else Number_toString (int 0)
     | None => Number_toString (int 0)
     end.

(** [addToBetSlip]: the bet slip it sets, or [None] when it throws before
    setting anything. *)
Definition addToBetSlip (betSlip : list (Selection.t num))
    (match_ : AppMatch.t num) (market : Market.t) (side : Side.t)
    (odds : num) (point : option num) : option (list (Selection.t num)) :=
  match selectionText match_ market side point with
  | None => None
  | Some selectionText =>
      let newSelection :=
        {| Selection.id := selectionId match_ market side point;
           Selection.matchId := AppMatch.id match_;
           Selection.match_ :=
             AppMatch.homeTeam match_ ++ " vs " ++ AppMatch.awayTeam match_;
           Selection.selection := selectionText;
           Selection.odds := odds;
           Selection.market := market;
           Selection.side := side;
           Selection.point := point |} in
      let exists_ :=
        find (fun s => String.eqb (Selection.id s) (Selection.id newSelection))
             betSlip in
      match exists_ with
      | None => Some (betSlip ++ [newSelection])%list
      | Some _ => Some betSlip
      end
  end.

Definition removeFromBetSlip (betSlip : list (Selection.t num)) (id : string)
  : list (Selection.t num) :=
  filter (fun s => negb (String.eqb (Selection.id s) id)) betSlip.

Definition calculateTotalOdds (betSlip : list (Selection.t num)) : num :=
  if Nat.eqb (List.length betSlip) 0 then int 0
  else fold_left (fun acc sel => js_mul acc (Selection.odds sel)) betSlip (int 1).

Definition calculatePotentialWin (stake : num)
    (betSlip : list (Selection.t num)) : num :=
  js_mul stake (calculateTotalOdds betSlip).

(** The translation of one selection inside [runSimulation], before it is
    pushed onto [betSlipData]. *)
Definition translateSelection (sel : Selection.t num) : APIMarket :=
  let market0 := Market.to_string (Selection.market sel) in
  let outcome0 := Side.to_string (Selection.side sel) in
  if String.eqb market0 "h2h" then
    {| market := "1X2";
       outcome :=
         if String.eqb (Side.to_string (Selection.side sel)) "home" then "1"
         else if String.eqb (Side.to_string (Selection.side sel)) "draw" then "X"
         else if String.eqb (Side.to_string (Selection.side sel)) "away" then "2"
         else outcome0 |}
  else if String.eqb market0 "totals" then
    {| market := "over_under";
       outcome := Side.to_string (Selection.side sel) ++ "_"
                  ++ interpolate Number_toString (Selection.point sel) |}
  else {| market := market0; outcome := outcome0 |}.

(** [runSimulation] in real mode ([isSimMode] false): the state after the
    handler has run.  [nowId] is [Date.now().toString()] and [placedAt] the
    time value of [new Date()]; the [alert] is not modelled. *)
Definition runSimulation_realMode (s : AppState num)
    (nowId : string) (placedAt : num) : AppState num :=
  if Nat.eqb (List.length (betSlip s)) 0 || js_le (stake s) (int 0) then s
  else
    let newBet :=
      {| PendingBet.id := nowId;
         PendingBet.selections := betSlip s;
         PendingBet.stake := stake s;
         PendingBet.potentialWin := calculatePotentialWin (stake s) (betSlip s);
         PendingBet.placedAt := placedAt |} in
    {| balance := js_sub (balance s) (stake s);
       betSlip := [];
       stake := stake s;
       pendingBets := (pendingBets s ++ [newBet])%list;
       isSimulating := false |}.

(** [settleBet]; the [alert]s are not modelled. *)
Definition settleBet (s : AppState num) (betId : string) (won : bool)
  : AppState num :=
  match find (fun b => String.eqb (PendingBet.id b) betId) (pendingBets s) with
  | None => s
  | Some bet =>
      {| balance := if won then js_add (balance s) (PendingBet.potentialWin bet)
                    else balance s;
         betSlip := betSlip s;
         stake := stake s;
         pendingBets :=
           filter (fun b => negb (String.eqb (PendingBet.id b) betId))
                  (pendingBets s);
         isSimulating := isSimulating s |}
  end.

End BetSlip.

Section BetSlipSamples.

Local Open Scope R_scope.
Local Open Scope string_scope.

Definition sel_home_win : Selection.t R :=
  {| Selection.id := "m1-h2h-home-0";
     Selection.matchId := "m1";
     Selection.match_ := "A vs B";
     Selection.selection := "A";
     Selection.odds := 2;
     Selection.market := Market.h2h;
     Selection.side := Side.home;
     Selection.point := None |}.

Definition sel_over : Selection.t R :=
  {| Selection.id := "m2-totals-over-2.5";
     Selection.matchId := "m2";
     Selection.match_ := "C vs D";
     Selection.selection := "Over 2.5";
     Selection.odds := 1.9;
     Selection.market := Market.totals;
     Selection.side := Side.over;
     Selection.point := Some 2.5 |}.

Definition state_with_slip : AppState R :=
  {| balance := 50000;
     betSlip := [sel_home_win; sel_over];
     stake := 100;
     pendingBets := [];
     isSimulating := false |}.

(** Two pending bets placed in the same millisecond: [Date.now().toString()]
    gives both the same id. *)
Definition twin_id : string := "1700000000000".

Definition twin_first : PendingBet.t R :=
  {| PendingBet.id := twin_id;
     PendingBet.selections := [sel_home_win];
     PendingBet.stake := 100;
     PendingBet.potentialWin := 200;
     PendingBet.placedAt := 1700000000000 |}.

Definition twin_second : PendingBet.t R :=
  {| PendingBet.id := twin_id;
     PendingBet.selections := [sel_over];
     PendingBet.stake := 50;
     PendingBet.potentialWin := 95;
     PendingBet.placedAt := 1700000000000 |}.

Definition state_with_twins : AppState R :=
  {| balance := 1000;
     betSlip := [];
     stake := 100;
     pendingBets := [twin_first; twin_second];
     isSimulating := false |}.

End BetSlipSamples.

Section AdapterPredicates.

Local Open Scope R_scope.

(** Every price the provider quotes for the event is above 1. *)
Definition pricedAbove1 (event : OddsEvent.t R) : Prop :=
  forall bs b ms m os o p,
    OddsEvent.bookmakers event = Some bs -> In b bs ->
    Bookmaker.markets b = Some ms -> In m ms ->
    OddsMarket.outcomes m = Some os -> In o os ->
    Outcome.price o = Some p ->
    1 < p.

Local Open Scope string_scope.

(** An event with one bookmaker quoting a three-way and a totals market. *)
Definition event_with_two_markets : OddsEvent.t R :=
  {| OddsEvent.id := "e2";
     OddsEvent.sport_title := "EPL";
     OddsEvent.home_team := "A";
     OddsEvent.away_team := "B";
     OddsEvent.commence_time := "2025-01-01T12:00:00Z";
     OddsEvent.bookmakers :=
       Some
         [ {| Bookmaker.key := "bk";
              Bookmaker.title := "Bk";
              Bookmaker.markets :=
                Some
                  [ {| OddsMarket.key := "h2h";
                       OddsMarket.outcomes :=
                         Some
                           [ {| Outcome.name := "A"; Outcome.price := Some 2%R;
                                Outcome.point := None |};
                             {| Outcome.name := "B"; Outcome.price := Some 3.5%R;
                                Outcome.point := None |};
                             {| Outcome.name := "Draw"; Outcome.price := Some 3.4%R;
                                Outcome.point := None |} ] |};
                    {| OddsMarket.key := "totals";
                       OddsMarket.outcomes :=
                         Some
                           [ {| Outcome.name := "Over"; Outcome.price := Some 1.9%R;
                                Outcome.point := Some 2.5%R |};
                             {| Outcome.name := "Under"; Outcome.price := Some 1.9%R;
                                Outcome.point := Some 2.5%R |} ] |} ] |} ] |}.

End AdapterPredicates.

Section AdapterSamples.

Local Open Scope float_scope.
Local Open Scope string_scope.




End AdapterSamples.

(** ** The real-number instance *)

(** Unfold the interface at the real-number instance. *)
Ltac js_R :=
  cbn [int js_add js_sub js_mul js_div js_lt truthy Math_min Math_max
       R_JSNumber] in *;
  unfold dec, js_gt in *;
  cbn [int js_add js_sub js_mul js_div js_lt truthy Math_min Math_max
       R_JSNumber] in *.

Section RealFacts.

Local Open Scope R_scope.

Lemma R_truthy_nonzero (x : R) : x <> 0 -> R_truthy x = true.
Proof.
  intro Hx. unfold R_truthy. destruct (Req_dec_T x 0); [contradiction | reflexivity].
Qed.

(** [reduce] accumulates from the left; the total does not depend on it. *)
Lemma fold_sum_total (l : list (ScoreProbability R)) (a : R) :
  fold_left (fun sum sp => js_add sum (probability sp)) l a
  = a + totalProbability l.
Proof.
  revert a. induction l as [| sp l IH]; intro a; cbn [fold_left totalProbability].
  - lra.
  - rewrite IH. js_R. lra.
Qed.

Lemma sumProbability_total (l : list (ScoreProbability R)) :
  sumProbability l = totalProbability l.
Proof.
  unfold sumProbability. rewrite fold_sum_total. js_R. lra.
Qed.

Lemma totalProbability_app (l1 l2 : list (ScoreProbability R)) :
  totalProbability (l1 ++ l2) = totalProbability l1 + totalProbability l2.
Proof.
  induction l1 as [| sp l1 IH]; cbn [app totalProbability]; [lra | rewrite IH; lra].
Qed.

(** The object spread [{ ...sp, probability: p }] of the code keeps the
    scoreline and writes the probability, as the reference steps do. *)
Lemma reweight_spread f (l : list (ScoreProbability R)) :
  reweight f l
  = map (fun sp => with_probability sp (probability sp * f sp)) l.
Proof. reflexivity. Qed.

Lemma rescale_spread (l : list (ScoreProbability R)) :
  rescale l
  = map (fun sp => with_probability sp (probability sp / totalProbability l)) l.
Proof. reflexivity. Qed.

Lemma renormalize_rescale (l : list (ScoreProbability R)) :
  renormalize l = rescale l.
Proof.
  unfold renormalize, rescale. rewrite sumProbability_total. reflexivity.
Qed.

(** Dividing every entry by [s] divides the total by [s]. *)
Lemma totalProbability_divide (s : R) (l : list (ScoreProbability R)) :
  totalProbability
    (map (fun sp => with_probability sp (probability sp / s)) l)
  = totalProbability l / s.
Proof.
  induction l as [| sp l IH]; cbn [map totalProbability with_probability probability].
  - unfold Rdiv. lra.
  - rewrite IH. unfold Rdiv. lra.
Qed.

Lemma totalProbability_rescale (l : list (ScoreProbability R)) :
  totalProbability l <> 0 -> totalProbability (rescale l) = 1.
Proof.
  intro Hs. rewrite rescale_spread, totalProbability_divide. now field.
Qed.

Lemma length_rescale (l : list (ScoreProbability R)) :
  List.length (rescale l) = List.length l.
Proof. unfold rescale. apply length_map. Qed.

Lemma length_reweight f (l : list (ScoreProbability R)) :
  List.length (reweight f l) = List.length l.
Proof. unfold reweight. apply length_map. Qed.

(** Reweighting by factors of at least [c] keeps at least the fraction [c]
    of the total. *)
Lemma totalProbability_reweight_ge (c : R) f (l : list (ScoreProbability R)) :
  0 <= c ->
  (forall sp, c <= f sp) ->
  Forall (fun sp => 0 <= probability sp) l ->
  c * totalProbability l <= totalProbability (reweight f l).
Proof.
  intros Hc Hf Hl. induction Hl as [| sp l Hsp _ IH];
    cbn [reweight map totalProbability with_probability probability].
  - lra.
  - unfold reweight in IH. specialize (Hf sp). nra.
Qed.

Lemma reweight_nonneg f (l : list (ScoreProbability R)) :
  (forall sp, 0 <= f sp) ->
  Forall (fun sp => 0 <= probability sp) l ->
  Forall (fun sp => 0 <= probability sp) (reweight f l).
Proof.
  intros Hf Hl. induction Hl as [| sp l Hsp _ IH]; cbn [reweight map].
  - constructor.
  - constructor; [| exact IH].
    cbn [with_probability probability]. specialize (Hf sp). nra.
Qed.

Lemma rescale_nonneg (l : list (ScoreProbability R)) :
  0 < totalProbability l ->
  Forall (fun sp => 0 <= probability sp) l ->
  Forall (fun sp => 0 <= probability sp) (rescale l).
Proof.
  intros Hs Hl. unfold rescale. apply Forall_map.
  eapply Forall_impl; [| exact Hl].
  intros sp Hsp. cbn [with_probability probability].
  apply Rmult_le_pos; [exact Hsp |].
  left. now apply Rinv_0_lt_compat.
Qed.

(** *** The base distribution *)

Lemma implied_pos (odds : R) : 0 < odds -> 0 < impliedProbability odds.
Proof.
  intro Ho. unfold impliedProbability, Rdiv. rewrite Rmult_1_l.
  now apply Rinv_0_lt_compat.
Qed.

Lemma impliedOf_draw_nonneg (w : H2H R) :
  valid_h2h w -> 0 <= impliedOf 0 w Draw.
Proof.
  intros (_ & _ & Hd). cbn [impliedOf]. destruct (draw w) as [d |].
  - left. apply implied_pos. lra.
  - lra.
Qed.

Lemma implied_total_pos (w : H2H R) :
  valid_h2h w ->
  0 < impliedOf 0 w HomeWin + impliedOf 0 w Draw + impliedOf 0 w AwayWin.
Proof.
  intros Hw. pose proof (impliedOf_draw_nonneg Hw) as Hd.
  destruct Hw as (Hh & Ha & _). cbn [impliedOf] in *.
  pose proof (@implied_pos (home w)). pose proof (@implied_pos (away w)). lra.
Qed.

Lemma normalizedOf_nonneg (w : H2H R) (c : OutcomeClass) :
  valid_h2h w -> 0 <= normalizedOf w c.
Proof.
  intro Hw. pose proof (implied_total_pos Hw) as Ht.
  pose proof (impliedOf_draw_nonneg Hw) as Hd.
  unfold normalizedOf. apply Rmult_le_pos.
  - destruct Hw as (Hh & Ha & _). destruct c; cbn [impliedOf] in *.
    + left. apply implied_pos. lra.
    + exact Hd.
    + left. apply implied_pos. lra.
  - left. now apply Rinv_0_lt_compat.
Qed.

(** "normalize(impliedProbabilities) sums to 1." *)
Lemma normalizedOf_total (w : H2H R) :
  valid_h2h w ->
  normalizedOf w HomeWin + normalizedOf w Draw + normalizedOf w AwayWin = 1.
Proof.
  intro Hw. pose proof (implied_total_pos Hw) as Ht.
  unfold normalizedOf. field. lra.
Qed.

(** The code's base distribution is the catalogue distribution of the
    specification. *)
Lemma oddsToScoreProbabilities_base (w : H2H R) :
  valid_h2h w ->
  oddsToScoreProbabilities (home w) (draw w) (away w) = baseDistribution w.
Proof.
  intros (Hh & Ha & Hd).
  unfold oddsToScoreProbabilities, baseDistribution, normalizedOf, impliedOf,
    impliedProbability.
  destruct (draw w) as [d |].
  - js_R. rewrite (@R_truthy_nonzero d) by lra.
    unfold pushScores, homeWinScores, drawScores, awayWinScores.
    cbn. js_R. repeat (f_equal; try lra).
  - unfold pushScores, homeWinScores, drawScores, awayWinScores.
    cbn. js_R. repeat (f_equal; try lra).
Qed.

End RealFacts.

(** ** The distributor as a pipeline *)

Section Pipeline.

Context {num : Type} `{JSNumber num}.

(** Whatever the arithmetic, [oddsToProbabilities] computes the base
    distribution exactly as [oddsToScoreProbabilities] does and then runs
    its two optional conditioning blocks. *)
Lemma oddsToProbabilities_pipeline (m : MatchMarkets num) :
  oddsToProbabilities m =
  match h2h m with
  | None => []
  | Some w =>
      let base := oddsToScoreProbabilities (home w) (draw w) (away w) in
      let afterTotals :=
        match totals m with
        | Some t => renormalize (adjustTotals t base)
        | None => base
        end in
      match bothTeamsToScore m with
      | Some b => renormalize (adjustBTTS b afterTotals)
      | None => afterTotals
      end
  end.
Proof.
  unfold oddsToProbabilities, oddsToScoreProbabilities.
  destruct (h2h m) as [w |]; reflexivity.
Qed.

Lemma length_pushScores (norm : num) (table : list (WeightedScore num))
    (acc : list (ScoreProbability num)) :
  List.length (pushScores norm table acc)
  = (List.length acc + List.length table)%nat.
Proof.
  unfold pushScores. revert acc.
  induction table as [| s table IH]; intro acc; cbn [fold_left List.length].
  - lia.
  - rewrite IH, length_app. cbn [List.length]. lia.
Qed.

Lemma length_oddsToScoreProbabilities (h : num) (d : option num) (a : num) :
  List.length (oddsToScoreProbabilities h d a) = 18%nat.
Proof.
  unfold oddsToScoreProbabilities. cbv zeta.
  rewrite !length_pushScores. reflexivity.
Qed.

Lemma length_renormalize (l : list (ScoreProbability num)) :
  List.length (renormalize l) = List.length l.
Proof. unfold renormalize. apply length_map. Qed.

Lemma length_adjustTotals (t : Totals num) (l : list (ScoreProbability num)) :
  List.length (adjustTotals t l) = List.length l.
Proof. unfold adjustTotals. apply length_map. Qed.

Lemma length_adjustBTTS (b : BothTeamsToScore num)
    (l : list (ScoreProbability num)) :
  List.length (adjustBTTS b l) = List.length l.
Proof. unfold adjustBTTS. apply length_map. Qed.

(** With a win market the distributor returns 18 entries, under every
    arithmetic and whatever other markets are present. *)
Lemma length_oddsToProbabilities (m : MatchMarkets num) (w : H2H num) :
  h2h m = Some w -> List.length (oddsToProbabilities m) = 18%nat.
Proof.
  intro Hw. rewrite oddsToProbabilities_pipeline, Hw. cbv zeta.
  destruct (bothTeamsToScore m), (totals m);
    rewrite ?length_renormalize, ?length_adjustBTTS, ?length_renormalize,
      ?length_adjustTotals;
    apply length_oddsToScoreProbabilities.
Qed.

(** C3. For every [MatchMarkets] without a win market ([h2h] absent),
    [oddsToProbabilities] returns the empty list, whichever of the totals,
    both-teams-to-score and correct-score markets are present; this holds
    for every arithmetic, binary64 included. *)
Theorem oddsToProbabilities_without_h2h
    (t : option (Totals num)) (b : option (BothTeamsToScore num))
    (c : option (CorrectScore num)) :
  oddsToProbabilities
    {| h2h := None; totals := t; bothTeamsToScore := b; correctScore := c |}
  = [].
Proof.
  unfold oddsToProbabilities. cbn [h2h]. reflexivity.
Qed.

End Pipeline.

Section Distributor.

Local Open Scope R_scope.

Lemma baseDistribution_nonneg (w : H2H R) :
  valid_h2h w -> Forall (fun sp => 0 <= probability sp) (baseDistribution w).
Proof.
  intro Hw.
  pose proof (normalizedOf_nonneg HomeWin Hw) as Hh.
  pose proof (normalizedOf_nonneg Draw Hw) as Hd.
  pose proof (normalizedOf_nonneg AwayWin Hw) as Ha.
  unfold baseDistribution, distribute, awayWinCatalogue, homeWinCatalogue,
    drawCatalogue, scoreline.
  cbn [map app].
  repeat apply Forall_cons; try apply Forall_nil; cbn [probability];
    apply Rmult_le_pos; lra.
Qed.

Lemma baseDistribution_total (w : H2H R) :
  valid_h2h w -> totalProbability (baseDistribution w) = 1.
Proof.
  intro Hw. pose proof (normalizedOf_total Hw) as Ht.
  unfold baseDistribution, distribute, awayWinCatalogue, homeWinCatalogue,
    drawCatalogue, scoreline.
  cbn [map app totalProbability probability]. lra.
Qed.

(** C1. For every win market (home odds > 1, away odds > 1, draw odds
    optional and > 1 when present) with no totals and no both-teams-to-score
    market, [oddsToProbabilities] (and likewise [oddsToScoreProbabilities])
    returns the 18 entries of the catalogue distribution: 7 home-win, 4 draw
    and 7 away-win scorelines, each with probability the class's normalised
    implied probability times its catalogue weight; in exact arithmetic the
    probabilities sum to 1. *)
Theorem oddsToProbabilities_win_only (m : MatchMarkets R) (w : H2H R) :
  h2h m = Some w ->
  totals m = None ->
  bothTeamsToScore m = None ->
  valid_h2h w ->
  oddsToProbabilities m
  = distribute (normalizedOf w HomeWin) homeWinCatalogue
    ++ distribute (normalizedOf w Draw) drawCatalogue
    ++ distribute (normalizedOf w AwayWin) awayWinCatalogue
  /\ oddsToScoreProbabilities (home w) (draw w) (away w) = oddsToProbabilities m
  /\ List.length (oddsToProbabilities m) = 18%nat
  /\ List.length (distribute (normalizedOf w HomeWin) homeWinCatalogue) = 7%nat
  /\ List.length (distribute (normalizedOf w Draw) drawCatalogue) = 4%nat
  /\ List.length (distribute (normalizedOf w AwayWin) awayWinCatalogue) = 7%nat
  /\ sumProbability (oddsToProbabilities m) = 1.
Proof.
  intros Hw Ht Hb Hv.
  assert (Hm : oddsToProbabilities m = baseDistribution w).
  { rewrite oddsToProbabilities_pipeline, Hw, Ht, Hb. cbv zeta.
    now apply oddsToScoreProbabilities_base. }
  split; [exact Hm |].
  split; [rewrite Hm; now apply oddsToScoreProbabilities_base |].
  split; [now apply length_oddsToProbabilities with (w := w) |].
  do 3 (split; [reflexivity |]).
  rewrite Hm, sumProbability_total. now apply baseDistribution_total.
Qed.

(** The specification's worked scenario: odds 2.00 / 3.00 / 4.00 normalise
    to 6/13, 4/13 and 3/13, and the entry for 1-0 is 6/13 × 0.35. *)
Lemma scenario_2_3_4_exact :
  normalizedOf h2h_2_3_4 HomeWin = 6 / 13
  /\ normalizedOf h2h_2_3_4 Draw = 4 / 13
  /\ normalizedOf h2h_2_3_4 AwayWin = 3 / 13
  /\ map (@probability R) (firstn 1 (oddsToProbabilities (winOnly h2h_2_3_4)))
     = [6 / 13 * 0.35].
Proof.
  assert (Hv : valid_h2h h2h_2_3_4).
  { unfold valid_h2h, h2h_2_3_4; cbn [home away draw]. repeat split; lra. }
  assert (Hh : normalizedOf h2h_2_3_4 HomeWin = 6 / 13).
  { unfold normalizedOf, impliedOf, impliedProbability, h2h_2_3_4.
    cbn [home away draw]. lra. }
  split; [exact Hh | split; [| split]].
  - unfold normalizedOf, impliedOf, impliedProbability, h2h_2_3_4.
    cbn [home away draw]. lra.
  - unfold normalizedOf, impliedOf, impliedProbability, h2h_2_3_4.
    cbn [home away draw]. lra.
  - rewrite oddsToProbabilities_pipeline.
    cbn [winOnly h2h totals bothTeamsToScore]. cbv zeta.
    rewrite (oddsToScoreProbabilities_base Hv).
    unfold baseDistribution, distribute, homeWinCatalogue, scoreline.
    cbn [map app firstn probability]. rewrite Hh. reflexivity.
Qed.

Lemma oddsToProbabilities_win_only_witness :
  oddsToProbabilities (winOnly h2h_2_3_4)
  = distribute (normalizedOf h2h_2_3_4 HomeWin) homeWinCatalogue
    ++ distribute (normalizedOf h2h_2_3_4 Draw) drawCatalogue
    ++ distribute (normalizedOf h2h_2_3_4 AwayWin) awayWinCatalogue
  /\ oddsToScoreProbabilities (home h2h_2_3_4) (draw h2h_2_3_4) (away h2h_2_3_4)
     = oddsToProbabilities (winOnly h2h_2_3_4)
  /\ List.length (oddsToProbabilities (winOnly h2h_2_3_4)) = 18%nat
  /\ List.length (distribute (normalizedOf h2h_2_3_4 HomeWin) homeWinCatalogue) = 7%nat
  /\ List.length (distribute (normalizedOf h2h_2_3_4 Draw) drawCatalogue) = 4%nat
  /\ List.length (distribute (normalizedOf h2h_2_3_4 AwayWin) awayWinCatalogue) = 7%nat
  /\ sumProbability (oddsToProbabilities (winOnly h2h_2_3_4)) = 1.
Proof.
  apply (@oddsToProbabilities_win_only (winOnly h2h_2_3_4) h2h_2_3_4);
    try reflexivity.
  unfold valid_h2h, h2h_2_3_4; cbn [home away draw]. repeat split; lra.
Defined.

End Distributor.

(** ** Conditioning on further markets *)

Section Conditioning.

Local Open Scope R_scope.

Lemma with_probability_same (sp : ScoreProbability R) (p : R) :
  p = probability sp -> with_probability sp p = sp.
Proof. intros ->. destruct sp; reflexivity. Qed.

(** The reweighting [map] of the over/under block applies the factors of
    step 2. *)
Lemma adjustTotals_reweight (t : Totals R) (l : list (ScoreProbability R)) :
  adjustTotals t l = reweight (totalsFactor t) l.
Proof.
  rewrite reweight_spread. unfold adjustTotals. cbv zeta.
  apply map_ext. intro sp.
  unfold totalsFactor, totalGoals, normOverOf, impliedProbability.
  js_R. unfold R_lt.
  destruct (Rlt_dec (point t) (home_score sp + away_score sp)) as [Hgt | Hgt].
  - f_equal. lra.
  - destruct (Rlt_dec (home_score sp + away_score sp) (point t)) as [Hlt | Hlt].
    + f_equal. lra.
    + symmetry. apply with_probability_same. lra.
Qed.

(** The reweighting [map] of the both-teams-to-score block applies the
    factors of step 3. *)
Lemma adjustBTTS_reweight (b : BothTeamsToScore R)
    (l : list (ScoreProbability R)) :
  adjustBTTS b l = reweight (bttsFactor b) l.
Proof.
  rewrite reweight_spread. unfold adjustBTTS. cbv zeta.
  apply map_ext. intro sp.
  unfold bttsFactor, normYesOf, impliedProbability.
  js_R. unfold R_lt.
  destruct (Rlt_dec 0 (home_score sp)), (Rlt_dec 0 (away_score sp));
    cbn [andb]; f_equal; lra.
Qed.

(** The share of one of two positive implied probabilities lies strictly
    between 0 and 1. *)
Lemma implied_share_bounds (x y : R) :
  0 < x -> 0 < y ->
  0 < impliedProbability x / (impliedProbability x + impliedProbability y) < 1.
Proof.
  intros Hx Hy.
  pose proof (implied_pos Hx) as Hix. pose proof (implied_pos Hy) as Hiy.
  set (p := impliedProbability x) in *. set (q := impliedProbability y) in *.
  assert (Hpq : 0 < p + q) by lra.
  split.
  - apply Rdiv_lt_0_compat; lra.
  - apply Rmult_lt_reg_r with (r := p + q); [exact Hpq |].
    unfold Rdiv. rewrite Rmult_assoc, Rinv_l by lra. lra.
Qed.

Lemma totalsFactor_ge_half (t : Totals R) (sp : ScoreProbability R) :
  valid_totals t -> 1 / 2 <= totalsFactor t sp.
Proof.
  intros (Ho & Hu). pose proof (implied_share_bounds Ho Hu) as Hn.
  unfold totalsFactor. fold (normOverOf t) in Hn.
  destruct (Rlt_dec _ _); [lra |]. destruct (Rlt_dec _ _); lra.
Qed.

Lemma bttsFactor_ge_half (b : BothTeamsToScore R) (sp : ScoreProbability R) :
  valid_btts b -> 1 / 2 <= bttsFactor b sp.
Proof.
  intros (Hy & Hn). pose proof (implied_share_bounds Hy Hn) as Hs.
  unfold bttsFactor. fold (normYesOf b) in Hs.
  destruct (Rlt_dec _ _); [destruct (Rlt_dec _ _) |]; lra.
Qed.

(** A conditioning step (reweight by factors of at least one half, then
    rescale) turns a non-negative distribution of total 1 into another. *)
Lemma conditioning_step f (l : list (ScoreProbability R)) :
  (forall sp, 1 / 2 <= f sp) ->
  Forall (fun sp => 0 <= probability sp) l ->
  totalProbability l = 1 ->
  Forall (fun sp => 0 <= probability sp) (rescale (reweight f l))
  /\ totalProbability (rescale (reweight f l)) = 1.
Proof.
  intros Hf Hl Ht.
  assert (Hpos : 0 < totalProbability (reweight f l)).
  { pose proof (@totalProbability_reweight_ge (1 / 2) f l) as Hge.
    rewrite Ht in Hge. assert (0 <= 1 / 2) by lra. specialize (Hge H Hf Hl). lra. }
  split.
  - apply rescale_nonneg; [exact Hpos |].
    apply reweight_nonneg; [| exact Hl].
    intro sp. specialize (Hf sp). lra.
  - apply totalProbability_rescale. lra.
Qed.

(** The whole pipeline over the reals, for a well-formed win market. *)
Lemma oddsToProbabilities_conditioned (m : MatchMarkets R) (w : H2H R) :
  h2h m = Some w ->
  valid_h2h w ->
  oddsToProbabilities m =
  let afterTotals :=
    match totals m with
    | Some t => conditionOnTotals t (baseDistribution w)
    | None => baseDistribution w
    end in
  match bothTeamsToScore m with
  | Some b => conditionOnBTTS b afterTotals
  | None => afterTotals
  end.
Proof.
  intros Hw Hv. rewrite oddsToProbabilities_pipeline, Hw. cbv zeta.
  rewrite (oddsToScoreProbabilities_base Hv).
  unfold conditionOnTotals, conditionOnBTTS.
  destruct (totals m) as [t |], (bothTeamsToScore m) as [b |];
    rewrite ?renormalize_rescale, ?adjustBTTS_reweight, ?renormalize_rescale,
      ?adjustTotals_reweight; reflexivity.
Qed.

(** The narrow variant conditions on the totals odds whenever the three
    totals arguments are non-zero; it computes the below-point factor from
    [normUnder], which is [1 − normOver] as soon as the two implied
    probabilities do not cancel. *)
Lemma withTotals_renormalize_adjust (h : R) (d : option R) (a : R)
    (t : Totals R) :
  point t <> 0 -> over t <> 0 -> under t <> 0 ->
  1 / over t + 1 / under t <> 0 ->
  oddsToScoreProbabilitiesWithTotals h d a
    (Some (point t)) (Some (over t)) (Some (under t))
  = renormalize (adjustTotals t (oddsToScoreProbabilities h d a)).
Proof.
  intros Hp Ho Hu Hsum. unfold oddsToScoreProbabilitiesWithTotals. cbv zeta.
  js_R. rewrite !R_truthy_nonzero by assumption. cbn [andb].
  f_equal. unfold adjustTotals. cbv zeta. apply map_ext. intro sp. js_R.
  destruct (R_lt (point t) (home_score sp + away_score sp)); [reflexivity |].
  destruct (R_lt (home_score sp + away_score sp) (point t)); [| reflexivity].
  f_equal. f_equal. f_equal.
  set (x := 1 / over t) in *. set (y := 1 / under t) in *.
  field. exact Hsum.
Qed.

(** C2. For every well-formed win market and totals market (positive over
    and under odds), [oddsToProbabilities] multiplies each base entry's
    probability by [0.5 + 0.5·normOver] when its total goals exceed the
    point, by [0.5 + 0.5·(1 − normOver)] when they are below it and leaves
    it unchanged when they equal it, then divides every entry by the new
    total, so that the list sums to 1; a both-teams-to-score market, when
    present, conditions that list further.  The narrow variant
    [oddsToScoreProbabilitiesWithTotals] returns the same list when the
    point is non-zero. *)
Theorem oddsToProbabilities_totals_conditioning
    (m : MatchMarkets R) (w : H2H R) (t : Totals R) :
  h2h m = Some w ->
  totals m = Some t ->
  valid_h2h w ->
  valid_totals t ->
  let conditioned :=
    rescale (reweight (totalsFactor t) (baseDistribution w)) in
  oddsToProbabilities m
  = match bothTeamsToScore m with
    | Some b => conditionOnBTTS b conditioned
    | None => conditioned
    end
  /\ totalProbability conditioned = 1
  /\ List.length conditioned = 18%nat
  /\ (point t <> 0 ->
      oddsToScoreProbabilitiesWithTotals (home w) (draw w) (away w)
        (Some (point t)) (Some (over t)) (Some (under t))
      = conditioned).
Proof.
  intros Hw Ht Hv Hvt conditioned.
  assert (Hstep := @conditioning_step (totalsFactor t) (baseDistribution w)
            (fun sp => totalsFactor_ge_half sp Hvt)
            (baseDistribution_nonneg Hv) (baseDistribution_total Hv)).
  split; [| split; [| split]].
  - rewrite (oddsToProbabilities_conditioned m Hw Hv), Ht. reflexivity.
  - apply Hstep.
  - unfold conditioned.
    rewrite length_rescale, length_reweight,
      <- (oddsToScoreProbabilities_base Hv).
    apply length_oddsToScoreProbabilities.
  - intro Hp. destruct Hvt as (Ho & Hu).
    pose proof (implied_pos Ho) as Hio. pose proof (implied_pos Hu) as Hiu.
    unfold impliedProbability in Hio, Hiu.
    rewrite withTotals_renormalize_adjust by lra.
    rewrite renormalize_rescale, adjustTotals_reweight,
      (oddsToScoreProbabilities_base Hv).
    reflexivity.
Qed.

Lemma oddsToProbabilities_totals_conditioning_witness :
  let conditioned :=
    rescale (reweight (totalsFactor totals_2_5) (baseDistribution h2h_2_3_4)) in
  oddsToProbabilities (winAndTotals h2h_2_3_4 totals_2_5)
  = match bothTeamsToScore (winAndTotals h2h_2_3_4 totals_2_5) with
    | Some b => conditionOnBTTS b conditioned
    | None => conditioned
    end
  /\ totalProbability conditioned = 1
  /\ List.length conditioned = 18%nat
  /\ (point totals_2_5 <> 0 ->
      oddsToScoreProbabilitiesWithTotals
        (home h2h_2_3_4) (draw h2h_2_3_4) (away h2h_2_3_4)
        (Some (point totals_2_5)) (Some (over totals_2_5))
        (Some (under totals_2_5))
      = conditioned).
Proof.
  apply (@oddsToProbabilities_totals_conditioning
           (winAndTotals h2h_2_3_4 totals_2_5) h2h_2_3_4 totals_2_5);
    try reflexivity.
  - unfold valid_h2h, h2h_2_3_4; cbn [home away draw]. repeat split; lra.
  - unfold valid_totals, totals_2_5; cbn [over under]. split; lra.
Defined.

End Conditioning.

Section Neutral.

Local Open Scope R_scope.

Lemma totalProbability_reweight_const f (c : R)
    (l : list (ScoreProbability R)) :
  Forall (fun sp => f sp = c) l ->
  totalProbability (reweight f l) = c * totalProbability l.
Proof.
  intro Hl. induction Hl as [| sp l Hsp _ IH];
    cbn [reweight map totalProbability with_probability probability].
  - lra.
  - unfold reweight in IH. rewrite IH, Hsp. lra.
Qed.

(** Reweighting every entry by one and the same non-zero factor is undone
    by the rescaling. *)
Lemma rescale_reweight_const f (c : R) (l : list (ScoreProbability R)) :
  c <> 0 ->
  Forall (fun sp => f sp = c) l ->
  totalProbability l = 1 ->
  rescale (reweight f l) = l.
Proof.
  intros Hc Hl Ht. unfold rescale.
  rewrite (totalProbability_reweight_const f Hl), Ht, Rmult_1_r.
  clear Ht. induction Hl as [| sp l Hsp _ IH]; cbn [reweight map].
  - reflexivity.
  - unfold reweight in IH. rewrite IH. f_equal.
    destruct sp as [hs aw p]. unfold with_probability.
    cbn [home_score away_score probability]. f_equal.
    rewrite Hsp. now field.
Qed.

(** Two reweightings that give every entry the same product give the same
    list. *)
Lemma reweight_ext f g (l : list (ScoreProbability R)) :
  Forall (fun sp => probability sp * f sp = probability sp * g sp) l ->
  reweight f l = reweight g l.
Proof.
  intro Hl. induction Hl as [| sp l Hsp _ IH]; cbn [reweight map].
  - reflexivity.
  - unfold reweight in IH. now rewrite IH, Hsp.
Qed.

(** A conditioning step that returns the list it was given has kept every
    probability: [p·f/S = p], with [S] the total after the reweighting. *)
Lemma conditioning_fixed f (l : list (ScoreProbability R)) :
  rescale (reweight f l) = l ->
  Forall (fun sp =>
            probability sp * f sp / totalProbability (reweight f l)
            = probability sp) l.
Proof.
  unfold rescale. generalize (totalProbability (reweight f l)) as S.
  intro S. induction l as [| sp l IH]; cbn [reweight map]; intro Heq.
  - constructor.
  - injection Heq as Hsp Hl. constructor.
    + apply (f_equal (@probability R)) in Hsp. exact Hsp.
    + apply IH. exact Hl.
Qed.

(** With balanced over/under odds every scoreline off the point is scaled
    by 3/4 and every scoreline at the point by 1. *)
Lemma neutral_totalsFactor (t : Totals R) (sp : ScoreProbability R) :
  normOverOf t = 1 / 2 ->
  (totalGoals sp = point t -> totalsFactor t sp = 1)
  /\ (totalGoals sp <> point t -> totalsFactor t sp = 3 / 4).
Proof.
  intro Hn. unfold totalsFactor. rewrite Hn.
  destruct (Rlt_dec _ _); [split; intro; lra |].
  destruct (Rlt_dec _ _); split; intro; lra.
Qed.

(** The base distribution of a well-formed win market gives positive
    probability to 1-0 and to 2-0. *)
Lemma baseDistribution_1_0_and_2_0 (w : H2H R) :
  valid_h2h w ->
  exists a b : R,
    0 < a /\ 0 < b
    /\ In {| home_score := 1; away_score := 0; probability := a |}
          (baseDistribution w)
    /\ In {| home_score := 2; away_score := 0; probability := b |}
          (baseDistribution w).
Proof.
  intro Hv. pose proof (implied_total_pos Hv) as Htot.
  assert (Hh : 0 < normalizedOf w HomeWin).
  { unfold normalizedOf. apply Rdiv_lt_0_compat; [| exact Htot].
    cbn [impliedOf]. apply implied_pos. destruct Hv as (Hh & _). lra. }
  exists (normalizedOf w HomeWin * 0.35), (normalizedOf w HomeWin * 0.20).
  split; [lra | split; [lra |]].
  unfold baseDistribution, distribute, homeWinCatalogue, scoreline.
  cbn [map app In]. split; [left | right; left]; reflexivity.
Qed.

(** C5, as amended.  For every well-formed win market and every totals
    market with [normOver = 1/2], the conditioned and renormalised
    distribution is, in exact arithmetic, the unconditioned one exactly when
    no scoreline of positive probability has total goals equal to the
    point; in particular whenever no catalogued scoreline sits at the point
    (any non-integer point, such as 2.5). *)
Theorem neutral_totals_is_noop (w : H2H R) (t : Totals R) :
  valid_h2h w ->
  normOverOf t = 1 / 2 ->
  (oddsToProbabilities (winAndTotals w t) = oddsToProbabilities (winOnly w)
   <-> Forall (fun sp => totalGoals sp = point t -> probability sp = 0)
         (baseDistribution w))
  /\ (Forall (fun sp => totalGoals sp <> point t) (baseDistribution w) ->
      oddsToProbabilities (winAndTotals w t) = oddsToProbabilities (winOnly w)).
Proof.
  intros Hv Hn.
  rewrite (@oddsToProbabilities_conditioned (winAndTotals w t) w eq_refl Hv),
    (@oddsToProbabilities_conditioned (winOnly w) w eq_refl Hv).
  cbn [winAndTotals winOnly totals bothTeamsToScore]. cbv zeta.
  unfold conditionOnTotals.
  assert (Hback :
    Forall (fun sp => totalGoals sp = point t -> probability sp = 0)
      (baseDistribution w) ->
    rescale (reweight (totalsFactor t) (baseDistribution w))
    = baseDistribution w).
  { intro Hzero.
    rewrite (@reweight_ext (totalsFactor t) (fun _ => 3 / 4)).
    - apply rescale_reweight_const with (c := 3 / 4).
      + lra.
      + apply Forall_forall. reflexivity.
      + now apply baseDistribution_total.
    - eapply Forall_impl; [| exact Hzero].
      intros sp Hsp. cbv beta.
      destruct (Req_dec_T (totalGoals sp) (point t)) as [Hat | Hoff].
      + rewrite (Hsp Hat). lra.
      + now rewrite (proj2 (neutral_totalsFactor sp Hn) Hoff). }
  split; [split; [| exact Hback] |].
  - (* a scoreline of positive probability at the point changes the list *)
    intro Heq. apply conditioning_fixed in Heq.
    set (S := totalProbability _) in Heq. clearbody S.
    rewrite Forall_forall in Heq. apply Forall_forall.
    intros sp Hin Hat.
    destruct (Req_dec_T (probability sp) 0) as [Hp0 | Hp0]; [exact Hp0 |].
    exfalso.
    assert (HS : S = 1).
    { pose proof (Heq sp Hin) as Hsp. cbv beta in Hsp.
      rewrite (proj1 (neutral_totalsFactor sp Hn) Hat) in Hsp.
      destruct (Req_dec_T S 0) as [HS0 | HS0].
      - rewrite HS0 in Hsp. unfold Rdiv in Hsp. rewrite Rinv_0 in Hsp. lra.
      - assert (Hmul : probability sp * 1 / S * S = probability sp * 1)
          by (field; exact HS0).
        rewrite Hsp in Hmul.
        apply Rmult_eq_reg_l with (r := probability sp); [lra | exact Hp0]. }
    destruct (baseDistribution_1_0_and_2_0 Hv)
      as (a & b & Ha & Hb & Hina & Hinb).
    assert (Hoff : forall q g,
               0 < q ->
               In {| home_score := g; away_score := 0; probability := q |}
                  (baseDistribution w) ->
               g + 0 <> point t -> False).
    { intros q g Hq Hinq Hg. pose proof (Heq _ Hinq) as Hsq. cbv beta in Hsq.
      rewrite (proj2 (@neutral_totalsFactor t
                        {| home_score := g; away_score := 0; probability := q |}
                        Hn) Hg) in Hsq.
      cbn [probability] in Hsq. rewrite HS in Hsq.
      unfold Rdiv in Hsq. rewrite Rinv_1 in Hsq. lra. }
    destruct (Req_dec_T (1 + 0) (point t)) as [H1 | H1].
    + apply (Hoff b 2 Hb Hinb). lra.
    + apply (Hoff a 1 Ha Hina). exact H1.
  - intro Hnone. apply Hback.
    eapply Forall_impl; [| exact Hnone]. intros sp Hsp Hat. contradiction.
Qed.

(** In a two-way market the only scoreline with six goals, 3-3, has
    probability 0, so balanced odds at point 6 change nothing. *)
Lemma neutral_totals_is_noop_witness :
  Exists (fun sp => totalGoals sp = point neutral_at_6)
    (baseDistribution h2h_2_4)
  /\ oddsToProbabilities (winAndTotals h2h_2_4 neutral_at_6)
     = oddsToProbabilities (winOnly h2h_2_4).
Proof.
  split.
  - unfold baseDistribution, distribute, awayWinCatalogue, homeWinCatalogue,
      drawCatalogue, scoreline, neutral_at_6, totalGoals.
    cbn [map app point].
    do 10 apply Exists_cons_tl. apply Exists_cons_hd.
    cbn [home_score away_score]. lra.
  - apply (proj1 (@neutral_totals_is_noop h2h_2_4 neutral_at_6
             ltac:(unfold valid_h2h, h2h_2_4; cbn [home away draw];
                   repeat split; lra)
             ltac:(unfold normOverOf, impliedProbability, neutral_at_6;
                   cbn [over under]; lra))).
    unfold baseDistribution, distribute, awayWinCatalogue, homeWinCatalogue,
      drawCatalogue, scoreline, neutral_at_6, totalGoals, normalizedOf,
      impliedOf, h2h_2_4.
    cbn [map app point draw].
    repeat apply Forall_cons; try apply Forall_nil;
      cbn [home_score away_score probability]; intro H6; lra.
Defined.

(** C5 as stated fails at an integer point: with balanced odds at point 2
    the scorelines with two goals, which have positive probability, keep
    their weight while all others are scaled by 3/4, and the renormalised
    distribution differs from the base one. *)
Lemma neutral_totals_at_integer_point_changes :
  valid_h2h h2h_2_3_4
  /\ normOverOf neutral_at_2 = 1 / 2
  /\ oddsToProbabilities (winAndTotals h2h_2_3_4 neutral_at_2)
     <> oddsToProbabilities (winOnly h2h_2_3_4).
Proof.
  assert (Hv : valid_h2h h2h_2_3_4).
  { unfold valid_h2h, h2h_2_3_4; cbn [home away draw]. repeat split; lra. }
  assert (Hn : normOverOf neutral_at_2 = 1 / 2).
  { unfold normOverOf, impliedProbability, neutral_at_2; cbn [over under]. lra. }
  split; [exact Hv | split; [exact Hn |]].
  rewrite (@oddsToProbabilities_conditioned
             (winAndTotals h2h_2_3_4 neutral_at_2) h2h_2_3_4 eq_refl Hv),
    (@oddsToProbabilities_conditioned (winOnly h2h_2_3_4) h2h_2_3_4 eq_refl Hv).
  cbn [winAndTotals winOnly totals bothTeamsToScore]. cbv zeta.
  intro Heq.
  apply (f_equal (fun l => map (@probability R) (firstn 2 l))) in Heq.
  unfold conditionOnTotals, rescale in Heq.
  set (T := totalProbability _) in Heq.
  unfold reweight, baseDistribution, distribute, awayWinCatalogue,
    homeWinCatalogue, drawCatalogue, scoreline in Heq.
  cbn [map app firstn with_probability probability] in Heq.
  unfold totalsFactor, totalGoals in Heq. rewrite Hn in Heq.
  cbn [home_score away_score point neutral_at_2] in Heq.
  repeat match type of Heq with
         | context [Rlt_dec ?a ?b] => destruct (Rlt_dec a b); try lra
         end.
  pose proof (implied_total_pos Hv) as Htot.
  assert (Hh : 0 < normalizedOf h2h_2_3_4 HomeWin).
  { unfold normalizedOf. apply Rdiv_lt_0_compat; [| exact Htot].
    cbn [impliedOf h2h_2_3_4 home]. apply implied_pos. lra. }
  set (nh := normalizedOf h2h_2_3_4 HomeWin) in *.
  clearbody T. injection Heq as H0 H1.
  destruct (Req_dec_T T 0) as [HT | HT].
  - subst T. unfold Rdiv in H1. rewrite Rinv_0 in H1. lra.
  - pose proof (Rinv_l T HT) as HiT. unfold Rdiv in H0, H1.
    set (iT := / T) in *. nra.
Qed.

End Neutral.

(** ** Two-way win markets *)

Section TwoWay.

Local Open Scope R_scope.

(** A conditioning step keeps the scores and keeps a probability of 0. *)
Lemma conditioning_keeps_zero_draws f (l : list (ScoreProbability R)) :
  drawEntries l = zeroDraws ->
  drawEntries (rescale (reweight f l)) = zeroDraws.
Proof.
  unfold drawEntries, rescale. set (T := totalProbability _). clearbody T.
  unfold reweight. rewrite map_map, skipn_map, firstn_map, map_map.
  cbn [with_probability home_score away_score probability].
  intro Hl. rewrite <- Hl. apply map_ext_in. intros sp Hin.
  assert (Hp : probability sp = 0).
  { apply (in_map (fun sp => (home_score sp, away_score sp, probability sp)))
      in Hin.
    rewrite Hl in Hin. unfold zeroDraws in Hin. cbn [In] in Hin.
    destruct Hin as [Hin | [Hin | [Hin | [Hin | []]]]];
      injection Hin as _ _ Hin; symmetry; exact Hin. }
  f_equal. rewrite Hp. unfold Rdiv. lra.
Qed.

(** The total of a distribution splits into the draw entries and the
    fourteen others. *)
Lemma totalProbability_split (l : list (ScoreProbability R)) :
  totalProbability l
  = totalProbability (firstn 7 l ++ skipn 11 l)
    + totalProbability (firstn 4 (skipn 7 l)).
Proof.
  rewrite <- (firstn_skipn 7 l) at 1.
  rewrite <- (firstn_skipn 4 (skipn 7 l)) at 1.
  rewrite skipn_skipn. cbn [Nat.add].
  rewrite !totalProbability_app. lra.
Qed.

Lemma zero_draws_total (l : list (ScoreProbability R)) :
  drawEntries l = zeroDraws -> totalProbability (firstn 4 (skipn 7 l)) = 0.
Proof.
  unfold drawEntries, zeroDraws.
  destruct (firstn 4 (skipn 7 l)) as [| a [| b [| c [| d [| e r]]]]];
    cbn [map]; try discriminate.
  intro Hl. injection Hl as _ _ Ha _ _ Hb _ _ Hc _ _ Hd.
  cbn [totalProbability]. lra.
Qed.

(** The pipeline yields a distribution of total 1 on well-formed markets. *)
Lemma oddsToProbabilities_total (m : MatchMarkets R) (w : H2H R) :
  h2h m = Some w ->
  valid_h2h w ->
  match totals m with Some t => valid_totals t | None => True end ->
  match bothTeamsToScore m with Some b => valid_btts b | None => True end ->
  totalProbability (oddsToProbabilities m) = 1.
Proof.
  intros Hw Hv Ht Hb.
  rewrite (oddsToProbabilities_conditioned m Hw Hv). cbv zeta.
  assert (Hafter :
    Forall (fun sp => 0 <= probability sp)
      match totals m with
      | Some t => conditionOnTotals t (baseDistribution w)
      | None => baseDistribution w
      end
    /\ totalProbability
         match totals m with
         | Some t => conditionOnTotals t (baseDistribution w)
         | None => baseDistribution w
         end = 1).
  { destruct (totals m) as [t |].
    - apply conditioning_step.
      + intro sp. now apply totalsFactor_ge_half.
      + now apply baseDistribution_nonneg.
      + now apply baseDistribution_total.
    - split; [now apply baseDistribution_nonneg | now apply baseDistribution_total]. }
  destruct (bothTeamsToScore m) as [b |].
  - apply conditioning_step; [| apply Hafter | apply Hafter].
    intro sp. now apply bttsFactor_ge_half.
  - apply Hafter.
Qed.

(** C10. When the win market has no draw odds, the distributor uses a draw
    implied probability of exactly 0: the base distribution gives the draw
    catalogue the mass 0, so in the 18 entries returned (on well-formed
    markets, conditioned or not) the four draw entries 0-0, 1-1, 2-2 and 3-3
    have probability 0 and the 14 home-win and away-win entries sum to 1.
    The normaliser, in contrast, prices a missing draw at 0.34. *)
Theorem two_way_market_has_zero_draws (m : MatchMarkets R) (w : H2H R) :
  h2h m = Some w ->
  draw w = None ->
  1 < home w ->
  1 < away w ->
  match totals m with Some t => valid_totals t | None => True end ->
  match bothTeamsToScore m with Some b => valid_btts b | None => True end ->
  let total := 1 / home w + 0 + 1 / away w in
  oddsToScoreProbabilities (home w) (draw w) (away w)
  = distribute (1 / home w / total) homeWinCatalogue
    ++ distribute (0 / total) drawCatalogue
    ++ distribute (1 / away w / total) awayWinCatalogue
  /\ List.length (oddsToProbabilities m) = 18%nat
  /\ map (fun sp => (home_score sp, away_score sp, probability sp))
         (firstn 4 (skipn 7 (oddsToProbabilities m)))
     = [ (0, 0, 0); (1, 1, 0); (2, 2, 0); (3, 3, 0) ]
  /\ sumProbability
       (firstn 7 (oddsToProbabilities m) ++ skipn 11 (oddsToProbabilities m))
     = 1
  /\ totals (generateMissingMarkets (matchOf w))
     = Some {| point := 2.5;
               over := 1 / (0.3 + (1 / home w + 1 / away w) / 2 * 0.4
                            - 0.34 * 0.2) * 1.05;
               under := 1 / (1 - (0.3 + (1 / home w + 1 / away w) / 2 * 0.4
                                  - 0.34 * 0.2)) * 1.05 |}.
Proof.
  intros Hw Hd Hh Ha Ht Hb total.
  assert (Hv : valid_h2h w) by (unfold valid_h2h; rewrite Hd; auto).
  assert (Hbase : oddsToScoreProbabilities (home w) (draw w) (away w)
                  = distribute (1 / home w / total) homeWinCatalogue
                    ++ distribute (0 / total) drawCatalogue
                    ++ distribute (1 / away w / total) awayWinCatalogue).
  { rewrite (oddsToScoreProbabilities_base Hv).
    unfold baseDistribution, normalizedOf, impliedOf, impliedProbability.
    rewrite Hd. reflexivity. }
  assert (Hzero : drawEntries (oddsToProbabilities m) = zeroDraws).
  { rewrite (oddsToProbabilities_conditioned m Hw Hv). cbv zeta.
    assert (H0 : drawEntries (baseDistribution w) = zeroDraws).
    { rewrite <- (oddsToScoreProbabilities_base Hv), Hbase.
      unfold drawEntries, zeroDraws, distribute, awayWinCatalogue,
        homeWinCatalogue, drawCatalogue, scoreline.
      cbn [map app skipn firstn home_score away_score probability].
      unfold Rdiv. repeat (f_equal; try lra). }
    destruct (totals m), (bothTeamsToScore m);
      unfold conditionOnTotals, conditionOnBTTS;
      repeat apply conditioning_keeps_zero_draws; exact H0. }
  split; [exact Hbase | split; [| split; [exact Hzero | split]]].
  - now apply length_oddsToProbabilities with (w := w).
  - rewrite sumProbability_total.
    pose proof (totalProbability_split (oddsToProbabilities m)) as Hsplit.
    rewrite (zero_draws_total _ Hzero),
      (oddsToProbabilities_total m Hw Hv Ht Hb) in Hsplit.
    lra.
  - unfold generateMissingMarkets, matchOf. cbv zeta.
    cbn [Match.h2h Match.totals bothTeamsToScore correctScore totals].
    rewrite Hd. js_R. do 2 f_equal; try lra;
      (f_equal; first [lra | f_equal; lra]).
Qed.

Lemma two_way_market_has_zero_draws_witness :
  let total := 1 / home h2h_2_4 + 0 + 1 / away h2h_2_4 in
  oddsToScoreProbabilities (home h2h_2_4) (draw h2h_2_4) (away h2h_2_4)
  = distribute (1 / home h2h_2_4 / total) homeWinCatalogue
    ++ distribute (0 / total) drawCatalogue
    ++ distribute (1 / away h2h_2_4 / total) awayWinCatalogue
  /\ List.length (oddsToProbabilities (winOnly h2h_2_4)) = 18%nat
  /\ map (fun sp => (home_score sp, away_score sp, probability sp))
         (firstn 4 (skipn 7 (oddsToProbabilities (winOnly h2h_2_4))))
     = [ (0, 0, 0); (1, 1, 0); (2, 2, 0); (3, 3, 0) ]
  /\ sumProbability
       (firstn 7 (oddsToProbabilities (winOnly h2h_2_4))
        ++ skipn 11 (oddsToProbabilities (winOnly h2h_2_4)))
     = 1
  /\ totals (generateMissingMarkets (matchOf h2h_2_4))
     = Some {| point := 2.5;
               over := 1 / (0.3 + (1 / home h2h_2_4 + 1 / away h2h_2_4) / 2 * 0.4
                            - 0.34 * 0.2) * 1.05;
               under := 1 / (1 - (0.3 + (1 / home h2h_2_4 + 1 / away h2h_2_4)
                                        / 2 * 0.4
                                  - 0.34 * 0.2)) * 1.05 |}.
Proof.
  apply (@two_way_market_has_zero_draws (winOnly h2h_2_4) h2h_2_4);
    try reflexivity; try exact I;
    unfold h2h_2_4; cbn [home away]; lra.
Defined.

End TwoWay.

(** ** Renormalisation *)

Section Renormalisation.

Local Open Scope R_scope.

(** A reweighting by factors of at least one half leaves a distribution of
    total 1 with a sum of at least one half, and the renormalisation that
    follows brings the sum back to 1. *)
Lemma renormalize_after_reweight f (l : list (ScoreProbability R)) :
  (forall sp, 1 / 2 <= f sp) ->
  Forall (fun sp => 0 <= probability sp) l ->
  totalProbability l = 1 ->
  1 / 2 <= sumProbability (reweight f l)
  /\ sumProbability (renormalize (reweight f l)) = 1.
Proof.
  intros Hf Hl Ht.
  rewrite !sumProbability_total, renormalize_rescale. split.
  - pose proof (@totalProbability_reweight_ge (1 / 2) f l) as Hge.
    rewrite Ht in Hge. assert (H0 : 0 <= 1 / 2) by lra.
    specialize (Hge H0 Hf Hl). lra.
  - now apply conditioning_step.
Qed.

(** C8, as amended.  Every renormalisation divides each probability by the
    list's sum: it is [rescale], written out entry by entry.  The
    distributor renormalises after the totals reweighting and after the
    both-teams-to-score reweighting, and nowhere else; on well-formed
    markets each of these sums is at least 1/2, so no division by zero
    occurs in any renormalisation step, and each renormalised list sums to
    1.  The same holds of the narrow variant. *)
Theorem renormalize_divides_by_sum (m : MatchMarkets R) (w : H2H R) :
  h2h m = Some w ->
  valid_h2h w ->
  valid_totals_opt (totals m) ->
  valid_btts_opt (bothTeamsToScore m) ->
  let base := oddsToScoreProbabilities (home w) (draw w) (away w) in
  let afterTotals :=
    match totals m with
    | Some t => renormalize (adjustTotals t base)
    | None => base
    end in
  (forall l : list (ScoreProbability R),
      renormalize l
      = map (fun sp =>
               {| home_score := home_score sp;
                  away_score := away_score sp;
                  probability := probability sp / totalProbability l |}) l)
  /\ oddsToProbabilities m
     = match bothTeamsToScore m with
       | Some b => renormalize (adjustBTTS b afterTotals)
       | None => afterTotals
       end
  /\ (forall t, totals m = Some t ->
        1 / 2 <= sumProbability (adjustTotals t base)
        /\ sumProbability (renormalize (adjustTotals t base)) = 1
        /\ (point t <> 0 ->
            oddsToScoreProbabilitiesWithTotals (home w) (draw w) (away w)
              (Some (point t)) (Some (over t)) (Some (under t))
            = renormalize (adjustTotals t base)))
  /\ (forall b, bothTeamsToScore m = Some b ->
        1 / 2 <= sumProbability (adjustBTTS b afterTotals)
        /\ sumProbability (renormalize (adjustBTTS b afterTotals)) = 1).
Proof.
  intros Hw Hv Ht Hb base afterTotals.
  assert (Hbase : base = baseDistribution w)
    by (apply oddsToScoreProbabilities_base; exact Hv).
  assert (Hafter : Forall (fun sp => 0 <= probability sp) afterTotals
                   /\ totalProbability afterTotals = 1).
  { unfold afterTotals. destruct (totals m) as [t |].
    - rewrite renormalize_rescale, adjustTotals_reweight, Hbase.
      apply conditioning_step.
      + intro sp. now apply totalsFactor_ge_half.
      + now apply baseDistribution_nonneg.
      + now apply baseDistribution_total.
    - rewrite Hbase.
      split; [now apply baseDistribution_nonneg | now apply baseDistribution_total]. }
  split; [exact renormalize_rescale | split; [| split]].
  - rewrite oddsToProbabilities_pipeline, Hw. reflexivity.
  - intros t Et. rewrite Et in Ht. cbn [valid_totals_opt] in Ht.
    rewrite adjustTotals_reweight, Hbase.
    destruct (@renormalize_after_reweight (totalsFactor t) (baseDistribution w))
      as [Hhalf Hone].
    + intro sp. now apply totalsFactor_ge_half.
    + now apply baseDistribution_nonneg.
    + now apply baseDistribution_total.
    + split; [exact Hhalf | split; [exact Hone |]].
      intro Hp. destruct Ht as (Ho & Hu).
      pose proof (implied_pos Ho) as Hio. pose proof (implied_pos Hu) as Hiu.
      unfold impliedProbability in Hio, Hiu.
      rewrite withTotals_renormalize_adjust by lra.
      now rewrite adjustTotals_reweight, (oddsToScoreProbabilities_base Hv).
  - intros b Eb. rewrite Eb in Hb. cbn [valid_btts_opt] in Hb.
    rewrite adjustBTTS_reweight.
    apply renormalize_after_reweight; [| apply Hafter | apply Hafter].
    intro sp. now apply bttsFactor_ge_half.
Qed.

Lemma renormalize_divides_by_sum_witness :
  let m := markets h2h_2_3_4 (Some totals_2_5) (Some btts_yes_favoured) in
  let base :=
    oddsToScoreProbabilities
      (home h2h_2_3_4) (draw h2h_2_3_4) (away h2h_2_3_4) in
  let afterTotals :=
    match totals m with
    | Some t => renormalize (adjustTotals t base)
    | None => base
    end in
  (forall l : list (ScoreProbability R),
      renormalize l
      = map (fun sp =>
               {| home_score := home_score sp;
                  away_score := away_score sp;
                  probability := probability sp / totalProbability l |}) l)
  /\ oddsToProbabilities m
     = match bothTeamsToScore m with
       | Some b => renormalize (adjustBTTS b afterTotals)
       | None => afterTotals
       end
  /\ (forall t, totals m = Some t ->
        1 / 2 <= sumProbability (adjustTotals t base)
        /\ sumProbability (renormalize (adjustTotals t base)) = 1
        /\ (point t <> 0 ->
            oddsToScoreProbabilitiesWithTotals
              (home h2h_2_3_4) (draw h2h_2_3_4) (away h2h_2_3_4)
              (Some (point t)) (Some (over t)) (Some (under t))
            = renormalize (adjustTotals t base)))
  /\ (forall b, bothTeamsToScore m = Some b ->
        1 / 2 <= sumProbability (adjustBTTS b afterTotals)
        /\ sumProbability (renormalize (adjustBTTS b afterTotals)) = 1).
Proof.
  apply (@renormalize_divides_by_sum
           (markets h2h_2_3_4 (Some totals_2_5) (Some btts_yes_favoured))
           h2h_2_3_4 eq_refl).
  - unfold valid_h2h, h2h_2_3_4; cbn [home away draw]. repeat split; lra.
  - unfold valid_totals_opt, valid_totals, markets, totals_2_5;
      cbn [totals over under]. split; lra.
  - unfold valid_btts_opt, valid_btts, markets, btts_yes_favoured;
      cbn [bothTeamsToScore yes no]. split; lra.
Defined.

(** C9.  In exact arithmetic, for every win market and every totals market
    whose point, over and under are non-zero, the narrow variant
    [oddsToScoreProbabilitiesWithTotals] returns the distribution that
    [oddsToProbabilities] returns on the markets holding that win and totals
    market: its below-point factor [0.5 + normUnder·0.5] is the aggregate
    path's [0.5 + (1 − normOver)·0.5].  The implied over and under
    probabilities must not cancel (odds of equal size and opposite sign,
    which the data model has not): there both paths of the program divide by
    zero alike, which the reals cannot express. *)
Theorem narrow_variant_agrees (w : H2H R) (t : Totals R) :
  point t <> 0 ->
  over t <> 0 ->
  under t <> 0 ->
  1 / over t + 1 / under t <> 0 ->
  oddsToScoreProbabilitiesWithTotals (home w) (draw w) (away w)
    (Some (point t)) (Some (over t)) (Some (under t))
  = oddsToProbabilities (winAndTotals w t)
  /\ 0.5 + (1 / under t / (1 / over t + 1 / under t)) * 0.5
     = 0.5 + (1 - 1 / over t / (1 / over t + 1 / under t)) * 0.5.
Proof.
  intros Hp Ho Hu Hsum. split.
  - rewrite withTotals_renormalize_adjust by assumption.
    rewrite oddsToProbabilities_pipeline. reflexivity.
  - set (x := 1 / over t) in *. set (y := 1 / under t) in *.
    f_equal. f_equal. field. exact Hsum.
Qed.

Lemma narrow_variant_agrees_witness :
  oddsToScoreProbabilitiesWithTotals
    (home h2h_2_3_4) (draw h2h_2_3_4) (away h2h_2_3_4)
    (Some (point totals_2_5)) (Some (over totals_2_5)) (Some (under totals_2_5))
  = oddsToProbabilities (winAndTotals h2h_2_3_4 totals_2_5)
  /\ 0.5 + (1 / under totals_2_5
            / (1 / over totals_2_5 + 1 / under totals_2_5)) * 0.5
     = 0.5 + (1 - 1 / over totals_2_5
                  / (1 / over totals_2_5 + 1 / under totals_2_5)) * 0.5.
Proof.
  apply (@narrow_variant_agrees h2h_2_3_4 totals_2_5);
    unfold totals_2_5; cbn [point over under]; lra.
Defined.

End Renormalisation.

(** ** The market normaliser *)

Section Normaliser.

Context {num : Type} `{JSNumber num}.

(** The win market is passed through. *)
Lemma generateMissingMarkets_h2h (match_ : Match.t num) :
  h2h (generateMissingMarkets match_) = Match.h2h match_.
Proof.
  unfold generateMissingMarkets. cbv zeta. cbn [bothTeamsToScore correctScore].
  destruct (Match.totals match_), (Match.h2h match_); reflexivity.
Qed.

(** A totals market that is present is passed through; an absent one is
    synthesised exactly when there is a win market. *)
Lemma generateMissingMarkets_totals (match_ : Match.t num) :
  match Match.totals match_, Match.h2h match_ with
  | Some t, _ => totals (generateMissingMarkets match_) = Some t
  | None, Some _ => totals (generateMissingMarkets match_) <> None
  | None, None => totals (generateMissingMarkets match_) = None
  end.
Proof.
  unfold generateMissingMarkets. cbv zeta. cbn [bothTeamsToScore correctScore].
  destruct (Match.totals match_), (Match.h2h match_);
    cbn [totals]; try reflexivity; discriminate.
Qed.

(** Both-teams-to-score odds are synthesised for every input, under every
    arithmetic, with the operands in the order the code has them. *)
Lemma generateMissingMarkets_bothTeamsToScore (match_ : Match.t num) :
  let homeProb :=
    match Match.h2h match_ with
    | Some w => js_div (int 1) (home w)
    | None => dec 33 100
    end in
  let awayProb :=
    match Match.h2h match_ with
    | Some w => js_div (int 1) (away w)
    | None => dec 33 100
    end in
  let teamBalance :=
    js_div (Math_min homeProb awayProb) (Math_max homeProb awayProb) in
  let avgWinProb := js_div (js_add homeProb awayProb) (int 2) in
  let bttsProb :=
    js_add (js_add (dec 4 10) (js_mul teamBalance (dec 3 10)))
           (js_mul avgWinProb (dec 2 10)) in
  bothTeamsToScore (generateMissingMarkets match_)
  = Some {| yes := js_mul (js_div (int 1) bttsProb) (dec 105 100);
            no := js_mul (js_div (int 1) (js_sub (int 1) bttsProb))
                         (dec 105 100) |}.
Proof.
  cbv zeta. unfold generateMissingMarkets. cbv zeta.
  cbn [bothTeamsToScore correctScore].
  destruct (Match.totals match_), (Match.h2h match_); reflexivity.
Qed.

(** With a win market, correct-score odds are synthesised for the same 16
    labels, in the same order, whatever the odds and the arithmetic. *)
Lemma generateMissingMarkets_correctScore_labels
    (w : H2H num) (t : option (Totals num)) :
  option_map (fun c => map (@score num) (scores c))
    (correctScore
       (generateMissingMarkets {| Match.h2h := Some w; Match.totals := t |}))
  = Some [ "0-0"; "1-0"; "0-1"; "1-1"; "2-0"; "0-2"; "2-1"; "1-2";
           "2-2"; "3-0"; "0-3"; "3-1"; "1-3"; "3-2"; "4-0"; "0-4" ]%string.
Proof.
  unfold generateMissingMarkets. cbv zeta.
  cbn [Match.h2h Match.totals bothTeamsToScore correctScore].
  destruct t; reflexivity.
Qed.

(** Without a win market no correct-score odds are synthesised, and
    both-teams-to-score odds always are. *)
Lemma generateMissingMarkets_without_h2h (t : option (Totals num)) :
  correctScore
    (generateMissingMarkets {| Match.h2h := None; Match.totals := t |}) = None
  /\ totals (generateMissingMarkets {| Match.h2h := None; Match.totals := t |})
     = t
  /\ bothTeamsToScore
       (generateMissingMarkets {| Match.h2h := None; Match.totals := t |})
     <> None.
Proof.
  unfold generateMissingMarkets. cbv zeta.
  cbn [Match.h2h Match.totals bothTeamsToScore correctScore].
  destruct t; cbn [correctScore totals bothTeamsToScore];
    repeat split; discriminate.
Qed.

(** C4. [generateMissingMarkets] is idempotent under every arithmetic:
    feeding its output back in returns that output unchanged.  The win
    market is passed through unchanged, a totals market that is present is
    passed through unchanged, and the synthesised markets come out identical
    on the second call. *)
Theorem generateMissingMarkets_idempotent (match_ : Match.t num) :
  generateMissingMarkets (asMatch (generateMissingMarkets match_))
  = generateMissingMarkets match_
  /\ h2h (generateMissingMarkets match_) = Match.h2h match_
  /\ match Match.totals match_ with
     | Some t => totals (generateMissingMarkets match_) = Some t
     | None => True
     end.
Proof.
  split; [| split].
  - unfold asMatch.
    destruct match_ as [[w |] [t |]]; reflexivity.
  - apply generateMissingMarkets_h2h.
  - pose proof (generateMissingMarkets_totals match_) as Ht.
    destruct (Match.totals match_); [| exact I].
    exact Ht.
Qed.

End Normaliser.

Section Synthesis.

Local Open Scope R_scope.

(** C6. Both-teams-to-score is absent from the market object
    [generateMissingMarkets] starts from, so it is synthesised for every
    input: with [homeImpliedProb = 1/homeOdds] and [awayImpliedProb =
    1/awayOdds] (both 0.33 when there is no win market), [balance] their
    min over their max and [avgWinProb] their mean, [bttsProbability = 0.4 +
    0.3·balance + 0.2·avgWinProb], and the odds are [(1/bttsProbability)·1.05]
    for yes and [(1/(1 − bttsProbability))·1.05] for no. *)
Theorem bothTeamsToScore_synthesis (match_ : Match.t R) :
  let homeImpliedProb :=
    match Match.h2h match_ with
    | Some w => impliedProbability (home w)
    | None => 0.33
    end in
  let awayImpliedProb :=
    match Match.h2h match_ with
    | Some w => impliedProbability (away w)
    | None => 0.33
    end in
  let balance :=
    Rmin homeImpliedProb awayImpliedProb / Rmax homeImpliedProb awayImpliedProb in
  let avgWinProb := (homeImpliedProb + awayImpliedProb) / 2 in
  let bttsProbability := 0.4 + 0.3 * balance + 0.2 * avgWinProb in
  bothTeamsToScore (generateMissingMarkets match_)
  = Some {| yes := (1 / bttsProbability) * 1.05;
            no := (1 / (1 - bttsProbability)) * 1.05 |}.
Proof.
  cbv zeta. rewrite generateMissingMarkets_bothTeamsToScore.
  unfold impliedProbability.
  destruct (Match.h2h match_) as [w |]; js_R;
    try change 0.33 with (33 / 100);
    do 2 f_equal; (f_equal; first [lra | f_equal; lra]).
Qed.

End Synthesis.

Section CorrectScoreSynthesis.

Local Open Scope R_scope.

Lemma inverted_odds (p q t t' : R) :
  p = q -> t = t' ->
  js_mul (js_div (int 1) (js_div p t)) (dec 11 10) = applyMargin (q / t') 1.10.
Proof. intros -> ->. unfold applyMargin. js_R. f_equal. lra. Qed.

Lemma impliedOf_default_pos (w : H2H R) (c : OutcomeClass) :
  valid_h2h w -> 0 < impliedOf 0.34 w c.
Proof.
  intros (Hh & Ha & Hd). destruct c; cbn [impliedOf].
  - apply implied_pos. lra.
  - destruct (draw w); [apply implied_pos |]; lra.
  - apply implied_pos. lra.
Qed.

Lemma preNormalization_total_pos (w : H2H R) :
  valid_h2h w -> 0 < sumR (map snd (preNormalization w)).
Proof.
  intro Hv.
  pose proof (impliedOf_default_pos HomeWin Hv) as Hh.
  pose proof (impliedOf_default_pos Draw Hv) as Hd.
  pose proof (impliedOf_default_pos AwayWin Hv) as Ha.
  unfold preNormalization, correctScoreCatalogue, priced, sumR.
  cbn [map snd fold_right sourceProbability]. lra.
Qed.

(** Dividing the elements of a list by its non-zero sum gives sum 1. *)
Lemma sumR_divide (s : R) (l : list R) :
  sumR (map (fun x => x / s) l) = sumR l / s.
Proof.
  unfold sumR. induction l as [| x l IH]; cbn [map fold_right].
  - unfold Rdiv. lra.
  - rewrite IH. unfold Rdiv. lra.
Qed.

(** C7, as amended.  For every input with a well-formed win market,
    [generateMissingMarkets] synthesises correct-score odds for 16
    catalogued scorelines.  Fifteen of them get a pre-normalisation
    probability equal to one implied probability (home, away or draw, the
    draw defaulting to 0.34 without draw odds) times a fixed weight; the
    scoreline 3-2 gets the sum of the home and away implied probabilities
    times 0.05.  The 16 values are normalised to sum to 1 and inverted with
    a 1.10 margin factor. *)
Theorem correctScore_synthesis (match_ : Match.t R) (w : H2H R) :
  Match.h2h match_ = Some w ->
  valid_h2h w ->
  let pre := preNormalization w in
  let total := sumR (map snd pre) in
  correctScore (generateMissingMarkets match_)
  = Some {| scores :=
              map (fun e => {| score := fst e;
                               odds := applyMargin (snd e / total) 1.10 |})
                  pre |}
  /\ pre = map (fun e => let '(label, s, wt) := e in
                         (label, sourceProbability w s * wt))
               correctScoreCatalogue
  /\ List.length pre = 16%nat
  /\ sumR (map (fun e => snd e / total) pre) = 1.
Proof.
  intros Hw Hv pre total.
  pose proof (preNormalization_total_pos Hv) as Hpos. fold pre total in Hpos.
  split; [| split; [reflexivity | split; [reflexivity |]]].
  - unfold generateMissingMarkets. cbv zeta. rewrite Hw.
    cbn [bothTeamsToScore correctScore].
    set (drawProb := match draw w with
                     | Some d => if truthy d then js_div (int 1) d else dec 34 100
                     | None => dec 34 100
                     end).
    assert (Hd : drawProb = impliedOf 0.34 w Draw).
    { destruct Hv as (_ & _ & Hd). unfold drawProb. cbn [impliedOf].
      destruct (draw w) as [d |]; js_R.
      - rewrite R_truthy_nonzero by lra. reflexivity.
      - lra. }
    assert (Htotal :
      fold_left (fun sum s => js_add sum (cs_prob s))
        (commonScores (js_div (int 1) (home w)) (js_div (int 1) (away w)) drawProb)
        (int 0) = total).
    { rewrite Hd. unfold total, pre, preNormalization, correctScoreCatalogue,
        priced, sumR, commonScores.
      cbn [map snd fold_right fold_left cs_prob sourceProbability impliedOf].
      unfold impliedProbability. js_R. lra. }
    destruct (Match.totals match_) as [t |]; cbn [correctScore];
      rewrite Htotal, Hd;
      unfold pre, preNormalization, correctScoreCatalogue, priced, commonScores;
      cbn [map fst snd cs_score cs_prob sourceProbability impliedOf];
      unfold impliedProbability;
      do 2 f_equal;
      repeat (apply f_equal2;
              [f_equal; apply inverted_odds; [js_R; lra | reflexivity] |]);
      reflexivity.
  - rewrite <- (map_map snd (fun x => x / total)), sumR_divide.
    fold total. unfold Rdiv. apply Rinv_r. lra.
Qed.

End CorrectScoreSynthesis.

Section CorrectScoreCounterexample.

Local Open Scope R_scope.

Lemma correctScore_synthesis_witness :
  let pre := preNormalization h2h_2_3_4 in
  let total := sumR (map snd pre) in
  correctScore (generateMissingMarkets (matchOf h2h_2_3_4))
  = Some {| scores :=
              map (fun e => {| score := fst e;
                               odds := applyMargin (snd e / total) 1.10 |})
                  pre |}
  /\ pre = map (fun e => let '(label, s, wt) := e in
                         (label, sourceProbability h2h_2_3_4 s * wt))
               correctScoreCatalogue
  /\ List.length pre = 16%nat
  /\ sumR (map (fun e => snd e / total) pre) = 1.
Proof.
  apply (@correctScore_synthesis (matchOf h2h_2_3_4) h2h_2_3_4).
  - reflexivity.
  - unfold valid_h2h, h2h_2_3_4; cbn [home away draw]. repeat split; lra.
Defined.

(** What the code gives the scoreline 3-2 before normalisation. *)
Lemma preNormalizationOf_3_2 (w : H2H R) :
  preNormalizationOf w "3-2" = Some ((1 / home w + 1 / away w) * (5 / 100)).
Proof.
  unfold preNormalizationOf, commonScores. cbv zeta.
  cbn [find cs_score String.eqb Ascii.eqb Bool.eqb andb option_map cs_prob].
  js_R. reflexivity.
Qed.

(** C7 as stated fails for the scoreline 3-2: its pre-normalisation
    probability is the home and away implied probabilities together times
    0.05, and no single class with a fixed weight gives that value on every
    win market. *)
Lemma score_3_2_is_not_single_class :
  preNormalizationOf h2h_2_4_4 "3-2" = Some ((1 / 2 + 1 / 4) * 0.05)
  /\ ~ singleClassTimesWeight "3-2".
Proof.
  assert (V1 : valid_h2h h2h_2_4_4)
    by (unfold valid_h2h, h2h_2_4_4; cbn [home away draw]; repeat split; lra).
  assert (V2 : valid_h2h h2h_4_4_2)
    by (unfold valid_h2h, h2h_4_4_2; cbn [home away draw]; repeat split; lra).
  assert (V3 : valid_h2h h2h_2_2_4)
    by (unfold valid_h2h, h2h_2_2_4; cbn [home away draw]; repeat split; lra).
  split.
  - rewrite preNormalizationOf_3_2. cbn [h2h_2_4_4 home away]. f_equal; lra.
  - intros (c & wt & Hall).
    pose proof (Hall _ V1) as H1. pose proof (Hall _ V2) as H2.
    pose proof (Hall _ V3) as H3.
    rewrite preNormalizationOf_3_2 in H1, H2, H3.
    injection H1 as H1. injection H2 as H2. injection H3 as H3.
    unfold impliedProbability in *.
    destruct c;
      cbn [impliedOf h2h_2_4_4 h2h_4_4_2 h2h_2_2_4 home away draw] in H1, H2, H3;
      unfold impliedProbability in *; lra.
Qed.

End CorrectScoreCounterexample.

(** ** Under binary64 *)

Section Binary64.

Local Open Scope float_scope.

(** The decimal literals of the source, built by [dec], are the doubles the
    literals denote. *)
Lemma float_literals :
  (dec 35 100 : float) = 0.35 /\ (dec 20 100 : float) = 0.20
  /\ (dec 18 100 : float) = 0.18 /\ (dec 10 100 : float) = 0.10
  /\ (dec 4 100 : float) = 0.04 /\ (dec 3 100 : float) = 0.03
  /\ (dec 30 100 : float) = 0.30 /\ (dec 40 100 : float) = 0.40
  /\ (dec 5 10 : float) = 0.5 /\ (dec 33 100 : float) = 0.33
  /\ (dec 34 100 : float) = 0.34 /\ (dec 105 100 : float) = 1.05
  /\ (dec 11 10 : float) = 1.1 /\ (dec 25 10 : float) = 2.5
  /\ (dec 4 10 : float) = 0.4 /\ (dec 3 10 : float) = 0.3
  /\ (dec 2 10 : float) = 0.2 /\ (dec 15 100 : float) = 0.15
  /\ (dec 12 100 : float) = 0.12 /\ (dec 8 100 : float) = 0.08
  /\ (dec 1 10 : float) = 0.1 /\ (dec 5 100 : float) = 0.05.
Proof. repeat split; reflexivity. Qed.

(** The specification's worked scenario as the program computes it: the
    entry for 1-0 is 0.1615..., and the 18 doubles add up to 1 within 1e-9
    (they add up to 1.0000000000000002). *)
Lemma scenario_2_3_4_binary64 :
  let d := oddsToProbabilities
             {| h2h := Some f_h2h_2_3_4; totals := None;
                bothTeamsToScore := None; correctScore := None |} in
  List.length d = 18%nat
  /\ map (@probability float) (firstn 1 d) = [0.16153846153846155]
  /\ sumProbability d = 1.0000000000000002
  /\ PrimFloat.ltb (PrimFloat.abs (sumProbability d - 1)) 1e-9 = true.
Proof. cbv zeta. repeat split; vm_compute; reflexivity. Qed.

(** C8 as stated fails: the renormalisation has no zero-sum guard.  Given
    a zero-sum list it divides 0 by 0: the list it returns is not the list
    it was given, all its probabilities are NaN. *)
Lemma renormalize_zero_sum_is_not_unchanged :
  sumProbability f_zero_sum = 0
  /\ forallb (fun sp => PrimFloat.is_nan (probability sp))
       (renormalize f_zero_sum) = true
  /\ map (@home_score float) (renormalize f_zero_sum)
     = map (@home_score float) f_zero_sum
  /\ renormalize f_zero_sum <> f_zero_sum.
Proof.
  split; [| split; [| split]]; try (vm_compute; reflexivity).
  intro Heq.
  apply (f_equal (forallb (fun sp => PrimFloat.is_nan (probability sp))))
    in Heq.
  vm_compute in Heq. discriminate Heq.
Qed.

(** No well-formed market leads there; odds outside the data model do.
    With the negative under price below every reweighted probability is 0,
    and the distributor returns NaN throughout. *)
Lemma zero_sum_from_malformed_odds :
  let l := adjustTotals f_totals_zero_sum
             (oddsToScoreProbabilities (home f_h2h_2_2) (draw f_h2h_2_2)
                (away f_h2h_2_2)) in
  sumProbability l = 0
  /\ oddsToProbabilities (f_winAndTotals f_h2h_2_2 f_totals_zero_sum)
     = renormalize l
  /\ forallb (fun sp => PrimFloat.is_nan (probability sp)) (renormalize l)
     = true.
Proof.
  cbv zeta. split; [| split]; vm_compute; reflexivity.
Qed.

(** Under binary64 the two paths agree up to rounding only: [normUnder] and
    [1 − normOver] are rounded differently, and the doubles returned can
    differ in the last place (here at the entry for 1-1). *)
Lemma narrow_variant_differs_in_binary64 :
  let narrow :=
    oddsToScoreProbabilitiesWithTotals
      (home f_h2h_2_3_4) (draw f_h2h_2_3_4) (away f_h2h_2_3_4)
      (Some (point f_totals_2_5)) (Some (over f_totals_2_5))
      (Some (under f_totals_2_5)) in
  let aggregate :=
    oddsToProbabilities (f_winAndTotals f_h2h_2_3_4 f_totals_2_5) in
  float_truthy (point f_totals_2_5) = true
  /\ float_truthy (over f_totals_2_5) = true
  /\ float_truthy (under f_totals_2_5) = true
  /\ map (@probability float) (firstn 1 (skipn 8 narrow))
     = [0.11829944547134934]
  /\ map (@probability float) (firstn 1 (skipn 8 aggregate))
     = [0.11829944547134932]
  /\ narrow <> aggregate.
Proof.
  cbv zeta. repeat split; try (vm_compute; reflexivity).
  intro Heq.
  apply (f_equal
           (fun l => map (fun sp => PrimFloat.eqb (probability sp)
                                      0.11829944547134934)
                         (firstn 1 (skipn 8 l)))) in Heq.
  vm_compute in Heq. discriminate Heq.
Qed.

(** The integer-point case under binary64: with balanced odds at point 2
    the entry for 1-0 drops from 0.1615... to 0.1485..., far beyond any
    rounding. *)
Lemma neutral_totals_at_integer_point_binary64 :
  map (@probability float)
      (firstn 1 (oddsToProbabilities (f_winOnly f_h2h_2_3_4)))
  = [0.16153846153846155]
  /\ map (@probability float)
         (firstn 1 (oddsToProbabilities
                      (f_winAndTotals f_h2h_2_3_4 f_neutral_at_2)))
     = [0.14858490566037733].
Proof. split; vm_compute; reflexivity. Qed.

(** The synthesis scenario of the specification under binary64 (odds 1.80 /
    3.40 / 4.50), and the 0.33 / 0.33 default without a win market. *)
Lemma synthesis_scenario_binary64 :
  bothTeamsToScore
    (generateMissingMarkets
       {| Match.h2h := Some f_h2h_180_340_450; Match.totals := None |})
  = Some {| yes := 1.7565055762081785; no := 2.6104972375690605 |}
  /\ totals
       (generateMissingMarkets
          {| Match.h2h := Some f_h2h_180_340_450; Match.totals := None |})
     = Some {| point := 2.5; over := 2.6466227347611202;
               under := 1.7405200433369445 |}
  /\ bothTeamsToScore
       (generateMissingMarkets
          {| Match.h2h := @None (H2H float); Match.totals := None |})
     = Some {| yes := 1.370757180156658; no := 4.487179487179487 |}.
Proof. repeat split; vm_compute; reflexivity. Qed.

(** A two-way market under binary64: the four draw entries are exactly 0. *)
Lemma two_way_market_binary64 :
  map (fun sp => (home_score sp, away_score sp, probability sp))
      (firstn 4 (skipn 7 (oddsToProbabilities (f_winOnly f_h2h_2_2))))
  = [ (0, 0, 0); (1, 1, 0); (2, 2, 0); (3, 3, 0) ].
Proof. vm_compute. reflexivity. Qed.

End Binary64.

(** ** Further properties of the distributor *)

Section ScorelinesFixed.

Context {num : Type} `{JSNumber num}.

Lemma scoresOf_renormalize (l : list (ScoreProbability num)) :
  scoresOf (renormalize l) = scoresOf l.
Proof.
  unfold scoresOf, renormalize. rewrite map_map. reflexivity.
Qed.

Lemma scoresOf_adjustTotals (t : Totals num) (l : list (ScoreProbability num)) :
  scoresOf (adjustTotals t l) = scoresOf l.
Proof.
  unfold scoresOf, adjustTotals. cbv zeta. rewrite map_map.
  apply map_ext. intro sp.
  destruct (js_gt _ _); [reflexivity |]. destruct (js_lt _ _); reflexivity.
Qed.

Lemma scoresOf_adjustBTTS (b : BothTeamsToScore num)
    (l : list (ScoreProbability num)) :
  scoresOf (adjustBTTS b l) = scoresOf l.
Proof.
  unfold scoresOf, adjustBTTS. cbv zeta. rewrite map_map.
  apply map_ext. intro sp. destruct (_ && _); reflexivity.
Qed.

Lemma scoresOf_oddsToScoreProbabilities (h : num) (d : option num) (a : num) :
  scoresOf (oddsToScoreProbabilities h d a) = catalogueScores.
Proof. reflexivity. Qed.

(** X1. Under every arithmetic, with a win market present, both entry points
    return the same 18 scorelines in the same order (the home-win table, then
    the draw table, then the away-win table), whatever the odds and whatever
    other markets are present: conditioning changes probabilities only. *)
Theorem scorelines_are_fixed :
  (forall (w : H2H num) (t : option (Totals num))
          (b : option (BothTeamsToScore num)) (c : option (CorrectScore num)),
      scoresOf
        (oddsToProbabilities
           {| h2h := Some w; totals := t; bothTeamsToScore := b;
              correctScore := c |})
      = catalogueScores)
  /\ (forall (h : num) (d : option num) (a : num) (p o u : option num),
         scoresOf (oddsToScoreProbabilitiesWithTotals h d a p o u)
         = catalogueScores)
  /\ List.length (@catalogueScores num _) = 18%nat.
Proof.
  split; [| split].
  - intros w t b c. rewrite oddsToProbabilities_pipeline.
    cbn [h2h totals bothTeamsToScore]. cbv zeta.
    destruct t, b;
      rewrite ?scoresOf_renormalize, ?scoresOf_adjustBTTS,
        ?scoresOf_renormalize, ?scoresOf_adjustTotals;
      apply scoresOf_oddsToScoreProbabilities.
  - intros h d a p o u. unfold oddsToScoreProbabilitiesWithTotals. cbv zeta.
    destruct p as [p |]; [| apply scoresOf_oddsToScoreProbabilities].
    destruct o as [o |]; [| apply scoresOf_oddsToScoreProbabilities].
    destruct u as [u |]; [| apply scoresOf_oddsToScoreProbabilities].
    destruct (_ && _); [| apply scoresOf_oddsToScoreProbabilities].
    rewrite scoresOf_renormalize.
    unfold scoresOf. rewrite map_map.
    change (map (fun sp => (home_score sp, away_score sp))
                (oddsToScoreProbabilities h d a))
      with (scoresOf (oddsToScoreProbabilities h d a)).
    rewrite <- (scoresOf_oddsToScoreProbabilities h d a).
    unfold scoresOf. apply map_ext. intro sp.
    destruct (js_gt _ _); [reflexivity |]. destruct (js_lt _ _); reflexivity.
  - reflexivity.
Qed.

(** X3. Under every arithmetic, draw odds that are falsy (zero or NaN) are
    treated exactly as missing draw odds by both entry points of the
    distributor. *)
Theorem falsy_draw_odds_count_as_missing
    (h d a : num) (t : option (Totals num))
    (b : option (BothTeamsToScore num)) (c : option (CorrectScore num)) :
  truthy d = false ->
  oddsToScoreProbabilities h (Some d) a = oddsToScoreProbabilities h None a
  /\ oddsToProbabilities
       {| h2h := Some {| home := h; draw := Some d; away := a |};
          totals := t; bothTeamsToScore := b; correctScore := c |}
     = oddsToProbabilities
         {| h2h := Some {| home := h; draw := None; away := a |};
            totals := t; bothTeamsToScore := b; correctScore := c |}.
Proof.
  intro Hd.
  assert (Hbase : oddsToScoreProbabilities h (Some d) a
                  = oddsToScoreProbabilities h None a).
  { unfold oddsToScoreProbabilities. rewrite Hd. reflexivity. }
  split; [exact Hbase |].
  rewrite !oddsToProbabilities_pipeline.
  cbn [h2h totals bothTeamsToScore home draw away]. cbv zeta.
  rewrite Hbase. reflexivity.
Qed.

End ScorelinesFixed.

Section ScorelinesWitnesses.

Local Open Scope float_scope.

Lemma falsy_draw_odds_count_as_missing_witness :
  oddsToScoreProbabilities 2 (Some 0) 4 = oddsToScoreProbabilities 2 None 4
  /\ oddsToProbabilities
       {| h2h := Some {| home := 2; draw := Some 0; away := 4 |};
          totals := None; bothTeamsToScore := None; correctScore := None |}
     = oddsToProbabilities
         {| h2h := Some {| home := 2; draw := None; away := 4 |};
            totals := None; bothTeamsToScore := None; correctScore := None |}.
Proof.
  apply (@falsy_draw_odds_count_as_missing float _ 2 0 4 None None None).
  vm_compute. reflexivity.
Defined.

End ScorelinesWitnesses.

Section PointZero.

Local Open Scope R_scope.

(** With a totals point of 0 the scoreline 0-0 keeps its weight and every
    other catalogued scoreline is scaled by the over factor. *)
Lemma totalsFactor_at_point_0 (t : Totals R) (sp : ScoreProbability R) :
  point t = 0 ->
  (totalGoals sp = 0 -> totalsFactor t sp = 1)
  /\ (0 < totalGoals sp -> totalsFactor t sp = 0.5 + 0.5 * normOverOf t).
Proof.
  intro Hp. unfold totalsFactor. rewrite Hp.
  destruct (Rlt_dec _ _); [split; intro; [lra | reflexivity] |].
  destruct (Rlt_dec _ _); split; intro; lra.
Qed.

(** In a two-way market every scoreline of positive probability has at
    least one goal. *)
Lemma two_way_mass_has_goals (w : H2H R) :
  draw w = None ->
  Forall (fun sp => 0 < totalGoals sp \/ probability sp = 0)
    (baseDistribution w).
Proof.
  intro Hd.
  unfold baseDistribution, distribute, awayWinCatalogue, homeWinCatalogue,
    drawCatalogue, scoreline, totalGoals, normalizedOf, impliedOf.
  rewrite Hd. cbn [map app].
  repeat apply Forall_cons; try apply Forall_nil;
    cbn [home_score away_score probability];
    first [left; lra | right; lra].
Qed.

(** X2. A totals point of 0 is where the two entry points of the
    distributor part.  The narrow variant reads a point of 0 as no totals
    market and returns the distribution of the win market alone;
    [oddsToProbabilities] conditions on it.  For well-formed markets, in
    exact arithmetic, the two results differ whenever the win market has
    draw odds (0-0 keeps its weight, every other scoreline is scaled by the
    over factor, which is below 1) and coincide when it has none (0-0 has
    no mass, so the scaling is uniform and the renormalisation undoes
    it). *)
Theorem totals_point_zero_parts_the_paths (w : H2H R) (t : Totals R) :
  valid_h2h w ->
  valid_totals t ->
  point t = 0 ->
  let narrow :=
    oddsToScoreProbabilitiesWithTotals (home w) (draw w) (away w)
      (Some (point t)) (Some (over t)) (Some (under t)) in
  narrow = oddsToProbabilities (winOnly w)
  /\ (draw w <> None -> oddsToProbabilities (winAndTotals w t) <> narrow)
  /\ (draw w = None -> oddsToProbabilities (winAndTotals w t) = narrow).
Proof.
  intros Hv Ht Hp narrow.
  assert (Hnarrow : narrow = baseDistribution w).
  { unfold narrow, oddsToScoreProbabilitiesWithTotals. cbv zeta. js_R.
    assert (Htr : R_truthy (point t) = false).
    { unfold R_truthy.
      destruct (Req_dec_T (point t) 0); [reflexivity | contradiction]. }
    rewrite Htr. cbn [andb]. now apply oddsToScoreProbabilities_base. }
  rewrite Hnarrow.
  rewrite (@oddsToProbabilities_conditioned (winAndTotals w t) w eq_refl Hv),
    (@oddsToProbabilities_conditioned (winOnly w) w eq_refl Hv).
  cbn [winAndTotals winOnly totals bothTeamsToScore]. cbv zeta.
  unfold conditionOnTotals.
  destruct Ht as (Ho & Hu). pose proof (implied_share_bounds Ho Hu) as Hn.
  fold (normOverOf t) in Hn.
  split; [reflexivity | split].
  - (* three-way: 0-0 and 1-0 both carry mass, with different factors *)
    intros Hd Heq. apply conditioning_fixed in Heq.
    set (S := totalProbability _) in Heq. clearbody S.
    rewrite Forall_forall in Heq.
    pose proof (implied_total_pos Hv) as Htot.
    assert (Hh : 0 < normalizedOf w HomeWin).
    { unfold normalizedOf. apply Rdiv_lt_0_compat; [| exact Htot].
      cbn [impliedOf]. apply implied_pos. destruct Hv as (Hh & _). lra. }
    assert (Hdr : 0 < normalizedOf w Draw).
    { unfold normalizedOf. apply Rdiv_lt_0_compat; [| exact Htot].
      cbn [impliedOf]. destruct Hv as (_ & _ & Hd').
      destruct (draw w) as [d |]; [| contradiction].
      apply implied_pos. lra. }
    assert (H00 : In {| home_score := 0; away_score := 0;
                        probability := normalizedOf w Draw * 0.30 |}
                     (baseDistribution w)).
    { unfold baseDistribution, distribute, homeWinCatalogue, drawCatalogue,
        scoreline. cbn [map app In]. do 7 right. left. reflexivity. }
    assert (H10 : In {| home_score := 1; away_score := 0;
                        probability := normalizedOf w HomeWin * 0.35 |}
                     (baseDistribution w)).
    { unfold baseDistribution, distribute, homeWinCatalogue, scoreline.
      cbn [map app In]. left. reflexivity. }
    apply Heq in H00. apply Heq in H10. cbv beta in H00, H10.
    rewrite (proj1 (@totalsFactor_at_point_0 t
               {| home_score := 0; away_score := 0;
                  probability := normalizedOf w Draw * 0.30 |} Hp))
      in H00 by (unfold totalGoals; cbn [home_score away_score]; lra).
    rewrite (proj2 (@totalsFactor_at_point_0 t
               {| home_score := 1; away_score := 0;
                  probability := normalizedOf w HomeWin * 0.35 |} Hp))
      in H10 by (unfold totalGoals; cbn [home_score away_score]; lra).
    cbn [probability] in H00, H10.
    set (nd := normalizedOf w Draw) in *.
    set (nh := normalizedOf w HomeWin) in *.
    set (no := normOverOf t) in *.
    destruct (Req_dec_T S 0) as [HS | HS].
    + rewrite HS in H00. unfold Rdiv in H00. rewrite Rinv_0 in H00. lra.
    + pose proof (Rinv_l S HS) as HiS. unfold Rdiv in H00, H10.
      set (iS := / S) in *.
      assert (HiS1 : iS = 1) by nra.
      rewrite HiS1 in H10. nra.
  - (* two-way: the scaling is uniform on the scorelines that carry mass *)
    intro Hd.
    rewrite (@reweight_ext (totalsFactor t)
               (fun _ => 0.5 + 0.5 * normOverOf t)).
    + apply rescale_reweight_const with (c := 0.5 + 0.5 * normOverOf t).
      * lra.
      * apply Forall_forall. reflexivity.
      * now apply baseDistribution_total.
    + eapply Forall_impl; [| exact (two_way_mass_has_goals w Hd)].
      intros sp [Hgoals | Hzero]; cbv beta.
      * now rewrite (proj2 (@totalsFactor_at_point_0 t sp Hp) Hgoals).
      * rewrite Hzero. lra.
Qed.

Lemma totals_point_zero_parts_the_paths_witness :
  let narrow :=
    oddsToScoreProbabilitiesWithTotals
      (home h2h_2_3_4) (draw h2h_2_3_4) (away h2h_2_3_4)
      (Some (point totals_at_0)) (Some (over totals_at_0))
      (Some (under totals_at_0)) in
  narrow = oddsToProbabilities (winOnly h2h_2_3_4)
  /\ (draw h2h_2_3_4 <> None ->
      oddsToProbabilities (winAndTotals h2h_2_3_4 totals_at_0) <> narrow)
  /\ (draw h2h_2_3_4 = None ->
      oddsToProbabilities (winAndTotals h2h_2_3_4 totals_at_0) = narrow).
Proof.
  apply (@totals_point_zero_parts_the_paths h2h_2_3_4 totals_at_0).
  - unfold valid_h2h, h2h_2_3_4; cbn [home away draw]. repeat split; lra.
  - unfold valid_totals, totals_at_0; cbn [over under]. split; lra.
  - reflexivity.
Defined.

End PointZero.

Section DistributionInvariant.

Local Open Scope R_scope.

Lemma totalProbability_nonneg (l : list (ScoreProbability R)) :
  Forall (fun sp => 0 <= probability sp) l -> 0 <= totalProbability l.
Proof.
  intro Hl. induction Hl as [| sp l Hsp _ IH]; cbn [totalProbability]; lra.
Qed.

(** No entry of a non-negative distribution exceeds its total. *)
Lemma probability_le_total (l : list (ScoreProbability R)) :
  Forall (fun sp => 0 <= probability sp) l ->
  Forall (fun sp => probability sp <= totalProbability l) l.
Proof.
  intro Hl. induction Hl as [| sp l Hsp Hl IH]; [constructor |].
  pose proof (totalProbability_nonneg Hl) as Hpos.
  cbn [totalProbability]. constructor; [lra |].
  eapply Forall_impl; [| exact IH]. cbn beta. intros sp' Hsp'. lra.
Qed.

(** On well-formed markets the pipeline yields non-negative probabilities
    of total 1. *)
Lemma oddsToProbabilities_distribution (m : MatchMarkets R) (w : H2H R) :
  h2h m = Some w ->
  valid_h2h w ->
  valid_totals_opt (totals m) ->
  valid_btts_opt (bothTeamsToScore m) ->
  Forall (fun sp => 0 <= probability sp) (oddsToProbabilities m)
  /\ totalProbability (oddsToProbabilities m) = 1.
Proof.
  intros Hw Hv Ht Hb.
  rewrite (oddsToProbabilities_conditioned m Hw Hv). cbv zeta.
  assert (Hafter :
    Forall (fun sp => 0 <= probability sp)
      match totals m with
      | Some t => conditionOnTotals t (baseDistribution w)
      | None => baseDistribution w
      end
    /\ totalProbability
         match totals m with
         | Some t => conditionOnTotals t (baseDistribution w)
         | None => baseDistribution w
         end = 1).
  { destruct (totals m) as [t |].
    - apply conditioning_step.
      + intro sp. now apply totalsFactor_ge_half.
      + now apply baseDistribution_nonneg.
      + now apply baseDistribution_total.
    - split; [now apply baseDistribution_nonneg | now apply baseDistribution_total]. }
  destruct (bothTeamsToScore m) as [b |]; [| exact Hafter].
  apply conditioning_step; [| apply Hafter | apply Hafter].
  intro sp. now apply bttsFactor_ge_half.
Qed.

(** X4. On well-formed markets (win odds above 1, positive totals and
    both-teams-to-score odds when those markets are present) the distributor
    returns, in exact arithmetic, a probability distribution: 18 entries,
    each probability between 0 and 1, summing to 1. *)
Theorem oddsToProbabilities_is_distribution (m : MatchMarkets R) (w : H2H R) :
  h2h m = Some w ->
  valid_h2h w ->
  valid_totals_opt (totals m) ->
  valid_btts_opt (bothTeamsToScore m) ->
  List.length (oddsToProbabilities m) = 18%nat
  /\ Forall (fun sp => 0 <= probability sp <= 1) (oddsToProbabilities m)
  /\ sumProbability (oddsToProbabilities m) = 1.
Proof.
  intros Hw Hv Ht Hb.
  destruct (oddsToProbabilities_distribution m Hw Hv Ht Hb) as [Hpos Htot].
  split; [now apply length_oddsToProbabilities with (w := w) |].
  split; [| now rewrite sumProbability_total].
  pose proof (probability_le_total Hpos) as Hle. rewrite Htot in Hle.
  rewrite Forall_forall in *. intros sp Hin. split; auto.
Qed.

Lemma oddsToProbabilities_is_distribution_witness :
  List.length
    (oddsToProbabilities
       (markets h2h_2_3_4 (Some totals_2_5) (Some btts_yes_favoured)))
  = 18%nat
  /\ Forall (fun sp => 0 <= probability sp <= 1)
       (oddsToProbabilities
          (markets h2h_2_3_4 (Some totals_2_5) (Some btts_yes_favoured)))
  /\ sumProbability
       (oddsToProbabilities
          (markets h2h_2_3_4 (Some totals_2_5) (Some btts_yes_favoured)))
     = 1.
Proof.
  apply (@oddsToProbabilities_is_distribution
           (markets h2h_2_3_4 (Some totals_2_5) (Some btts_yes_favoured))
           h2h_2_3_4).
  - reflexivity.
  - unfold valid_h2h, h2h_2_3_4; cbn [home away draw]. repeat split; lra.
  - unfold valid_totals_opt, valid_totals, markets, totals_2_5;
      cbn [totals over under]. split; lra.
  - unfold valid_btts_opt, valid_btts, markets, btts_yes_favoured;
      cbn [bothTeamsToScore yes no]. split; lra.
Defined.

(** X5. A both-teams-to-score market with balanced odds ([normYes = 1/2]) is
    always a no-op in exact arithmetic: every scoreline falls in one of its
    two classes, both are scaled by 3/4, and the renormalisation undoes it.
    (The totals block differs: it leaves scorelines at the point unscaled.) *)
Theorem neutral_btts_is_noop
    (w : H2H R) (t : option (Totals R)) (b : BothTeamsToScore R) :
  valid_h2h w ->
  valid_totals_opt t ->
  normYesOf b = 1 / 2 ->
  oddsToProbabilities (markets w t (Some b))
  = oddsToProbabilities (markets w t None).
Proof.
  intros Hv Ht Hn.
  destruct (@oddsToProbabilities_distribution (markets w t None) w eq_refl Hv Ht I)
    as [_ Htot].
  rewrite (@oddsToProbabilities_conditioned (markets w t None) w eq_refl Hv)
    in Htot |- *.
  rewrite (@oddsToProbabilities_conditioned (markets w t (Some b)) w eq_refl Hv).
  cbn [markets totals bothTeamsToScore] in *. cbv zeta in *.
  unfold conditionOnBTTS.
  apply rescale_reweight_const with (c := 3 / 4); [lra | | exact Htot].
  apply Forall_forall. intros sp _. unfold bttsFactor. rewrite Hn.
  destruct (Rlt_dec _ _); [destruct (Rlt_dec _ _) |]; lra.
Qed.

Lemma neutral_btts_is_noop_witness :
  oddsToProbabilities (markets h2h_2_3_4 (Some totals_2_5) (Some btts_neutral))
  = oddsToProbabilities (markets h2h_2_3_4 (Some totals_2_5) None).
Proof.
  apply (@neutral_btts_is_noop h2h_2_3_4 (Some totals_2_5) btts_neutral).
  - unfold valid_h2h, h2h_2_3_4; cbn [home away draw]. repeat split; lra.
  - unfold valid_totals_opt, valid_totals, totals_2_5; cbn [over under].
    split; lra.
  - unfold normYesOf, impliedProbability, btts_neutral; cbn [yes no].
    first [lra | field; lra].
Defined.

End DistributionInvariant.

Section MassShift.

Local Open Scope R_scope.

Variable p : ScoreProbability R -> bool.

(** [p] looks at the scoreline only. *)
Hypothesis p_scores : forall sp x, p (with_probability sp x) = p sp.

Lemma massWhere_nonneg (l : list (ScoreProbability R)) :
  Forall (fun sp => 0 <= probability sp) l -> 0 <= massWhere p l.
Proof.
  intro Hl. unfold massWhere.
  induction Hl as [| sp l Hsp _ IH]; cbn [filter totalProbability]; [lra |].
  destruct (p sp); cbn [totalProbability]; lra.
Qed.

Lemma massWhere_le_total (l : list (ScoreProbability R)) :
  Forall (fun sp => 0 <= probability sp) l ->
  massWhere p l <= totalProbability l.
Proof.
  intro Hl. unfold massWhere.
  induction Hl as [| sp l Hsp _ IH]; cbn [filter totalProbability]; [lra |].
  destruct (p sp); cbn [totalProbability]; lra.
Qed.

(** A reweighting with factor [fy] on the selected scorelines and [fn] on
    the others. *)
Lemma two_class_reweight f (fy fn : R) (l : list (ScoreProbability R)) :
  Forall (fun sp => f sp = if p sp then fy else fn) l ->
  massWhere p (reweight f l) = fy * massWhere p l
  /\ totalProbability (reweight f l)
     = fy * massWhere p l + fn * (totalProbability l - massWhere p l).
Proof.
  intro Hl. rewrite reweight_spread. unfold massWhere.
  induction Hl as [| sp l Hsp _ [IHm IHt]];
    cbn [map filter totalProbability].
  - split; lra.
  - rewrite p_scores. rewrite Hsp.
    destruct (p sp); cbn [totalProbability with_probability probability];
      rewrite ?IHm, IHt; split; lra.
Qed.

Lemma massWhere_divide (s : R) (l : list (ScoreProbability R)) :
  massWhere p (map (fun sp => with_probability sp (probability sp / s)) l)
  = massWhere p l / s.
Proof.
  unfold massWhere.
  induction l as [| sp l IH]; cbn [map filter totalProbability].
  - unfold Rdiv. lra.
  - rewrite p_scores.
    destruct (p sp); cbn [totalProbability with_probability probability];
      rewrite IH; unfold Rdiv; lra.
Qed.

(** After a two-class conditioning step the selected mass [A] becomes
    [fy·A / (fy·A + fn·(1 − A))]: it does not shrink when the selected class
    has the larger factor, and does not grow when it has the smaller one. *)
Lemma two_class_shift f (fy fn : R) (l : list (ScoreProbability R)) :
  Forall (fun sp => f sp = if p sp then fy else fn) l ->
  Forall (fun sp => 0 <= probability sp) l ->
  totalProbability l = 1 ->
  0 < fy -> 0 < fn ->
  (fn <= fy -> massWhere p l <= massWhere p (rescale (reweight f l)))
  /\ (fy <= fn -> massWhere p (rescale (reweight f l)) <= massWhere p l).
Proof.
  intros Hf Hl Ht Hfy Hfn.
  destruct (@two_class_reweight f fy fn l Hf) as [Hm Htot]. rewrite Ht in Htot.
  pose proof (massWhere_nonneg Hl) as HA0.
  pose proof (massWhere_le_total Hl) as HA1. rewrite Ht in HA1.
  rewrite rescale_spread, massWhere_divide, Hm, Htot.
  set (A := massWhere p l) in *.
  assert (HD : 0 < fy * A + fn * (1 - A)) by nra.
  assert (HAA : 0 <= A * (1 - A)) by (apply Rmult_le_pos; lra).
  assert (Hq : fy * A / (fy * A + fn * (1 - A)) * (fy * A + fn * (1 - A))
               = fy * A) by (field; lra).
  split; intro Hle.
  - apply Rmult_le_reg_r with (r := fy * A + fn * (1 - A)); [exact HD |].
    rewrite Hq.
    assert (0 <= A * (1 - A) * (fy - fn)) by (apply Rmult_le_pos; lra).
    nra.
  - apply Rmult_le_reg_r with (r := fy * A + fn * (1 - A)); [exact HD |].
    rewrite Hq.
    assert (0 <= A * (1 - A) * (fn - fy)) by (apply Rmult_le_pos; lra).
    nra.
Qed.

End MassShift.

Section MarketSignals.

Local Open Scope R_scope.

Lemma bothScored_scores (sp : ScoreProbability R) (x : R) :
  bothScored (with_probability sp x) = bothScored sp.
Proof. reflexivity. Qed.

Lemma abovePoint_scores (pt : R) (sp : ScoreProbability R) (x : R) :
  abovePoint pt (with_probability sp x) = abovePoint pt sp.
Proof. reflexivity. Qed.

Lemma bttsFactor_two_class (b : BothTeamsToScore R) (sp : ScoreProbability R) :
  bttsFactor b sp
  = if bothScored sp then 0.5 + 0.5 * normYesOf b
    else 0.5 + 0.5 * (1 - normYesOf b).
Proof.
  unfold bttsFactor, bothScored. js_R. unfold R_lt.
  destruct (Rlt_dec 0 (home_score sp)), (Rlt_dec 0 (away_score sp));
    reflexivity.
Qed.

Lemma totalsFactor_two_class (t : Totals R) (sp : ScoreProbability R) :
  totalGoals sp <> point t ->
  totalsFactor t sp
  = if abovePoint (point t) sp then 0.5 + 0.5 * normOverOf t
    else 0.5 + 0.5 * (1 - normOverOf t).
Proof.
  intro Hne. unfold totalsFactor, abovePoint, totalGoals in *. js_R. unfold R_lt.
  destruct (Rlt_dec (point t) (home_score sp + away_score sp));
    [reflexivity |].
  destruct (Rlt_dec (home_score sp + away_score sp) (point t));
    [reflexivity | lra].
Qed.

(** X6. The distribution responds monotonically to the both-teams-to-score
    market: on well-formed markets, in exact arithmetic, odds that favour
    "yes" ([normYes >= 1/2]) never lower the total probability of the
    scorelines in which both teams score, and odds that favour "no"
    never raise it. *)
Theorem btts_market_shifts_both_scored_mass
    (w : H2H R) (t : option (Totals R)) (b : BothTeamsToScore R) :
  valid_h2h w ->
  valid_totals_opt t ->
  valid_btts b ->
  (1 / 2 <= normYesOf b ->
   massWhere bothScored (oddsToProbabilities (markets w t None))
   <= massWhere bothScored (oddsToProbabilities (markets w t (Some b))))
  /\ (normYesOf b <= 1 / 2 ->
      massWhere bothScored (oddsToProbabilities (markets w t (Some b)))
      <= massWhere bothScored (oddsToProbabilities (markets w t None))).
Proof.
  intros Hv Ht Hb.
  destruct (@oddsToProbabilities_distribution (markets w t None) w eq_refl Hv Ht I)
    as [Hpos Htot].
  rewrite (@oddsToProbabilities_conditioned (markets w t None) w eq_refl Hv)
    in Hpos, Htot |- *.
  rewrite (@oddsToProbabilities_conditioned (markets w t (Some b)) w eq_refl Hv).
  cbn [markets totals bothTeamsToScore] in *. cbv zeta in *.
  unfold conditionOnBTTS.
  destruct Hb as [Hy Hn]. pose proof (implied_share_bounds Hy Hn) as Hs.
  fold (normYesOf b) in Hs.
  set (after := match t with
                | Some t0 => conditionOnTotals t0 (baseDistribution w)
                | None => baseDistribution w
                end) in *.
  assert (Hf : Forall (fun sp => bttsFactor b sp
                                 = if bothScored sp
                                   then 0.5 + 0.5 * normYesOf b
                                   else 0.5 + 0.5 * (1 - normYesOf b)) after).
  { apply Forall_forall. intros sp _. apply bttsFactor_two_class. }
  assert (Hfy : 0 < 0.5 + 0.5 * normYesOf b) by lra.
  assert (Hfn : 0 < 0.5 + 0.5 * (1 - normYesOf b)) by lra.
  destruct (@two_class_shift bothScored bothScored_scores (bttsFactor b)
              _ _ after Hf Hpos Htot Hfy Hfn) as [Hup Hdown].
  split; intro Hle; [apply Hup | apply Hdown]; lra.
Qed.

Lemma btts_market_shifts_both_scored_mass_witness :
  (1 / 2 <= normYesOf btts_yes_favoured ->
   massWhere bothScored
     (oddsToProbabilities (markets h2h_2_3_4 (Some totals_2_5) None))
   <= massWhere bothScored
        (oddsToProbabilities
           (markets h2h_2_3_4 (Some totals_2_5) (Some btts_yes_favoured))))
  /\ (normYesOf btts_yes_favoured <= 1 / 2 ->
      massWhere bothScored
        (oddsToProbabilities
           (markets h2h_2_3_4 (Some totals_2_5) (Some btts_yes_favoured)))
      <= massWhere bothScored
           (oddsToProbabilities (markets h2h_2_3_4 (Some totals_2_5) None))).
Proof.
  apply (@btts_market_shifts_both_scored_mass
           h2h_2_3_4 (Some totals_2_5) btts_yes_favoured).
  - unfold valid_h2h, h2h_2_3_4; cbn [home away draw]. repeat split; lra.
  - unfold valid_totals_opt, valid_totals, totals_2_5; cbn [over under].
    split; lra.
  - unfold valid_btts, btts_yes_favoured; cbn [yes no]. split; lra.
Defined.

(** X7. When no catalogued scoreline has total goals equal to the totals
    point, the distribution responds monotonically to the totals market: on
    a well-formed win and totals market, in exact arithmetic, odds that
    favour "over" ([normOver >= 1/2]) never lower the total probability of
    the scorelines above the point, and odds that favour "under" never raise
    it. *)
Theorem totals_market_shifts_mass_above_point (w : H2H R) (t : Totals R) :
  valid_h2h w ->
  valid_totals t ->
  Forall (fun sp => totalGoals sp <> point t) (baseDistribution w) ->
  (1 / 2 <= normOverOf t ->
   massWhere (abovePoint (point t)) (oddsToProbabilities (markets w None None))
   <= massWhere (abovePoint (point t))
        (oddsToProbabilities (markets w (Some t) None)))
  /\ (normOverOf t <= 1 / 2 ->
      massWhere (abovePoint (point t))
        (oddsToProbabilities (markets w (Some t) None))
      <= massWhere (abovePoint (point t))
           (oddsToProbabilities (markets w None None))).
Proof.
  intros Hv Ht Hp.
  rewrite (@oddsToProbabilities_conditioned (markets w None None) w eq_refl Hv).
  rewrite (@oddsToProbabilities_conditioned (markets w (Some t) None) w eq_refl Hv).
  cbn [markets totals bothTeamsToScore]. cbv zeta.
  unfold conditionOnTotals.
  destruct Ht as [Ho Hu]. pose proof (implied_share_bounds Ho Hu) as Hs.
  fold (normOverOf t) in Hs.
  assert (Hf : Forall (fun sp => totalsFactor t sp
                                 = if abovePoint (point t) sp
                                   then 0.5 + 0.5 * normOverOf t
                                   else 0.5 + 0.5 * (1 - normOverOf t))
                      (baseDistribution w)).
  { eapply Forall_impl; [| exact Hp]. cbn beta. intros sp Hsp.
    now apply totalsFactor_two_class. }
  assert (Hfy : 0 < 0.5 + 0.5 * normOverOf t) by lra.
  assert (Hfn : 0 < 0.5 + 0.5 * (1 - normOverOf t)) by lra.
  destruct (@two_class_shift (abovePoint (point t)) (abovePoint_scores (point t))
              (totalsFactor t) _ _ (baseDistribution w) Hf
              (baseDistribution_nonneg Hv) (baseDistribution_total Hv) Hfy Hfn)
    as [Hup Hdown].
  split; intro Hle; [apply Hup | apply Hdown]; lra.
Qed.

Lemma totals_market_shifts_mass_above_point_witness :
  (1 / 2 <= normOverOf totals_over_favoured ->
   massWhere (abovePoint (point totals_over_favoured))
     (oddsToProbabilities (markets h2h_2_3_4 None None))
   <= massWhere (abovePoint (point totals_over_favoured))
        (oddsToProbabilities
           (markets h2h_2_3_4 (Some totals_over_favoured) None)))
  /\ (normOverOf totals_over_favoured <= 1 / 2 ->
      massWhere (abovePoint (point totals_over_favoured))
        (oddsToProbabilities
           (markets h2h_2_3_4 (Some totals_over_favoured) None))
      <= massWhere (abovePoint (point totals_over_favoured))
           (oddsToProbabilities (markets h2h_2_3_4 None None))).
Proof.
  apply (@totals_market_shifts_mass_above_point h2h_2_3_4 totals_over_favoured).
  - unfold valid_h2h, h2h_2_3_4; cbn [home away draw]. repeat split; lra.
  - unfold valid_totals, totals_over_favoured; cbn [over under]. split; lra.
  - unfold baseDistribution, distribute, awayWinCatalogue, homeWinCatalogue,
      drawCatalogue, scoreline, totals_over_favoured, totalGoals.
    cbn [map app point].
    repeat apply Forall_cons; try apply Forall_nil;
      cbn [home_score away_score]; lra.
Defined.

End MarketSignals.

(** ** Further properties of the normaliser *)

Section SynthesisedMarkets.

Local Open Scope R_scope.

Lemma implied_lt_1 (odds : R) : 1 < odds -> impliedProbability odds < 1.
Proof.
  intro Ho. unfold impliedProbability, Rdiv. rewrite Rmult_1_l.
  rewrite <- Rinv_1. apply Rinv_lt_contravar; lra.
Qed.

(** The team balance of two positive probabilities lies in (0, 1]. *)
Lemma balance_bounds (a b : R) :
  0 < a -> 0 < b -> 0 < Rmin a b / Rmax a b <= 1.
Proof.
  intros Ha Hb.
  assert (Hmin : 0 < Rmin a b) by (apply Rmin_glb_lt; assumption).
  assert (Hmax : 0 < Rmax a b).
  { pose proof (Rmax_l a b). lra. }
  assert (Hle : Rmin a b <= Rmax a b).
  { pose proof (Rmin_l a b). pose proof (Rmax_l a b). lra. }
  split.
  - apply Rdiv_lt_0_compat; assumption.
  - apply Rmult_le_reg_r with (r := Rmax a b); [exact Hmax |].
    unfold Rdiv. rewrite Rmult_assoc, Rinv_l by lra. lra.
Qed.

Lemma bttsProbabilityOf_bounds (w : option (H2H R)) :
  valid_h2h_opt w -> 0.4 < bttsProbabilityOf w < 0.9.
Proof.
  intro Hv. unfold bttsProbabilityOf. cbv zeta.
  set (hp := match w with Some w0 => impliedProbability (home w0) | None => 0.33 end).
  set (ap := match w with Some w0 => impliedProbability (away w0) | None => 0.33 end).
  assert (Hhp : 0 < hp < 1).
  { unfold hp. destruct w as [w |]; [| lra].
    destruct Hv as (Hh & _ & _). split; [apply implied_pos | apply implied_lt_1]; lra. }
  assert (Hap : 0 < ap < 1).
  { unfold ap. destruct w as [w |]; [| lra].
    destruct Hv as (_ & Ha & _). split; [apply implied_pos | apply implied_lt_1]; lra. }
  pose proof (@balance_bounds hp ap) as Hb.
  assert (Hb' : 0 < Rmin hp ap / Rmax hp ap <= 1) by (apply Hb; lra).
  lra.
Qed.

Lemma over25ProbabilityOf_bounds (w : H2H R) :
  valid_h2h w -> 0.1 < over25ProbabilityOf w < 0.7.
Proof.
  intros (Hh & Ha & Hd). unfold over25ProbabilityOf. cbv zeta.
  cbn [impliedOf].
  pose proof (@implied_pos (home w)). pose proof (@implied_lt_1 (home w) Hh).
  pose proof (@implied_pos (away w)). pose proof (@implied_lt_1 (away w) Ha).
  assert (Hdp : 0 < match draw w with
                    | Some d => impliedProbability d
                    | None => 0.34
                    end < 1).
  { destruct (draw w) as [d |]; [| lra].
    split; [apply implied_pos | apply implied_lt_1]; lra. }
  lra.
Qed.

(** Odds priced as [(1/p)·1.05] and [(1/(1−p))·1.05] from a probability
    [0 < p < 1]: both exceed 1, normalising their implied probabilities
    gives [p] back, and the implied probabilities add up to [1/1.05]. *)
Lemma margin_priced_pair (p : R) :
  0 < p < 1 ->
  let y := 1 / p * 1.05 in
  let n := 1 / (1 - p) * 1.05 in
  1 < y /\ 1 < n
  /\ impliedProbability y / (impliedProbability y + impliedProbability n) = p
  /\ impliedProbability y + impliedProbability n = 1 / 1.05.
Proof.
  intros Hp y n.
  assert (Hy : y = 1.05 / p) by (unfold y; field; lra).
  assert (Hn : n = 1.05 / (1 - p)) by (unfold n; field; lra).
  assert (Hiy : impliedProbability y = p / 1.05).
  { unfold impliedProbability. rewrite Hy. field. lra. }
  assert (Hin : impliedProbability n = (1 - p) / 1.05).
  { unfold impliedProbability. rewrite Hn. field. lra. }
  split; [| split; [| split]].
  - rewrite Hy. apply Rmult_lt_reg_r with (r := p); [lra |].
    unfold Rdiv. rewrite Rmult_assoc, Rinv_l by lra. lra.
  - rewrite Hn. apply Rmult_lt_reg_r with (r := 1 - p); [lra |].
    unfold Rdiv. rewrite Rmult_assoc, Rinv_l by lra. lra.
  - rewrite Hiy, Hin. field. lra.
  - rewrite Hiy, Hin. field. lra.
Qed.

(** The synthesised both-teams-to-score odds over the reals. *)
Lemma generateMissingMarkets_btts_R (match_ : Match.t R) :
  bothTeamsToScore (generateMissingMarkets match_)
  = Some {| yes := 1 / bttsProbabilityOf (Match.h2h match_) * 1.05;
            no := 1 / (1 - bttsProbabilityOf (Match.h2h match_)) * 1.05 |}.
Proof.
  rewrite generateMissingMarkets_bothTeamsToScore.
  unfold bttsProbabilityOf, impliedProbability. cbv zeta.
  destruct (Match.h2h match_) as [w |]; js_R;
    try change 0.33 with (33 / 100);
    do 2 f_equal; (f_equal; first [lra | f_equal; lra]).
Qed.

(** The synthesised totals market over the reals. *)
Lemma generateMissingMarkets_totals_R (match_ : Match.t R) (w : H2H R) :
  Match.h2h match_ = Some w ->
  Match.totals match_ = None ->
  valid_h2h w ->
  totals (generateMissingMarkets match_)
  = Some {| point := 2.5;
            over := 1 / over25ProbabilityOf w * 1.05;
            under := 1 / (1 - over25ProbabilityOf w) * 1.05 |}.
Proof.
  intros Hw Ht (_ & _ & Hd).
  unfold generateMissingMarkets. cbv zeta. rewrite Hw, Ht.
  cbn [bothTeamsToScore correctScore totals].
  unfold over25ProbabilityOf, impliedProbability. cbv zeta. cbn [impliedOf].
  unfold impliedProbability.
  destruct (draw w) as [d |]; js_R;
    [rewrite R_truthy_nonzero by lra |];
    do 2 f_equal; try lra; (f_equal; first [lra | f_equal; lra]).
Qed.

(** X8. For every input whose win market, if any, is well-formed, the
    synthesised both-teams-to-score odds are proper decimal odds (both above
    1); normalising their implied probabilities gives back the heuristic
    probability [0.4 + 0.3·balance + 0.2·avgWinProb], which lies strictly
    between 0.4 and 0.9; and the two implied probabilities add up to
    [1/1.05]: multiplying the fair odds by 1.05 lengthens them. *)
Theorem btts_synthesis_round_trip (match_ : Match.t R) :
  valid_h2h_opt (Match.h2h match_) ->
  exists b : BothTeamsToScore R,
    bothTeamsToScore (generateMissingMarkets match_) = Some b
    /\ 1 < yes b /\ 1 < no b
    /\ normYesOf b = bttsProbabilityOf (Match.h2h match_)
    /\ 0.4 < normYesOf b < 0.9
    /\ impliedProbability (yes b) + impliedProbability (no b) = 1 / 1.05.
Proof.
  intro Hv. pose proof (bttsProbabilityOf_bounds _ Hv) as Hp.
  assert (Hp01 : 0 < bttsProbabilityOf (Match.h2h match_) < 1) by lra.
  destruct (margin_priced_pair Hp01) as (Hy & Hn & Hnorm & Hsum).
  eexists. split; [apply generateMissingMarkets_btts_R |].
  unfold normYesOf. cbn [yes no].
  split; [exact Hy | split; [exact Hn | split; [exact Hnorm |]]].
  split; [rewrite Hnorm; exact Hp | exact Hsum].
Qed.

Lemma btts_synthesis_round_trip_witness :
  exists b : BothTeamsToScore R,
    bothTeamsToScore (generateMissingMarkets (matchOf h2h_2_3_4)) = Some b
    /\ 1 < yes b /\ 1 < no b
    /\ normYesOf b = bttsProbabilityOf (Match.h2h (matchOf h2h_2_3_4))
    /\ 0.4 < normYesOf b < 0.9
    /\ impliedProbability (yes b) + impliedProbability (no b) = 1 / 1.05.
Proof.
  apply (@btts_synthesis_round_trip (matchOf h2h_2_3_4)).
  unfold valid_h2h_opt, matchOf, valid_h2h, h2h_2_3_4;
    cbn [Match.h2h home away draw]. repeat split; lra.
Defined.

(** X9. For every well-formed win market without a totals market, the
    synthesised totals market sits at point 2.5 with proper decimal odds
    (both above 1); normalising their implied probabilities gives back the
    heuristic probability [0.3 + 0.4·attackRating − 0.2·drawProb] (draw 0.34
    without draw odds), which lies strictly between 0.1 and 0.7. *)
Theorem totals_synthesis_round_trip (match_ : Match.t R) (w : H2H R) :
  Match.h2h match_ = Some w ->
  Match.totals match_ = None ->
  valid_h2h w ->
  exists t : Totals R,
    totals (generateMissingMarkets match_) = Some t
    /\ point t = 2.5
    /\ 1 < over t /\ 1 < under t
    /\ normOverOf t = over25ProbabilityOf w
    /\ 0.1 < normOverOf t < 0.7.
Proof.
  intros Hw Ht Hv. pose proof (over25ProbabilityOf_bounds Hv) as Hp.
  assert (Hp01 : 0 < over25ProbabilityOf w < 1) by lra.
  destruct (margin_priced_pair Hp01) as (Ho & Hu & Hnorm & _).
  eexists. split; [apply (generateMissingMarkets_totals_R _ Hw Ht Hv) |].
  unfold normOverOf. cbn [point over under].
  split; [reflexivity | split; [exact Ho | split; [exact Hu |]]].
  split; [exact Hnorm | rewrite Hnorm; exact Hp].
Qed.

Lemma totals_synthesis_round_trip_witness :
  exists t : Totals R,
    totals (generateMissingMarkets (matchOf h2h_2_3_4)) = Some t
    /\ point t = 2.5
    /\ 1 < over t /\ 1 < under t
    /\ normOverOf t = over25ProbabilityOf h2h_2_3_4
    /\ 0.1 < normOverOf t < 0.7.
Proof.
  apply (@totals_synthesis_round_trip (matchOf h2h_2_3_4) h2h_2_3_4);
    try reflexivity.
  unfold valid_h2h, h2h_2_3_4; cbn [home away draw]. repeat split; lra.
Defined.

End SynthesisedMarkets.

Section SynthesisedCorrectScore.

Local Open Scope R_scope.

(** The synthesised correct-score odds over the reals. *)
Lemma generateMissingMarkets_correctScore_R (match_ : Match.t R) (w : H2H R) :
  Match.h2h match_ = Some w ->
  valid_h2h w ->
  correctScore (generateMissingMarkets match_)
  = Some {| scores :=
              map (fun e =>
                     {| score := fst e;
                        odds := applyMargin
                                  (snd e / sumR (map snd (preNormalization w)))
                                  1.10 |})
                  (preNormalization w) |}.
Proof.
  intros Hw Hv.
  unfold generateMissingMarkets. cbv zeta. rewrite Hw.
  cbn [bothTeamsToScore correctScore].
  set (drawProb := match draw w with
                   | Some d => if truthy d then js_div (int 1) d else dec 34 100
                   | None => dec 34 100
                   end).
  assert (Hd : drawProb = impliedOf 0.34 w Draw).
  { destruct Hv as (_ & _ & Hd). unfold drawProb. cbn [impliedOf].
    destruct (draw w) as [d |]; js_R.
    - rewrite R_truthy_nonzero by lra. reflexivity.
    - lra. }
  assert (Htotal :
    fold_left (fun sum s => js_add sum (cs_prob s))
      (commonScores (js_div (int 1) (home w)) (js_div (int 1) (away w)) drawProb)
      (int 0) = sumR (map snd (preNormalization w))).
  { rewrite Hd. unfold preNormalization, correctScoreCatalogue,
      priced, sumR, commonScores.
    cbn [map snd fold_right fold_left cs_prob sourceProbability impliedOf].
    unfold impliedProbability. js_R. lra. }
  set (total := sumR (map snd (preNormalization w))) in *.
  destruct (Match.totals match_) as [t |]; cbn [correctScore];
    rewrite Htotal, Hd;
    unfold preNormalization, correctScoreCatalogue, priced, commonScores;
    cbn [map fst snd cs_score cs_prob sourceProbability impliedOf];
    unfold impliedProbability;
    do 2 f_equal;
    repeat (apply f_equal2;
            [f_equal; apply inverted_odds; [js_R; lra | reflexivity] |]);
    reflexivity.
Qed.

(** Every pre-normalisation probability is positive and below the total. *)
Lemma preNormalization_shares (w : H2H R) :
  valid_h2h w ->
  Forall (fun e => 0 < snd e < sumR (map snd (preNormalization w)))
         (preNormalization w).
Proof.
  intro Hv.
  pose proof (impliedOf_default_pos HomeWin Hv) as Hh.
  pose proof (impliedOf_default_pos Draw Hv) as Hd.
  pose proof (impliedOf_default_pos AwayWin Hv) as Ha.
  unfold preNormalization, correctScoreCatalogue, priced, sumR.
  cbn [map snd fold_right sourceProbability].
  repeat apply Forall_cons; try apply Forall_nil; cbn [snd]; lra.
Qed.

(** X10. For every well-formed win market the synthesised correct-score
    market has 16 scorelines whose odds are all above the 1.10 margin factor
    (each normalised probability is strictly between 0 and 1), and whose
    implied probabilities add up to [1/1.10]. *)
Theorem correctScore_odds_are_proper (match_ : Match.t R) (w : H2H R) :
  Match.h2h match_ = Some w ->
  valid_h2h w ->
  exists cs : CorrectScore R,
    correctScore (generateMissingMarkets match_) = Some cs
    /\ List.length (scores cs) = 16%nat
    /\ Forall (fun so => 1.10 < odds so) (scores cs)
    /\ sumR (map (fun so => impliedProbability (odds so)) (scores cs))
       = 1 / 1.10.
Proof.
  intros Hw Hv.
  pose proof (preNormalization_shares Hv) as Hshares.
  pose proof (preNormalization_total_pos Hv) as Htot.
  eexists. split; [apply (generateMissingMarkets_correctScore_R _ Hw Hv) |].
  cbn [scores]. set (total := sumR (map snd (preNormalization w))) in *.
  split; [reflexivity | split].
  - apply Forall_map. eapply Forall_impl; [| exact Hshares].
    cbn beta. intros e [He0 He1]. cbn [odds]. unfold applyMargin.
    assert (Hq : 0 < snd e / total < 1).
    { split; [apply Rdiv_lt_0_compat; lra |].
      apply Rmult_lt_reg_r with (r := total); [exact Htot |].
      unfold Rdiv. rewrite Rmult_assoc, Rinv_l by lra. lra. }
    set (q := snd e / total) in *.
    assert (H1q : 1 < 1 / q).
    { apply Rmult_lt_reg_r with (r := q); [lra |].
      unfold Rdiv. rewrite Rmult_assoc, Rinv_l by lra. lra. }
    nra.
  - rewrite map_map. cbn [odds].
    rewrite (map_ext_in _ (fun e => snd e / total / 1.10)).
    + rewrite <- (map_map (fun e => snd e / total) (fun x => x / 1.10)).
      rewrite sumR_divide.
      rewrite <- (map_map snd (fun x => x / total)), sumR_divide.
      fold total. field. lra.
    + intros e Hin. rewrite Forall_forall in Hshares.
      destruct (Hshares e Hin) as [He0 He1].
      unfold impliedProbability, applyMargin. field. lra.
Qed.

Lemma correctScore_odds_are_proper_witness :
  exists cs : CorrectScore R,
    correctScore (generateMissingMarkets (matchOf h2h_2_3_4)) = Some cs
    /\ List.length (scores cs) = 16%nat
    /\ Forall (fun so => 1.10 < odds so) (scores cs)
    /\ sumR (map (fun so => impliedProbability (odds so)) (scores cs))
       = 1 / 1.10.
Proof.
  apply (@correctScore_odds_are_proper (matchOf h2h_2_3_4) h2h_2_3_4).
  - reflexivity.
  - unfold valid_h2h, h2h_2_3_4; cbn [home away draw]. repeat split; lra.
Defined.

(** X11. The normaliser's output is always a well-formed input for the
    distributor: for every well-formed win market, with a well-formed
    totals market or none, [generateMissingMarkets] returns all four
    markets, and [oddsToProbabilities] on them returns, in exact
    arithmetic, 18 probabilities between 0 and 1 that sum to 1. *)
Theorem distributor_after_normaliser (match_ : Match.t R) (w : H2H R) :
  Match.h2h match_ = Some w ->
  valid_h2h w ->
  valid_totals_opt (Match.totals match_) ->
  let m := generateMissingMarkets match_ in
  (h2h m = Some w /\ totals m <> None /\ bothTeamsToScore m <> None
   /\ correctScore m <> None)
  /\ List.length (oddsToProbabilities m) = 18%nat
  /\ Forall (fun sp => 0 <= probability sp <= 1) (oddsToProbabilities m)
  /\ sumProbability (oddsToProbabilities m) = 1.
Proof.
  intros Hw Hv Ht m.
  assert (Hh : h2h m = Some w).
  { unfold m. now rewrite generateMissingMarkets_h2h. }
  assert (Hvt : valid_totals_opt (totals m) /\ totals m <> None).
  { unfold m. destruct (Match.totals match_) as [t |] eqn:Et.
    - pose proof (generateMissingMarkets_totals match_) as Hpass.
      rewrite Et in Hpass. rewrite Hpass. split; [exact Ht | discriminate].
    - rewrite (generateMissingMarkets_totals_R _ Hw Et Hv).
      split; [| discriminate].
      pose proof (over25ProbabilityOf_bounds Hv) as Hp.
      assert (Hp01 : 0 < over25ProbabilityOf w < 1) by lra.
      destruct (margin_priced_pair Hp01) as (Ho & Hu & _).
      unfold valid_totals_opt, valid_totals. cbn [over under]. lra. }
  assert (Hvb : valid_btts_opt (bothTeamsToScore m)
                /\ bothTeamsToScore m <> None).
  { unfold m. rewrite generateMissingMarkets_btts_R.
    split; [| discriminate].
    assert (Hvo : valid_h2h_opt (Match.h2h match_)) by (rewrite Hw; exact Hv).
    pose proof (bttsProbabilityOf_bounds _ Hvo) as Hp.
    assert (Hp01 : 0 < bttsProbabilityOf (Match.h2h match_) < 1) by lra.
    destruct (margin_priced_pair Hp01) as (Hy & Hn & _).
    unfold valid_btts_opt, valid_btts. cbn [yes no]. lra. }
  assert (Hc : correctScore m <> None).
  { unfold m. rewrite (generateMissingMarkets_correctScore_R _ Hw Hv).
    discriminate. }
  destruct Hvt as [Hvt Hpt]. destruct Hvb as [Hvb Hpb].
  destruct (oddsToProbabilities_distribution m Hh Hv Hvt Hvb) as [Hpos Htot].
  split; [repeat split; assumption |].
  split; [now apply length_oddsToProbabilities with (w := w) |].
  split; [| now rewrite sumProbability_total].
  pose proof (probability_le_total Hpos) as Hle. rewrite Htot in Hle.
  rewrite Forall_forall in *. intros sp Hin. split; auto.
Qed.

Lemma distributor_after_normaliser_witness :
  let m := generateMissingMarkets (matchOf h2h_2_3_4) in
  (h2h m = Some h2h_2_3_4 /\ totals m <> None /\ bothTeamsToScore m <> None
   /\ correctScore m <> None)
  /\ List.length (oddsToProbabilities m) = 18%nat
  /\ Forall (fun sp => 0 <= probability sp <= 1) (oddsToProbabilities m)
  /\ sumProbability (oddsToProbabilities m) = 1.
Proof.
  apply (@distributor_after_normaliser (matchOf h2h_2_3_4) h2h_2_3_4).
  - reflexivity.
  - unfold valid_h2h, h2h_2_3_4; cbn [home away draw]. repeat split; lra.
  - exact I.
Defined.

End SynthesisedCorrectScore.

(** ** The market translator *)

Section TranslatorFacts.

Local Open Scope string_scope.

Context {num : Type}.

Variable Number_toString : num -> string.

(** X12. The API market that [convertMarketToAPI] returns for each of the
    four frontend markets has its own display name, whatever the side and
    the point: h2h shows as "1X2", totals as "Over/Under", btts as "Both
    Teams To Score" and correct_score as "Correct Score". *)
Theorem translated_markets_have_display_names
    (side : string) (point : option num) :
  getMarketDisplayName
    (market (convertMarketToAPI Number_toString "h2h" side point))
  = Name "1X2"
  /\ getMarketDisplayName
       (market (convertMarketToAPI Number_toString "totals" side point))
     = Name "Over/Under"
  /\ getMarketDisplayName
       (market (convertMarketToAPI Number_toString "btts" side point))
     = Name "Both Teams To Score"
  /\ getMarketDisplayName
       (market (convertMarketToAPI Number_toString "correct_score" side point))
     = Name "Correct Score".
Proof. repeat split; reflexivity. Qed.

Lemma own_names_values (key v : string) :
  own names key = Some v ->
  v = "1X2" \/ v = "Over/Under" \/ v = "Both Teams To Score"
  \/ v = "Correct Score".
Proof.
  unfold names. cbn [own].
  repeat (destruct (String.eqb _ key);
          [intro E; injection E as <-; tauto |]).
  discriminate.
Qed.

Lemma own_names_keys (key v : string) :
  own names key = Some v -> In key (map fst names).
Proof.
  generalize names as o.
  induction o as [| [k w] o IH]; cbn [own map fst In]; [discriminate |].
  destruct (String.eqb k key) eqn:E.
  - intros _. left. now apply String.eqb_eq.
  - intros H. right. now apply IH.
Qed.

Lemma existsb_false_not_In (key : string) (l : list string) :
  existsb (String.eqb key) l = false -> ~ In key l.
Proof.
  intros Hex Hin.
  assert (existsb (String.eqb key) l = true).
  { apply existsb_exists. exists key.
    split; [exact Hin | apply String.eqb_refl]. }
  congruence.
Qed.

(** X13. [getMarketDisplayName] returns a string exactly when its argument
    is not the name of a member inherited from [Object.prototype] (for
    "constructor", "toString" and the like the lookup yields that member,
    which is truthy and is returned as it is); and on strings it is
    idempotent: the display name of a display name is itself. *)
Theorem getMarketDisplayName_idempotent (marketType : string) :
  match getMarketDisplayName marketType with
  | Name s =>
      ~ In marketType Object_prototype_keys
      /\ getMarketDisplayName s = Name s
  | InheritedMember key =>
      key = marketType /\ In marketType Object_prototype_keys
  end.
Proof.
  unfold getMarketDisplayName.
  destruct (own names marketType) as [v |] eqn:Hown.
  - assert (Hnot : ~ In marketType Object_prototype_keys).
    { apply existsb_false_not_In.
      destruct (own_names_keys _ Hown) as [<- | [<- | [<- | [<- | []]]]];
        vm_compute; reflexivity. }
    destruct (own_names_values _ Hown) as [-> | [-> | [-> | ->]]];
      cbn [String.eqb Ascii.eqb Bool.eqb]; (split; [exact Hnot | reflexivity]).
  - destruct (existsb (String.eqb marketType) Object_prototype_keys) eqn:Hex.
    + split; [reflexivity |].
      apply existsb_exists in Hex. destruct Hex as (k & Hin & Hk).
      apply String.eqb_eq in Hk. now subst k.
    + assert (Hnot : ~ In marketType Object_prototype_keys).
      { intro Hin.
        assert (existsb (String.eqb marketType) Object_prototype_keys = true).
        { apply existsb_exists. exists marketType.
          split; [exact Hin | apply String.eqb_refl]. }
        congruence. }
      split; [exact Hnot |]. rewrite Hown, Hex. reflexivity.
Qed.

(** X14. [convertMarketToAPI] never returns an h2h outcome other than "1",
    "X" or "2", nor a btts outcome other than "yes" or "no": a side that is
    neither "home" nor "draw" counts as the away win "2", and any side but
    "yes" counts as "no".  A market it does not know is returned unchanged,
    with the side as outcome. *)
Theorem convertMarketToAPI_outcomes (market_ side : string) (point : option num) :
  outcome (convertMarketToAPI Number_toString "h2h" side point)
  = (if String.eqb side "home" then "1"
     else if String.eqb side "draw" then "X" else "2")
  /\ In (outcome (convertMarketToAPI Number_toString "h2h" side point))
        ["1"; "X"; "2"]
  /\ outcome (convertMarketToAPI Number_toString "btts" side point)
     = (if String.eqb side "yes" then "yes" else "no")
  /\ (~ In market_ ["h2h"; "totals"; "btts"; "correct_score"] ->
      convertMarketToAPI Number_toString market_ side point
      = {| market := market_; outcome := side |}).
Proof.
  split; [reflexivity | split; [| split; [reflexivity |]]].
  - unfold convertMarketToAPI. cbn [String.eqb Ascii.eqb Bool.eqb outcome].
    destruct (String.eqb side "home"); [cbn; tauto |].
    destruct (String.eqb side "draw"); cbn; tauto.
  - intro Hnot. unfold convertMarketToAPI.
    destruct (String.eqb market_ "h2h") eqn:E1;
      [apply String.eqb_eq in E1; subst; exfalso; apply Hnot; cbn; tauto |].
    destruct (String.eqb market_ "totals") eqn:E2;
      [apply String.eqb_eq in E2; subst; exfalso; apply Hnot; cbn; tauto |].
    destruct (String.eqb market_ "btts") eqn:E3;
      [apply String.eqb_eq in E3; subst; exfalso; apply Hnot; cbn; tauto |].
    destruct (String.eqb market_ "correct_score") eqn:E4;
      [apply String.eqb_eq in E4; subst; exfalso; apply Hnot; cbn; tauto |].
    reflexivity.
Qed.

(** X15. The translation that [runSimulation] applies to each selection of
    the bet slip agrees with [convertMarketToAPI] on every selection except
    an h2h selection whose side is "over" or "under": there the inline
    translation keeps the side as outcome while [convertMarketToAPI] turns
    it into the away win "2". *)
Theorem translateSelection_agrees (sel : Selection.t num) :
  match Selection.market sel, Selection.side sel with
  | Market.h2h, Side.over | Market.h2h, Side.under =>
      outcome (translateSelection Number_toString sel)
      = Side.to_string (Selection.side sel)
      /\ outcome
           (convertMarketToAPI Number_toString
              (Market.to_string (Selection.market sel))
              (Side.to_string (Selection.side sel)) (Selection.point sel))
         = "2"
  | _, _ =>
      translateSelection Number_toString sel
      = convertMarketToAPI Number_toString
          (Market.to_string (Selection.market sel))
          (Side.to_string (Selection.side sel)) (Selection.point sel)
  end.
Proof.
  unfold translateSelection, convertMarketToAPI.
  destruct sel as [i mi mt st od mk sd pt]. cbn [Selection.market Selection.side Selection.point].
  destruct mk, sd; cbn; try reflexivity; split; reflexivity.
Qed.

End TranslatorFacts.

(** ** The bet slip *)

Section BetSlipFacts.

Context {num : Type} `{JSNumber num} `{JSCompare num}.

Variable Number_toString : num -> string.
Variable Number_toFixed1 : num -> string.

Lemma find_none_forall {A : Type} (f : A -> bool) (l : list A) :
  find f l = None -> Forall (fun x => f x = false) l.
Proof.
  induction l as [| x l IH]; cbn [find]; [constructor |].
  destruct (f x) eqn:E; [discriminate |].
  intro Hl. constructor; [exact E | now apply IH].
Qed.

Lemma find_snoc {A : Type} (f : A -> bool) (l : list A) (x : A) :
  find f l = None -> f x = true -> find f (l ++ [x]) = Some x.
Proof.
  induction l as [| y l IH]; cbn [find app]; intros Hl Hx.
  - now rewrite Hx.
  - destruct (f y); [discriminate | now apply IH].
Qed.

Lemma filter_all {A : Type} (f : A -> bool) (l : list A) :
  Forall (fun x => f x = true) l -> filter f l = l.
Proof.
  intro Hl. induction Hl as [| x l Hx _ IH]; cbn [filter]; [reflexivity |].
  now rewrite Hx, IH.
Qed.

Lemma removeFromBetSlip_absent (slip : list (Selection.t num)) (id : string) :
  Forall (fun s => String.eqb (Selection.id s) id = false) slip ->
  removeFromBetSlip slip id = slip.
Proof.
  intro Hl. unfold removeFromBetSlip. apply filter_all.
  eapply Forall_impl; [| exact Hl]. cbn beta. now intros s ->.
Qed.

Lemma NoDup_snoc {A : Type} (l : list A) (a : A) :
  NoDup l -> ~ In a l -> NoDup (l ++ [a]).
Proof.
  intros Hnd Hn. induction Hnd as [| x l Hx Hl IH]; cbn [app].
  - constructor; [intros [] | constructor].
  - constructor.
    + rewrite in_app_iff. cbn [In].
      intros [Hi | [He | []]]; [auto | subst; apply Hn; now left].
    + apply IH. intro Hi. apply Hn. now right.
Qed.

(** X16. [addToBetSlip] throws (and sets nothing) exactly for a spread
    selection on the home side without a point.  Otherwise the slip it sets
    contains a selection with the new id; adding the same selection again
    changes nothing; ids that were unique stay unique; and removing the new
    id afterwards gives what removing it before would have given, which is
    the original slip when that id was not on it. *)
Theorem addToBetSlip_keeps_ids_unique
    (slip : list (Selection.t num)) (match_ : AppMatch.t num)
    (market : Market.t) (side : Side.t) (odds : num) (point : option num) :
  let newId := selectionId Number_toString match_ market side point in
  match addToBetSlip Number_toString Number_toFixed1
          slip match_ market side odds point with
  | None => market = Market.spreads /\ side = Side.home /\ point = None
  | Some slip' =>
      ~ (market = Market.spreads /\ side = Side.home /\ point = None)
      /\ In newId (map (@Selection.id num) slip')
      /\ addToBetSlip Number_toString Number_toFixed1
           slip' match_ market side odds point = Some slip'
      /\ (NoDup (map (@Selection.id num) slip)
          -> NoDup (map (@Selection.id num) slip'))
      /\ removeFromBetSlip slip' newId = removeFromBetSlip slip newId
      /\ (~ In newId (map (@Selection.id num) slip)
          -> removeFromBetSlip slip' newId = slip)
  end.
Proof.
  intro newId. unfold addToBetSlip.
  destruct (selectionText Number_toString Number_toFixed1 match_ market side point)
    as [text |] eqn:Htext.
  2:{ unfold selectionText in Htext.
      destruct market, side, point; try discriminate Htext. repeat split. }
  assert (Hdef : ~ (market = Market.spreads /\ side = Side.home /\ point = None)).
  { intros (-> & -> & ->). cbn in Htext. discriminate Htext. }
  cbv zeta. cbn [Selection.id]. fold newId.
  set (new := {| Selection.id := newId;
                 Selection.matchId := AppMatch.id match_;
                 Selection.match_ :=
                   (AppMatch.homeTeam match_ ++ " vs " ++ AppMatch.awayTeam match_)%string;
                 Selection.selection := text;
                 Selection.odds := odds;
                 Selection.market := market;
                 Selection.side := side;
                 Selection.point := point |}).
  destruct (find (fun s => String.eqb (Selection.id s) newId) slip)
    as [old |] eqn:Hfind.
  - (* already on the slip *)
    pose proof (find_some _ _ Hfind) as [Hin Hid].
    apply String.eqb_eq in Hid.
    split; [exact Hdef | split; [| split; [| split; [| split]]]].
    + rewrite <- Hid. now apply in_map.
    + cbv zeta. cbn [Selection.id]. fold newId.
      now rewrite Hfind.
    + auto.
    + reflexivity.
    + intro Hnot. exfalso. apply Hnot. rewrite <- Hid. now apply in_map.
  - (* a new selection *)
    pose proof (find_none_forall _ _ Hfind) as Hall.
    assert (Hnotin : ~ In newId (map (@Selection.id num) slip)).
    { intro Hin. apply in_map_iff in Hin. destruct Hin as (s & Hs & Hin).
      rewrite Forall_forall in Hall. specialize (Hall s Hin). cbn beta in Hall.
      rewrite Hs, String.eqb_refl in Hall. discriminate. }
    assert (Hrem : removeFromBetSlip (slip ++ [new]) newId
                   = removeFromBetSlip slip newId).
    { unfold removeFromBetSlip. rewrite filter_app. cbn [filter Selection.id new].
      rewrite String.eqb_refl. cbn [negb]. apply app_nil_r. }
    split; [exact Hdef | split; [| split; [| split; [| split]]]].
    + rewrite map_app. apply in_or_app. right. cbn. now left.
    + cbv zeta. cbn [Selection.id]. fold newId. fold new.
      rewrite (find_snoc _ slip new Hfind); [reflexivity |].
      cbn [Selection.id new]. apply String.eqb_refl.
    + intro Hnd. rewrite map_app. cbn [map Selection.id new].
      now apply NoDup_snoc.
    + exact Hrem.
    + intros _. rewrite Hrem. now apply removeFromBetSlip_absent.
Qed.

Lemma find_first (A : Type) (f : A -> bool) (before after : list A) (x : A) :
  Forall (fun y => f y = false) before ->
  f x = true ->
  find f (before ++ x :: after) = Some x.
Proof.
  intros Hb Hx. induction Hb as [| y before Hy _ IH]; cbn [app find].
  - now rewrite Hx.
  - now rewrite Hy.
Qed.

(** X17. [settleBet] pays the first pending bet that carries the id: when
    it is won the balance grows by that bet's potential win, when it is
    lost the balance stays.  Either way every pending bet with the id is
    dropped, also later ones that were never paid; the bets before and the
    other bets after keep their order, and the slip and the stake are not
    touched.  On an id that no pending bet carries nothing changes. *)
Theorem settleBet_clears_the_bet
    (s : AppState num) (betId : string)
    (before after : list (PendingBet.t num)) (bet : PendingBet.t num) :
  pendingBets s = (before ++ bet :: after)%list ->
  PendingBet.id bet = betId ->
  ~ In betId (map (@PendingBet.id num) before) ->
  balance (settleBet s betId true)
  = js_add (balance s) (PendingBet.potentialWin bet)
  /\ balance (settleBet s betId false) = balance s
  /\ (forall won : bool,
         pendingBets (settleBet s betId won)
         = (before
            ++ filter (fun b => negb (String.eqb (PendingBet.id b) betId))
                 after)%list
         /\ ~ In betId
              (map (@PendingBet.id num) (pendingBets (settleBet s betId won)))
         /\ betSlip (settleBet s betId won) = betSlip s
         /\ stake (settleBet s betId won) = stake s)
  /\ (forall (s0 : AppState num) (won : bool),
         ~ In betId (map (@PendingBet.id num) (pendingBets s0)) ->
         settleBet s0 betId won = s0).
Proof.
  intros Hpending Hid Hbefore.
  assert (Hnone : Forall (fun b => String.eqb (PendingBet.id b) betId = false)
                    before).
  { apply Forall_forall. intros b Hb.
    destruct (String.eqb (PendingBet.id b) betId) eqn:E; [| reflexivity].
    exfalso. apply Hbefore. apply String.eqb_eq in E. rewrite <- E.
    now apply in_map. }
  assert (Hhit : String.eqb (PendingBet.id bet) betId = true)
    by (rewrite Hid; apply String.eqb_refl).
  assert (Hfind : find (fun b => String.eqb (PendingBet.id b) betId)
                    (pendingBets s) = Some bet).
  { rewrite Hpending. now apply find_first. }
  assert (Hleft : filter (fun b => negb (String.eqb (PendingBet.id b) betId))
                    (pendingBets s)
                  = (before
                     ++ filter (fun b => negb (String.eqb (PendingBet.id b) betId))
                          after)%list).
  { rewrite Hpending, filter_app. cbn [filter]. rewrite Hhit. cbn [negb].
    f_equal. apply filter_all.
    eapply Forall_impl; [| exact Hnone]. cbn beta. now intros b ->. }
  split; [| split; [| split]].
  - unfold settleBet. rewrite Hfind. reflexivity.
  - unfold settleBet. rewrite Hfind. reflexivity.
  - intro won. unfold settleBet. rewrite Hfind.
    cbn [pendingBets betSlip stake]. rewrite Hleft.
    split; [reflexivity | split; [| split; reflexivity]].
    rewrite <- Hleft. intro Hin. apply in_map_iff in Hin.
    destruct Hin as (b & Hb & Hinb).
    apply filter_In in Hinb. destruct Hinb as [_ Hneq].
    rewrite Hb, String.eqb_refl in Hneq. discriminate.
  - intros s0 won Hnot. unfold settleBet.
    destruct (find (fun b => String.eqb (PendingBet.id b) betId) (pendingBets s0))
      as [b |] eqn:Hf; [| reflexivity].
    exfalso. apply Hnot.
    pose proof (find_some _ _ Hf) as [Hin Heq].
    apply String.eqb_eq in Heq. rewrite <- Heq. now apply in_map.
Qed.

End BetSlipFacts.

Section BetSlipAccounting.

Local Open Scope R_scope.

(** Two bets placed in the same millisecond carry the same id: settling it
    as won pays the first, 200, and drops both. *)
Lemma settleBet_clears_the_bet_witness :
  balance (settleBet state_with_twins twin_id true)
  = js_add (balance state_with_twins) (PendingBet.potentialWin twin_first)
  /\ balance (settleBet state_with_twins twin_id false)
     = balance state_with_twins
  /\ (forall won : bool,
         pendingBets (settleBet state_with_twins twin_id won)
         = ([]
            ++ filter (fun b => negb (String.eqb (PendingBet.id b) twin_id))
                 [twin_second])%list
         /\ ~ In twin_id
              (map (@PendingBet.id R)
                 (pendingBets (settleBet state_with_twins twin_id won)))
         /\ betSlip (settleBet state_with_twins twin_id won)
            = betSlip state_with_twins
         /\ stake (settleBet state_with_twins twin_id won)
            = stake state_with_twins)
  /\ (forall (s0 : AppState R) (won : bool),
         ~ In twin_id (map (@PendingBet.id R) (pendingBets s0)) ->
         settleBet s0 twin_id won = s0).
Proof.
  apply (@settleBet_clears_the_bet R _ state_with_twins twin_id
           [] [twin_second] twin_first).
  - reflexivity.
  - reflexivity.
  - intros [].
Defined.

Lemma R_le_true (a b : R) : a <= b -> R_le a b = true.
Proof.
  intro Hab. unfold R_le. destruct (Rle_dec a b); [reflexivity | contradiction].
Qed.

Lemma R_le_false (a b : R) : b < a -> R_le a b = false.
Proof.
  intro Hab. unfold R_le. destruct (Rle_dec a b); [lra | reflexivity].
Qed.

(** The accumulator of [reduce((acc, sel) => acc * sel.odds, 1)]. *)
Lemma fold_odds_snoc (l : list (Selection.t R)) (sel : Selection.t R) (a : R) :
  fold_left (fun acc s => js_mul acc (Selection.odds s)) (l ++ [sel]) a
  = fold_left (fun acc s => js_mul acc (Selection.odds s)) l a
    * Selection.odds sel.
Proof. rewrite fold_left_app. reflexivity. Qed.

Lemma fold_odds_scale (l : list (Selection.t R)) (a : R) :
  fold_left (fun acc s => js_mul acc (Selection.odds s)) l a
  = a * fold_left (fun acc s => js_mul acc (Selection.odds s)) l 1.
Proof.
  revert a. induction l as [| s l IH]; intro a; cbn [fold_left].
  - lra.
  - rewrite IH, (IH (js_mul 1 (Selection.odds s))). js_R. lra.
Qed.

Lemma fold_odds_ge (l : list (Selection.t R)) :
  Forall (fun s => 1 < Selection.odds s) l ->
  1 <= fold_left (fun acc s => js_mul acc (Selection.odds s)) l 1.
Proof.
  induction l as [| s l IH]; intro Hl; cbn [fold_left]; [lra |].
  inversion Hl as [| ? ? Hs Hl']; subst.
  rewrite fold_odds_scale. specialize (IH Hl'). js_R. nra.
Qed.

(** X18. An empty slip has total odds 0, so its potential win is 0.  On a
    non-empty slip whose odds are all above 1 the total odds are the
    product of the odds: they exceed 1 and are at least each selection's
    own odds, the potential win exceeds a positive stake, and one more
    selection multiplies the total odds by its odds. *)
Theorem calculateTotalOdds_accumulates (slip : list (Selection.t R)) :
  slip <> [] ->
  Forall (fun s => 1 < Selection.odds s) slip ->
  (forall stake : R, calculatePotentialWin stake [] = 0)
  /\ 1 < calculateTotalOdds slip
  /\ Forall (fun s => Selection.odds s <= calculateTotalOdds slip) slip
  /\ (forall stake : R, 0 < stake -> stake < calculatePotentialWin stake slip)
  /\ (forall sel : Selection.t R,
         calculateTotalOdds (slip ++ [sel])
         = calculateTotalOdds slip * Selection.odds sel).
Proof.
  intros Hne Hodds.
  assert (Hlen : Nat.eqb (List.length slip) 0 = false).
  { destruct slip; [contradiction | reflexivity]. }
  assert (Hgt : 1 < calculateTotalOdds slip).
  { unfold calculateTotalOdds. rewrite Hlen.
    destruct slip as [| s l]; [contradiction |].
    inversion Hodds as [| ? ? Hs Hl]; subst.
    cbn [fold_left]. rewrite fold_odds_scale.
    pose proof (fold_odds_ge Hl). js_R. nra. }
  split; [| split; [exact Hgt | split; [| split]]].
  - intro stake. unfold calculatePotentialWin, calculateTotalOdds.
    cbn [List.length Nat.eqb]. js_R. lra.
  - unfold calculateTotalOdds. rewrite Hlen.
    clear Hne Hlen Hgt.
    assert (Hgen : forall a, 1 <= a ->
              Forall (fun s => Selection.odds s
                               <= fold_left (fun acc s0 => js_mul acc (Selection.odds s0))
                                    slip a) slip).
    { induction Hodds as [| s l Hs Hl IH]; intros a Ha; [constructor |].
      cbn [fold_left]. constructor.
      - rewrite fold_odds_scale. pose proof (fold_odds_ge Hl) as HF. js_R.
        match type of HF with
        | 1 <= ?F => set (G := F) in HF |- *; clearbody G
        end.
        assert (H1 : Selection.odds s <= a * Selection.odds s) by nra.
        assert (H2 : 0 <= a * Selection.odds s) by nra.
        nra.
      - apply IH. js_R. nra. }
    apply Hgen. js_R. lra.
  - intros stake Hs. unfold calculatePotentialWin. js_R. nra.
  - intro sel. unfold calculateTotalOdds. rewrite Hlen.
    rewrite length_app. cbn [List.length].
    replace (Nat.eqb (List.length slip + 1) 0) with false
      by (symmetry; apply Nat.eqb_neq; lia).
    apply fold_odds_snoc.
Qed.

Lemma calculateTotalOdds_accumulates_witness :
  (forall stake : R, calculatePotentialWin stake [] = 0)
  /\ 1 < calculateTotalOdds [sel_home_win; sel_over]
  /\ Forall (fun s => Selection.odds s
                      <= calculateTotalOdds [sel_home_win; sel_over])
       [sel_home_win; sel_over]
  /\ (forall stake : R,
         0 < stake ->
         stake < calculatePotentialWin stake [sel_home_win; sel_over])
  /\ (forall sel : Selection.t R,
         calculateTotalOdds ([sel_home_win; sel_over] ++ [sel])
         = calculateTotalOdds [sel_home_win; sel_over] * Selection.odds sel).
Proof.
  apply (@calculateTotalOdds_accumulates [sel_home_win; sel_over]).
  - discriminate.
  - repeat apply Forall_cons; try apply Forall_nil;
      unfold sel_home_win, sel_over; cbn [Selection.odds]; lra.
Defined.

(** X19. In real mode, [runSimulation] does nothing on an empty slip or a
    stake that is not positive.  Otherwise it deducts the stake, empties the
    slip and appends one pending bet whose potential win is the stake times
    the total odds; settling that bet (its id being fresh) as lost leaves
    the balance at the old balance minus the stake, settling it as won
    leaves it at the old balance minus the stake plus stake × total odds,
    and either way the pending bets are as they were before. *)
Theorem real_bet_accounting (s : AppState R) (nowId : string) (placedAt : R) :
  betSlip s <> [] ->
  0 < stake s ->
  ~ In nowId (map (@PendingBet.id R) (pendingBets s)) ->
  let placed := runSimulation_realMode s nowId placedAt in
  (forall s0 : AppState R,
      betSlip s0 = [] \/ stake s0 <= 0 ->
      runSimulation_realMode s0 nowId placedAt = s0)
  /\ balance placed = balance s - stake s
  /\ betSlip placed = []
  /\ map (@PendingBet.potentialWin R) (pendingBets placed)
     = map (@PendingBet.potentialWin R) (pendingBets s)
       ++ [stake s * calculateTotalOdds (betSlip s)]
  /\ balance (settleBet placed nowId false) = balance s - stake s
  /\ balance (settleBet placed nowId true)
     = balance s - stake s + stake s * calculateTotalOdds (betSlip s)
  /\ (forall won, pendingBets (settleBet placed nowId won) = pendingBets s).
Proof.
  intros Hne Hstake Hfresh placed.
  assert (Hlen : Nat.eqb (List.length (betSlip s)) 0 = false).
  { destruct (betSlip s); [contradiction | reflexivity]. }
  assert (Hplaced : placed
    = {| balance := balance s - stake s;
         betSlip := [];
         stake := stake s;
         pendingBets :=
           pendingBets s
           ++ [ {| PendingBet.id := nowId;
                   PendingBet.selections := betSlip s;
                   PendingBet.stake := stake s;
                   PendingBet.potentialWin :=
                     stake s * calculateTotalOdds (betSlip s);
                   PendingBet.placedAt := placedAt |} ];
         isSimulating := false |}).
  { unfold placed, runSimulation_realMode. rewrite Hlen. cbn [orb js_le R_JSCompare].
    rewrite R_le_false by (js_R; lra). reflexivity. }
  assert (Hold : Forall (fun b => String.eqb (PendingBet.id b) nowId = false)
                        (pendingBets s)).
  { apply Forall_forall. intros b Hin.
    destruct (String.eqb (PendingBet.id b) nowId) eqn:E; [| reflexivity].
    apply String.eqb_eq in E. exfalso. apply Hfresh. rewrite <- E.
    now apply in_map. }
  assert (Hfind : forall won,
    settleBet placed nowId won
    = {| balance := if won
                    then balance s - stake s
                         + stake s * calculateTotalOdds (betSlip s)
                    else balance s - stake s;
         betSlip := [];
         stake := stake s;
         pendingBets := pendingBets s;
         isSimulating := false |}).
  { intro won. rewrite Hplaced. unfold settleBet. cbn [pendingBets].
    rewrite find_snoc.
    - cbn [balance betSlip stake isSimulating PendingBet.potentialWin].
      f_equal. rewrite filter_app. cbn [filter PendingBet.id].
      rewrite String.eqb_refl. cbn [negb]. rewrite app_nil_r.
      apply filter_all. eapply Forall_impl; [| exact Hold].
      cbn beta. now intros b ->.
    - clear - Hold. induction Hold as [| b l Hb _ IH]; cbn [find];
        [reflexivity | now rewrite Hb].
    - cbn [PendingBet.id]. apply String.eqb_refl. }
  split; [| split; [| split; [| split; [| split; [| split]]]]].
  - intros s0 [Hempty | Hle]; unfold runSimulation_realMode.
    + rewrite Hempty. reflexivity.
    + cbn [js_le R_JSCompare]. rewrite R_le_true by (js_R; lra).
      now rewrite orb_true_r.
  - now rewrite Hplaced.
  - now rewrite Hplaced.
  - rewrite Hplaced. cbn [pendingBets]. rewrite map_app. reflexivity.
  - now rewrite Hfind.
  - now rewrite Hfind.
  - intro won. now rewrite Hfind.
Qed.

Lemma real_bet_accounting_witness :
  let placed := runSimulation_realMode state_with_slip "1700000000000" 0 in
  (forall s0 : AppState R,
      betSlip s0 = [] \/ stake s0 <= 0 ->
      runSimulation_realMode s0 "1700000000000" 0 = s0)
  /\ balance placed = balance state_with_slip - stake state_with_slip
  /\ betSlip placed = []
  /\ map (@PendingBet.potentialWin R) (pendingBets placed)
     = map (@PendingBet.potentialWin R) (pendingBets state_with_slip)
       ++ [stake state_with_slip
           * calculateTotalOdds (betSlip state_with_slip)]
  /\ balance (settleBet placed "1700000000000" false)
     = balance state_with_slip - stake state_with_slip
  /\ balance (settleBet placed "1700000000000" true)
     = balance state_with_slip - stake state_with_slip
       + stake state_with_slip * calculateTotalOdds (betSlip state_with_slip)
  /\ (forall won,
         pendingBets (settleBet placed "1700000000000" won)
         = pendingBets state_with_slip).
Proof.
  apply (@real_bet_accounting state_with_slip "1700000000000" 0).
  - discriminate.
  - unfold state_with_slip; cbn [stake]. lra.
  - unfold state_with_slip; cbn [pendingBets map In]. tauto.
Defined.

End BetSlipAccounting.

(** ** The odds adapter *)

Section BookmakerSelection.

Context {num : Type} `{JSNumber num}.

Lemma bookmakerScore_nonneg (b : Bookmaker.t num) : (0 <= bookmakerScore b)%Z.
Proof.
  unfold bookmakerScore. cbv zeta.
  destruct (findMarket "h2h" _) as [m1 |];
    [destruct (atLeastTwo _) |];
    (destruct (findMarket "spreads" _) as [m2 |];
     [destruct (atLeastTwo _ && firstPointDefined _) |]);
    (destruct (findMarket "totals" _) as [m3 |];
     [destruct (atLeastTwo _ && firstPointDefined _) |]);
    lia.
Qed.

Lemma bestSoFar_fold (l prefix : list (Bookmaker.t num))
    (best : option (Bookmaker.t num) * Z) :
  bestSoFar prefix best ->
  bestSoFar (prefix ++ l)
    (fold_left
       (fun best bookmaker =>
          let '(bestBookmaker, bestScore) := best in
          let score := bookmakerScore bookmaker in
          if Z.gtb score bestScore then (Some bookmaker, score)
          else (bestBookmaker, bestScore))
       l best).
Proof.
  revert prefix best. induction l as [| x l IH]; intros prefix best Hinv.
  - now rewrite app_nil_r.
  - cbn [fold_left].
    replace (prefix ++ x :: l) with ((prefix ++ [x]) ++ l)
      by (rewrite <- app_assoc; reflexivity).
    apply IH. destruct best as [bestBookmaker bestScore].
    unfold bestSoFar in *. cbn [fst snd] in *. cbv zeta.
    destruct (Z.gtb (bookmakerScore x) bestScore) eqn:Hgt; cbn [fst snd].
    + apply Z.gtb_lt in Hgt. split; [reflexivity |].
      exists prefix, []. split; [reflexivity | split; [| constructor]].
      destruct bestBookmaker as [b |].
      * destruct Hinv as (Hs & before & after & -> & Hb & Ha). subst bestScore.
        apply Forall_app. split.
        -- eapply Forall_impl; [| exact Hb]. cbn beta. intros; lia.
        -- constructor; [lia |].
           eapply Forall_impl; [| exact Ha]. cbn beta. intros; lia.
      * destruct Hinv as [-> _]. constructor.
    + assert (Hle : (bookmakerScore x <= bestScore)%Z).
      { destruct (Z.gtb_spec (bookmakerScore x) bestScore); [discriminate | lia]. }
      destruct bestBookmaker as [b |].
      * destruct Hinv as (Hs & before & after & -> & Hb & Ha). subst bestScore.
        split; [reflexivity |].
        exists before, (after ++ [x]). split; [| split; [exact Hb |]].
        -- rewrite <- app_assoc. reflexivity.
        -- apply Forall_app. split; [exact Ha | constructor; [lia | constructor]].
      * destruct Hinv as [_ ->].
        pose proof (bookmakerScore_nonneg x). lia.
Qed.

(** X20. [selectBestBookmaker] returns [null] exactly on an empty list;
    otherwise it returns the first bookmaker of maximal score: every
    bookmaker before it scores strictly less and none after it scores
    more. *)
Theorem selectBestBookmaker_first_of_best (bookmakers : list (Bookmaker.t num)) :
  match selectBestBookmaker bookmakers with
  | None => bookmakers = []
  | Some best =>
      exists before after,
        bookmakers = before ++ best :: after
        /\ Forall (fun b => (bookmakerScore b < bookmakerScore best)%Z) before
        /\ Forall (fun b => (bookmakerScore b <= bookmakerScore best)%Z) after
  end.
Proof.
  unfold selectBestBookmaker.
  pose proof (@bestSoFar_fold bookmakers [] (None, (-1)%Z)) as Hinv.
  cbn [app] in Hinv.
  assert (H0 : bestSoFar [] (@None (Bookmaker.t num), (-1)%Z))
    by (unfold bestSoFar; cbn; tauto).
  specialize (Hinv H0). unfold bestSoFar in Hinv.
  destruct (fst _) as [best |].
  - destruct Hinv as (_ & before & after & Heq & Hb & Ha). eauto.
  - apply Hinv.
Qed.

Lemma selectBestBookmaker_In (bookmakers : list (Bookmaker.t num))
    (best : Bookmaker.t num) :
  selectBestBookmaker bookmakers = Some best -> In best bookmakers.
Proof.
  intro Hsel.
  unfold selectBestBookmaker in Hsel.
  pose proof (@bestSoFar_fold bookmakers [] (None, (-1)%Z)) as Hinv.
  cbn [app] in Hinv.
  assert (H0 : bestSoFar [] (@None (Bookmaker.t num), (-1)%Z))
    by (unfold bestSoFar; cbn; tauto).
  specialize (Hinv H0). unfold bestSoFar in Hinv. rewrite Hsel in Hinv.
  destruct Hinv as (_ & before & after & -> & _).
  apply in_or_app. right. now left.
Qed.








End BookmakerSelection.

Section AdapterWitness.

Local Open Scope string_scope.


End AdapterWitness.

Section AdaptedDistribution.

Local Open Scope R_scope.

Lemma findMarket_In (key : string) (ms : list (OddsMarket.t R))
    (m : OddsMarket.t R) :
  findMarket key ms = Some m -> In m ms.
Proof. intro Hf. now apply find_some in Hf. Qed.

Lemma findOutcome_In (name : string) (outcomes : option (list (Outcome.t R)))
    (o : Outcome.t R) :
  findOutcome name outcomes = Some o ->
  exists os, outcomes = Some os /\ In o os.
Proof.
  unfold findOutcome. destruct outcomes as [os |]; [| discriminate].
  intro Hf. apply find_some in Hf. exists os. tauto.
Qed.

Lemma priceOr2_above1 (price : option R) :
  (forall p, price = Some p -> 1 < p) -> 1 < priceOr2 price.
Proof.
  intro Hp. unfold priceOr2. destruct price as [p |]; js_R; [| lra].
  destruct (R_truthy p); [now apply Hp | lra].
Qed.

(** The markets of an event's chosen bookmaker, and where they come from. *)
Lemma best_market_outcome (event : OddsEvent.t R) (key : string)
    (m : OddsMarket.t R) :
  pricedAbove1 event ->
  match match selectBestBookmaker
                match OddsEvent.bookmakers event with
                | Some bs => bs
                | None => []
                end with
        | Some b => Bookmaker.markets b
        | None => None
        end with
  | Some ms => findMarket key ms
  | None => None
  end = Some m ->
  forall os o p,
    OddsMarket.outcomes m = Some os -> In o os -> Outcome.price o = Some p ->
    1 < p.
Proof.
  intros Hpriced Hm os o p Hos Ho Hp.
  destruct (selectBestBookmaker _) as [b |] eqn:Hsel; [| discriminate].
  apply selectBestBookmaker_In in Hsel.
  destruct (OddsEvent.bookmakers event) as [bs |] eqn:Hbs; [| contradiction].
  destruct (Bookmaker.markets b) as [ms |] eqn:Hms; [| discriminate].
  apply findMarket_In in Hm.
  exact (Hpriced bs b ms m os o p Hbs Hsel Hms Hm Hos Ho Hp).
Qed.

Lemma transformEvent_h2h_valid (formatTime : string -> string)
    (event : OddsEvent.t R) (w : H2H R) :
  pricedAbove1 event ->
  AppMatch.h2h (transformEvent formatTime event) = Some w ->
  valid_h2h w.
Proof.
  intros Hpriced. unfold transformEvent. cbv zeta. cbn [AppMatch.h2h].
  destruct (match match selectBestBookmaker _ with
                  | Some b => Bookmaker.markets b
                  | None => None
                  end with
            | Some ms => findMarket "h2h" ms
            | None => None
            end) as [m |] eqn:Hm; [| discriminate].
  pose proof (@best_market_outcome event "h2h"%string m Hpriced Hm) as Hprices.
  destruct (findOutcome (OddsEvent.home_team event) _) as [ho |] eqn:Hho;
    [| discriminate].
  destruct (findOutcome (OddsEvent.away_team event) _) as [ao |] eqn:Hao;
    [| discriminate].
  apply findOutcome_In in Hho. destruct Hho as (os1 & Hos1 & Hin1).
  apply findOutcome_In in Hao. destruct Hao as (os2 & Hos2 & Hin2).
  intro E. injection E as <-. unfold valid_h2h. cbn [home away draw].
  split; [| split].
  - apply priceOr2_above1. intros p Hp. exact (Hprices os1 ho p Hos1 Hin1 Hp).
  - apply priceOr2_above1. intros p Hp. exact (Hprices os2 ao p Hos2 Hin2 Hp).
  - destruct (findOutcome "Draw" _) as [dr |] eqn:Hdr; [| exact I].
    apply findOutcome_In in Hdr. destruct Hdr as (os3 & Hos3 & Hin3).
    destruct (Outcome.price dr) as [p |] eqn:Hp; [| exact I].
    exact (Hprices os3 dr p Hos3 Hin3 Hp).
Qed.

Lemma transformEvent_totals_valid (formatTime : string -> string)
    (event : OddsEvent.t R) (t : Totals R) :
  pricedAbove1 event ->
  AppMatch.totals (transformEvent formatTime event) = Some t ->
  valid_totals t.
Proof.
  intros Hpriced. unfold transformEvent. cbv zeta. cbn [AppMatch.totals].
  destruct (match match selectBestBookmaker _ with
                  | Some b => Bookmaker.markets b
                  | None => None
                  end with
            | Some ms => findMarket "totals" ms
            | None => None
            end) as [m |] eqn:Hm; [| discriminate].
  pose proof (@best_market_outcome event "totals"%string m Hpriced Hm) as Hprices.
  destruct (atLeastTwo _); [| discriminate].
  destruct (findOutcome "Over" _) as [oo |] eqn:Hoo; [| discriminate].
  destruct (findOutcome "Under" _) as [uo |] eqn:Huo; [| discriminate].
  apply findOutcome_In in Hoo. destruct Hoo as (os1 & Hos1 & Hin1).
  apply findOutcome_In in Huo. destruct Huo as (os2 & Hos2 & Hin2).
  destruct (Outcome.point oo); [| discriminate].
  intro E. injection E as <-. unfold valid_totals. cbn [over under].
  assert (1 < priceOr2 (Outcome.price oo)).
  { apply priceOr2_above1. intros p Hp. exact (Hprices os1 oo p Hos1 Hin1 Hp). }
  assert (1 < priceOr2 (Outcome.price uo)).
  { apply priceOr2_above1. intros p Hp. exact (Hprices os2 uo p Hos2 Hin2 Hp). }
  split; lra.
Qed.

(** The narrow variant on a well-formed win market, with a well-formed
    totals market or none: a distribution of total 1, whether or not the
    point is zero. *)
Lemma withTotals_distribution (w : H2H R) (t : option (Totals R)) :
  valid_h2h w ->
  valid_totals_opt t ->
  Forall (fun sp => 0 <= probability sp)
    (oddsToScoreProbabilitiesWithTotals (home w) (draw w) (away w)
       (option_map (@point R) t) (option_map (@over R) t)
       (option_map (@under R) t))
  /\ totalProbability
       (oddsToScoreProbabilitiesWithTotals (home w) (draw w) (away w)
          (option_map (@point R) t) (option_map (@over R) t)
          (option_map (@under R) t)) = 1.
Proof.
  intros Hv Ht.
  pose proof (baseDistribution_nonneg Hv) as Hpos.
  pose proof (baseDistribution_total Hv) as Htot.
  destruct t as [t |]; cbn [option_map].
  - destruct Ht as [Ho Hu].
    destruct (Req_dec_T (point t) 0) as [Hp0 | Hp0].
    + assert (Htr : R_truthy (point t) = false).
      { unfold R_truthy.
        destruct (Req_dec_T (point t) 0); [reflexivity | contradiction]. }
      unfold oddsToScoreProbabilitiesWithTotals. cbv zeta. js_R.
      rewrite Htr. cbn [andb]. rewrite (oddsToScoreProbabilities_base Hv). tauto.
    + pose proof (implied_pos Ho) as Hio. pose proof (implied_pos Hu) as Hiu.
      unfold impliedProbability in Hio, Hiu.
      rewrite withTotals_renormalize_adjust by lra.
      rewrite renormalize_rescale, adjustTotals_reweight,
        (oddsToScoreProbabilities_base Hv).
      apply conditioning_step; try assumption.
      intro sp. apply totalsFactor_ge_half. split; assumption.
  - unfold oddsToScoreProbabilitiesWithTotals. cbv zeta.
    rewrite (oddsToScoreProbabilities_base Hv). tauto.
Qed.

(** X22. End to end: for an event whose quoted prices are all above 1, the
    match the adapter builds either has no win market, and [runSimulation]
    skips it, or gets from [oddsToScoreProbabilitiesWithTotals] a
    distribution of 18 probabilities between 0 and 1 that sum to 1 (in
    exact arithmetic), whether a totals market was quoted or not. *)
Theorem adapted_match_gives_distribution
    (formatTime : string -> string) (event : OddsEvent.t R) :
  pricedAbove1 event ->
  match scoreProbabilitiesOf (transformEvent formatTime event) with
  | None => AppMatch.h2h (transformEvent formatTime event) = None
  | Some d =>
      List.length d = 18%nat
      /\ Forall (fun sp => 0 <= probability sp <= 1) d
      /\ sumProbability d = 1
  end.
Proof.
  intro Hpriced. unfold scoreProbabilitiesOf.
  destruct (AppMatch.h2h (transformEvent formatTime event)) as [w |] eqn:Hw;
    [| reflexivity].
  pose proof (@transformEvent_h2h_valid formatTime event w Hpriced Hw) as Hv.
  assert (Ht : valid_totals_opt (AppMatch.totals (transformEvent formatTime event))).
  { destruct (AppMatch.totals (transformEvent formatTime event)) as [t |] eqn:Et;
      [| exact I].
    exact (@transformEvent_totals_valid formatTime event t Hpriced Et). }
  destruct (@withTotals_distribution w _ Hv Ht) as [Hpos Htot].
  split; [| split].
  - unfold oddsToScoreProbabilitiesWithTotals. cbv zeta.
    destruct (option_map _ _) as [pt |];
      [| apply length_oddsToScoreProbabilities].
    destruct (option_map _ _) as [ov |];
      [| apply length_oddsToScoreProbabilities].
    destruct (option_map _ _) as [un |];
      [| apply length_oddsToScoreProbabilities].
    destruct (_ && _); [| apply length_oddsToScoreProbabilities].
    rewrite length_renormalize, length_map.
    apply length_oddsToScoreProbabilities.
  - pose proof (probability_le_total Hpos) as Hle. rewrite Htot in Hle.
    rewrite Forall_forall in *. intros sp Hin. split; auto.
  - now rewrite sumProbability_total.
Qed.

Lemma adapted_match_gives_distribution_witness :
  match scoreProbabilitiesOf
          (transformEvent (fun s => s) event_with_two_markets) with
  | None =>
      AppMatch.h2h (transformEvent (fun s => s) event_with_two_markets) = None
  | Some d =>
      List.length d = 18%nat
      /\ Forall (fun sp => 0 <= probability sp <= 1) d
      /\ sumProbability d = 1
  end.
Proof.
  apply (@adapted_match_gives_distribution (fun s => s) event_with_two_markets).
  unfold pricedAbove1, event_with_two_markets. cbn [OddsEvent.bookmakers].
  intros bs b ms m os o p Hbs Hb Hms Hm Hos Ho Hp.
  injection Hbs as <-. destruct Hb as [<- | []].
  cbn [Bookmaker.markets] in Hms. injection Hms as <-.
  destruct Hm as [<- | [<- | []]];
    cbn [OddsMarket.outcomes] in Hos; injection Hos as <-;
    cbn [In] in Ho;
    repeat (destruct Ho as [<- | Ho];
            [cbn [Outcome.price] in Hp; injection Hp as <-; lra |]);
    contradiction.
Defined.

End AdaptedDistribution.

Section AvailableMarkets.

Context {num : Type} `{JSNumber num}.

Local Open Scope string_scope.



End AvailableMarkets.
